(** * AI study assistant: chunker, vector-store adapter and orchestrator

    A shallow embedding of [app.py] ([chunk_text]), [vector_store.py]
    ([StudyMaterialsStore]) and [agents.py] ([StudyAssistant]), with the
    properties stated about them.

    Python [str] values are lists of characters ([ascii], the code
    points below 256), Python [int]s are [Z], Python [float]s are
    binary64 floats.  Loops and recursive retries take an iteration
    budget [fuel]. *)

From Stdlib Require Import ZArith Lia Ascii String DecimalString Floats.
From stdpp Require Import gmap strings list fin_maps.

Local Open Scope Z_scope.

(** ** Python string primitives used by the sources *)

Module PyStr.

Abbreviation pystr := (list ascii).

Definition of_string (s : string) : pystr := list_ascii_of_string s.

(** [len(s)] *)
Definition len (s : pystr) : Z := Z.of_nat (length s).

(** Index adjustment shared by slicing and by [find]/[rfind]: a negative
    index counts from the end, and everything is clipped to [0, len]. *)
Definition norm_index (n i : Z) : Z :=
  if i <? 0 then Z.max (i + n) 0 else Z.min i n.

(** [s[start:end_]] *)
Definition slice (s : pystr) (start end_ : Z) : pystr :=
  let a := norm_index (len s) start in
  let b := norm_index (len s) end_ in
  take (Z.to_nat (b - a)) (drop (Z.to_nat a) s).

(** [s[i:]] *)
Definition slice_from (s : pystr) (start : Z) : pystr :=
  drop (Z.to_nat (norm_index (len s) start)) s.

Fixpoint starts_with (sub s : pystr) : bool :=
  match sub, s with
  | [], _ => true
  | a :: sub', b :: s' => if Ascii.eqb a b then starts_with sub' s' else false
  | _ :: _, [] => false
  end.

(** [s.startswith(sub)] *)
Definition startswith (s sub : pystr) : bool := starts_with sub s.

(** Does [sub] occur in [s] at offset [i]? *)
Definition match_at (sub s : pystr) (i : nat) : bool :=
  starts_with sub (drop i s).

(** Highest offset in [lo, lo + n) at which [sub] occurs. *)
Fixpoint rfind_nat (sub s : pystr) (lo n : nat) : option nat :=
  match n with
  | O => None
  | S n' =>
      if match_at sub s (lo + n') then Some (lo + n')%nat
      else rfind_nat sub s lo n'
  end.

(** [s.rfind(sub, start, end_)]: the highest index [i] with
    [start <= i], [i + len(sub) <= end_] and [s[i:i+len(sub)] == sub],
    or [-1]. *)
Definition rfind (s sub : pystr) (start end_ : Z) : Z :=
  let a := norm_index (len s) start in
  let b := norm_index (len s) end_ in
  if b - a <? len sub then -1
  else
    match rfind_nat sub s (Z.to_nat a) (Z.to_nat (b - a - len sub + 1)) with
    | Some i => Z.of_nat i
    | None => -1
    end.

(** Lowest offset of [sub] in [s], scanning left to right. *)
Fixpoint find_nat (sub s : pystr) : option nat :=
  if starts_with sub s then Some O
  else
    match s with
    | [] => None
    | _ :: s' => S <$> find_nat sub s'
    end.

(** [sub in s] *)
Definition contains (sub s : pystr) : bool :=
  match find_nat sub s with Some _ => true | None => false end.

(** [s.split(sep)[0]] for a non-empty [sep]: everything before the
    first occurrence of [sep], or all of [s]. *)
Definition split_head (s sep : pystr) : pystr :=
  match find_nat sep s with
  | Some i => take i s
  | None => s
  end.

(** [s.split(sep)[1]] for a non-empty [sep]: the piece between the first
    and the second occurrence of [sep]; [None] stands for the
    [IndexError] raised when [sep] does not occur. *)
Definition split_second (s sep : pystr) : option pystr :=
  match find_nat sep s with
  | Some i => Some (split_head (drop (i + length sep) s) sep)
  | None => None
  end.

(** [c.isspace()] on the code points below 256. *)
Definition isspace (c : ascii) : bool :=
  let n := nat_of_ascii c in
  ((9 <=? n) && (n <=? 13) || (28 <=? n) && (n <=? 32)
   || (n =? 133) || (n =? 160))%nat.

Fixpoint lstrip (s : pystr) : pystr :=
  match s with
  | c :: s' => if isspace c then lstrip s' else s
  | [] => []
  end.

(** [s.strip()] *)
Definition strip (s : pystr) : pystr := rev (lstrip (rev (lstrip s))).

(** [sep.join(parts)] *)
Fixpoint join (sep : pystr) (parts : list pystr) : pystr :=
  match parts with
  | [] => []
  | [p] => p
  | p :: rest => p ++ sep ++ join sep rest
  end.

End PyStr.

(** ** [app.py]: the chunker *)

Module Chunker.
Import PyStr.

Definition newline : ascii := ascii_of_nat 10.

(** The boundary strings tried in order: ["\n\n", ".", "?", "!"]. *)
Definition boundaries : list pystr :=
  [[newline; newline]; of_string "."; of_string "?"; of_string "!"].

(** The [for char in [...]] loop: the first boundary string found in the
    window moves [end_] just past its first character. *)
Fixpoint find_boundary (text : pystr) (seps : list pystr) (start end_ : Z) : Z :=
  match seps with
  | [] => end_
  | char :: rest =>
      let pos := rfind text char start end_ in
      if pos =? -1 then find_boundary text rest start end_ else pos + 1
  end.

(** [end] as computed by one iteration of the [while] loop. *)
Definition chunk_end (text : pystr) (chunk_size start : Z) : Z :=
  let end_ := Z.min (start + chunk_size) (len text) in
  if end_ <? len text then find_boundary text boundaries start end_ else end_.

(** [start = end - overlap if end - overlap > start else end] *)
Definition next_start (overlap start end_ : Z) : Z :=
  if end_ - overlap >? start then end_ - overlap else end_.

(** The [while start < text_length] loop; [None] when the iteration
    budget [fuel] runs out before the loop exits. *)
Fixpoint chunk_loop (fuel : nat) (text : pystr) (chunk_size overlap start : Z)
    (chunks : list pystr) : option (list pystr) :=
  if start <? len text then
    match fuel with
    | O => None
    | S fuel' =>
        let end_ := chunk_end text chunk_size start in
        chunk_loop fuel' text chunk_size overlap
          (next_start overlap start end_)
          (chunks ++ [slice text start end_])
    end
  else Some chunks.

(** [chunk_text(text, chunk_size, overlap)] *)
Definition chunk_text (fuel : nat) (text : pystr) (chunk_size overlap : Z)
    : option (list pystr) :=
  match text with
  | [] => Some []
  | _ => chunk_loop fuel text chunk_size overlap 0 []
  end.

(** The same loop, recording the index pair [(start, end)] of every
    chunk instead of the slice itself. *)
Fixpoint span_loop (fuel : nat) (text : pystr) (chunk_size overlap start : Z)
    (spans : list (Z * Z)) : option (list (Z * Z)) :=
  if start <? len text then
    match fuel with
    | O => None
    | S fuel' =>
        let end_ := chunk_end text chunk_size start in
        span_loop fuel' text chunk_size overlap
          (next_start overlap start end_) (spans ++ [(start, end_)])
    end
  else Some spans.

Definition chunk_spans (fuel : nat) (text : pystr) (chunk_size overlap : Z)
    : option (list (Z * Z)) :=
  match text with
  | [] => Some []
  | _ => span_loop fuel text chunk_size overlap 0 []
  end.

Definition slice_span (text : pystr) (se : Z * Z) : pystr :=
  slice text se.1 se.2.

(** The runs of the loop from [start], as a relation: the list of index
    pairs produced until [start] reaches the end of the text. *)
Inductive chain (text : pystr) (chunk_size overlap : Z) : Z -> list (Z * Z) -> Prop :=
| chain_done start :
    len text <= start -> chain text chunk_size overlap start []
| chain_step start spans :
    start < len text ->
    chain text chunk_size overlap
      (next_start overlap start (chunk_end text chunk_size start)) spans ->
    chain text chunk_size overlap start
      ((start, chunk_end text chunk_size start) :: spans).

(** Number of text positions that lie in both index ranges. *)
Definition shared (a b : Z * Z) : Z :=
  Z.max 0 (Z.min a.2 b.2 - Z.max a.1 b.1).

(** *** Index arithmetic *)

Lemma norm_index_nonneg n i : 0 <= i -> norm_index n i = Z.min i n.
Proof. intros Hi. unfold norm_index. destruct (Z.ltb_spec i 0); lia. Qed.

Lemma slice_length (s : pystr) a b :
  0 <= a <= b -> b <= len s -> len (slice s a b) = b - a.
Proof.
  intros Hab Hb. unfold slice, len in *.
  rewrite !norm_index_nonneg by lia.
  rewrite length_take, length_drop. lia.
Qed.

Lemma slice_lookup (s : pystr) a b (k : nat) :
  0 <= a <= b -> b <= len s -> Z.of_nat k < b - a ->
  slice s a b !! k = s !! (Z.to_nat a + k)%nat.
Proof.
  intros Hab Hb Hk. unfold slice, len in *.
  rewrite !norm_index_nonneg by lia.
  rewrite lookup_take_lt by lia.
  rewrite lookup_drop. f_equal. lia.
Qed.

Lemma rfind_nat_bounds sub s lo n i :
  rfind_nat sub s lo n = Some i -> (lo <= i < lo + n)%nat.
Proof.
  induction n as [|n IH]; simpl; [discriminate|].
  destruct (match_at sub s (lo + n)).
  - intros [= <-]. lia.
  - intros H. apply IH in H. lia.
Qed.

Lemma rfind_bounds (s sub : pystr) start end_ :
  0 <= start <= end_ -> end_ <= len s -> 0 < len sub ->
  rfind s sub start end_ = -1 \/
  (start <= rfind s sub start end_ /\ rfind s sub start end_ + len sub <= end_).
Proof.
  intros Hse He Hsub. unfold rfind.
  rewrite !norm_index_nonneg by lia.
  destruct (Z.ltb_spec (Z.min end_ (len s) - Z.min start (len s)) (len sub));
    [now left|].
  destruct (rfind_nat _ _ _ _) as [i|] eqn:Hi; [|now left].
  apply rfind_nat_bounds in Hi. right. lia.
Qed.

Lemma find_boundary_bounds text seps start end_ :
  Forall (fun c => 0 < len c) seps ->
  0 <= start < end_ -> end_ <= len text ->
  start < find_boundary text seps start end_ <= end_.
Proof.
  intros Hseps Hse He. induction Hseps as [|c rest Hc _ IH]; simpl; [lia|].
  destruct (rfind_bounds text c start end_) as [E|[H1 H2]]; try lia.
  - rewrite E. simpl. exact IH.
  - destruct (Z.eqb_spec (rfind text c start end_) (-1)); [exact IH | lia].
Qed.

Lemma boundaries_nonempty : Forall (fun c => 0 < len c) boundaries.
Proof. repeat constructor. Qed.

Lemma chunk_end_bounds text chunk_size start :
  1 <= chunk_size -> 0 <= start < len text ->
  start < chunk_end text chunk_size start <= Z.min (start + chunk_size) (len text).
Proof.
  intros Hcs Hs. unfold chunk_end.
  destruct (Z.ltb_spec (Z.min (start + chunk_size) (len text)) (len text)); [|lia].
  pose proof (find_boundary_bounds text boundaries start
                (Z.min (start + chunk_size) (len text)) boundaries_nonempty).
  lia.
Qed.

Lemma next_start_cases overlap start end_ :
  start < end_ ->
  start < next_start overlap start end_ /\
  (next_start overlap start end_ = end_ - overlap \/
   next_start overlap start end_ = end_).
Proof.
  intros H. unfold next_start.
  destruct (Z.gtb_spec (end_ - overlap) start); lia.
Qed.

(** *** The loop and its runs *)

(** With [chunk_size >= 1] both loops exit within [len text - start]
    iterations, and what they append is a run of the loop. *)
Lemma loops_run text chunk_size overlap :
  1 <= chunk_size ->
  forall fuel start spans0 chunks0,
    0 <= start -> len text - start <= Z.of_nat fuel ->
    exists spans,
      span_loop fuel text chunk_size overlap start spans0 = Some (spans0 ++ spans) /\
      chunk_loop fuel text chunk_size overlap start chunks0
        = Some (chunks0 ++ map (slice_span text) spans) /\
      chain text chunk_size overlap start spans.
Proof.
  intros Hcs. induction fuel as [|fuel IH]; intros start spans0 chunks0 H0 Hfuel.
  - exists []. simpl. destruct (Z.ltb_spec start (len text)); [lia|].
    rewrite !app_nil_r. repeat split. now constructor.
  - simpl. destruct (Z.ltb_spec start (len text)) as [Hlt|Hge].
    + pose proof (chunk_end_bounds text chunk_size start Hcs (conj H0 Hlt)) as He.
      destruct (next_start_cases overlap start (chunk_end text chunk_size start))
        as [Hn _]; [lia|].
      destruct (IH (next_start overlap start (chunk_end text chunk_size start))
                  (spans0 ++ [(start, chunk_end text chunk_size start)])
                  (chunks0 ++ [slice text start (chunk_end text chunk_size start)]))
        as (spans & Hs & Hc & Hch); [lia|lia|].
      exists ((start, chunk_end text chunk_size start) :: spans).
      rewrite Hs, Hc, <- !app_assoc. repeat split. now constructor.
    + exists []. rewrite !app_nil_r. repeat split. now constructor.
Qed.

(** Every index pair of a run is a non-empty window of at most
    [chunk_size] positions inside the text, at or after [start]. *)
Lemma chain_spans text chunk_size overlap start spans :
  1 <= chunk_size -> 0 <= start ->
  chain text chunk_size overlap start spans ->
  Forall (fun se => start <= se.1 /\ se.1 < se.2 <= len text /\
                    se.2 - se.1 <= chunk_size) spans.
Proof.
  intros Hcs H0 Hch. induction Hch as [start Hge|start spans Hlt Hch IH].
  - constructor.
  - pose proof (chunk_end_bounds text chunk_size start Hcs (conj H0 Hlt)) as He.
    destruct (next_start_cases overlap start (chunk_end text chunk_size start))
      as [Hn _]; [lia|].
    constructor; [simpl; lia|].
    eapply Forall_impl; [apply IH; lia|]. simpl. intros [s e]; simpl. lia.
Qed.

(** Consecutive index pairs of a run: the next one starts at
    [next_start] of the previous one. *)
Lemma chain_adjacent text chunk_size overlap start spans i a b :
  1 <= chunk_size -> 0 <= start ->
  chain text chunk_size overlap start spans ->
  spans !! i = Some a -> spans !! S i = Some b ->
  a.1 < a.2 /\ b.1 = next_start overlap a.1 a.2.
Proof.
  intros Hcs H0 Hch. revert i.
  induction Hch as [start Hge|start spans Hlt Hch IH]; intros i Ha Hb.
  - discriminate.
  - pose proof (chunk_end_bounds text chunk_size start Hcs (conj H0 Hlt)) as He.
    destruct (next_start_cases overlap start (chunk_end text chunk_size start))
      as [Hn _]; [lia|].
    destruct i as [|i].
    + injection Ha as <-. simpl in *. split; [lia|].
      inversion Hch as [? ? Heq|? ? ? ? Heq]; subst; [discriminate|].
      simpl in Hb. now injection Hb as <-.
    + simpl in Ha, Hb. apply (IH ltac:(lia) i Ha Hb).
Qed.

(** With a non-negative overlap a run leaves no gap: every position from
    [start] on lies in one of its index pairs. *)
Lemma chain_covers text chunk_size overlap start spans p :
  1 <= chunk_size -> 0 <= overlap -> 0 <= start ->
  chain text chunk_size overlap start spans ->
  start <= p < len text ->
  exists i se, spans !! i = Some se /\ se.1 <= p < se.2.
Proof.
  intros Hcs Hov H0 Hch. induction Hch as [start Hge|start spans Hlt Hch IH];
    intros Hp.
  - lia.
  - pose proof (chunk_end_bounds text chunk_size start Hcs (conj H0 Hlt)) as He.
    destruct (next_start_cases overlap start (chunk_end text chunk_size start))
      as [Hn Hcase]; [lia|].
    destruct (Z.lt_ge_cases p (chunk_end text chunk_size start)) as [Hin|Hout].
    + exists O, (start, chunk_end text chunk_size start). simpl. split; [done|lia].
    + destruct IH as (i & se & Hi & Hse); [lia|lia|].
      exists (S i), se. now split.
Qed.

Lemma chain_functional text chunk_size overlap start spans1 spans2 :
  chain text chunk_size overlap start spans1 ->
  chain text chunk_size overlap start spans2 ->
  spans1 = spans2.
Proof.
  intros H1. revert spans2.
  induction H1 as [start Hge|start spans Hlt _ IH]; intros spans2 H2;
    inversion H2; subst; try lia; [reflexivity|].
  f_equal. now apply IH.
Qed.

(** For [chunk_size >= 1] the result of [chunk_text] does not depend on
    the iteration budget once it is at least the length of the text. *)
Lemma chunk_text_run text chunk_size overlap :
  1 <= chunk_size ->
  exists spans,
    chain text chunk_size overlap 0 spans /\
    forall fuel, (length text <= fuel)%nat ->
      chunk_spans fuel text chunk_size overlap = Some spans /\
      chunk_text fuel text chunk_size overlap = Some (map (slice_span text) spans).
Proof.
  intros Hcs.
  destruct (loops_run text chunk_size overlap Hcs (length text) 0 [] [])
    as (spans & _ & _ & Hch); [lia|unfold len; lia|].
  exists spans. split; [exact Hch|]. intros fuel Hfuel.
  destruct (loops_run text chunk_size overlap Hcs fuel 0 [] [])
    as (spans' & Hs & Hc & Hch'); [lia|unfold len; lia|].
  rewrite (chain_functional _ _ _ _ _ _ Hch Hch').
  unfold chunk_spans, chunk_text. destruct text as [|c text].
  - inversion Hch'; subst; [done|]. unfold len in *. simpl in *. lia.
  - now rewrite Hs, Hc.
Qed.

(** *** Properties of [chunk_text] *)

(** C10. For every text and every overlap, when [chunk_size >= 1] the
    loop of [chunk_text] exits after at most [len(text)] iterations (the
    start index strictly increases from one chunk to the next, also when
    [overlap >= chunk_size]); the result is the empty list for the empty
    text, and every chunk returned is non-empty. *)
Theorem chunk_text_terminates (text : pystr) (chunk_size overlap : Z) :
  1 <= chunk_size ->
  exists spans chunks,
    (forall fuel, (length text <= fuel)%nat ->
       chunk_spans fuel text chunk_size overlap = Some spans /\
       chunk_text fuel text chunk_size overlap = Some chunks) /\
    chunks = map (slice_span text) spans /\
    (forall i a b, spans !! i = Some a -> spans !! S i = Some b -> a.1 < b.1) /\
    Forall (fun c => c <> []) chunks /\
    (text = [] -> chunks = []).
Proof.
  intros Hcs.
  destruct (chunk_text_run text chunk_size overlap Hcs) as (spans & Hch & Hrun).
  exists spans, (map (slice_span text) spans).
  split; [exact Hrun|]. split; [reflexivity|]. split; [|split].
  - intros i a b Ha Hb.
    destruct (chain_adjacent _ _ _ _ _ i a b Hcs (Z.le_refl 0) Hch Ha Hb) as [Hlt ->].
    destruct (next_start_cases overlap a.1 a.2 Hlt). lia.
  - apply Forall_map.
    eapply Forall_impl; [exact (chain_spans _ _ _ _ _ Hcs (Z.le_refl 0) Hch)|].
    intros [s e] (H0 & Hse & _) Heq. simpl in *.
    pose proof (slice_length text s e) as Hlen.
    unfold slice_span in Heq. simpl in Heq. rewrite Heq in Hlen.
    unfold len at 2 in Hlen. simpl in Hlen. lia.
  - intros ->. inversion Hch; subst; [done|]. unfold len in *. simpl in *. lia.
Qed.

Lemma chunk_text_terminates_witness :
  exists chunks,
    chunk_text 5 (of_string "ab.cd") 2 7 = Some chunks /\
    Forall (fun c => c <> []) chunks.
Proof.
  destruct (chunk_text_terminates (of_string "ab.cd") 2 7) as
    (spans & chunks & Hrun & _ & _ & Hne & _); [lia|].
  exists chunks. split; [|exact Hne].
  apply (Hrun 5%nat). simpl. lia.
Defined.

(** C5. For every text and every [0 <= overlap < chunk_size], the list
    returned by [chunk_text] is the list of slices [text[s:e]] over index
    pairs [(s, e)] that, taken in order, leave no position of the text
    out (every character of the text is a character of some chunk);
    adjacent chunks share at most [overlap] positions; and no chunk is
    longer than [chunk_size] (whether or not a boundary string was found
    in its window). *)
Theorem chunk_text_covers (text : pystr) (chunk_size overlap : Z) :
  0 <= overlap < chunk_size ->
  exists spans chunks,
    (forall fuel, (length text <= fuel)%nat ->
       chunk_text fuel text chunk_size overlap = Some chunks) /\
    chunks = map (slice_span text) spans /\
    (forall (p : nat) c, text !! p = Some c ->
       exists i se chunk,
         spans !! i = Some se /\ chunks !! i = Some chunk /\
         se.1 <= Z.of_nat p < se.2 /\
         chunk !! (p - Z.to_nat se.1)%nat = Some c) /\
    (forall i a b, spans !! i = Some a -> spans !! S i = Some b ->
       a.1 < b.1 <= a.2 /\ shared a b <= overlap) /\
    Forall (fun chunk => len chunk <= chunk_size) chunks.
Proof.
  intros [Hov Hlt]. assert (Hcs : 1 <= chunk_size) by lia.
  destruct (chunk_text_run text chunk_size overlap Hcs) as (spans & Hch & Hrun).
  pose proof (chain_spans _ _ _ _ _ Hcs (Z.le_refl 0) Hch) as Hspans.
  exists spans, (map (slice_span text) spans).
  split; [intros fuel Hf; apply (Hrun fuel Hf)|]. split; [reflexivity|].
  split; [|split].
  - intros p c Hp.
    assert (Hpl : 0 <= Z.of_nat p < len text).
    { apply lookup_lt_Some in Hp. unfold len. lia. }
    destruct (chain_covers _ _ _ _ _ (Z.of_nat p) Hcs Hov (Z.le_refl 0) Hch Hpl)
      as (i & [s e] & Hi & Hse).
    exists i, (s, e), (slice text s e). simpl in *.
    rewrite Forall_lookup in Hspans. pose proof (Hspans i _ Hi) as (H0 & Hb & _).
    simpl in *. split; [exact Hi|]. split.
    + rewrite list_lookup_fmap, Hi. reflexivity.
    + split; [exact Hse|].
      rewrite slice_lookup by lia. rewrite <- Hp. f_equal. lia.
  - intros i a b Ha Hb.
    destruct (chain_adjacent _ _ _ _ _ i a b Hcs (Z.le_refl 0) Hch Ha Hb) as [Hab Hn].
    destruct (next_start_cases overlap a.1 a.2 Hab) as [Hgt Hcase].
    unfold shared. lia.
  - apply Forall_map. eapply Forall_impl; [exact Hspans|].
    intros [s e] (H0 & Hse & Hsz). simpl in *. unfold slice_span. simpl.
    rewrite slice_length; lia.
Qed.

Lemma chunk_text_covers_witness :
  exists chunks,
    chunk_text 9 (of_string "One. Two.") 6 2 = Some chunks /\
    Forall (fun chunk => len chunk <= 6) chunks.
Proof.
  destruct (chunk_text_covers (of_string "One. Two.") 6 2) as
    (spans & chunks & Hrun & _ & _ & _ & Hsz); [lia|].
  exists chunks. split; [|exact Hsz].
  apply (Hrun 9%nat). simpl. lia.
Defined.

End Chunker.

(** ** Exceptions, and computations over a mutable state

    A Python method that mutates [self] and the outside world and may
    raise is a function from the state to an outcome and a new state.
    Mutations made before an exception is raised stay in place.  Calls to
    [print] are not modelled. *)

Module Py.
Import PyStr.

(** The exception classes the sources tell apart; every exception here
    is an instance of [Exception]. *)
Inductive exn_class :=
| ConnectionNotExistException
| JSONDecodeError
| AuthenticationError
| OtherException.

(** [text] is [str(e)]. *)
Record exn := Exn { class : exn_class; text : pystr }.

Global Instance exn_class_eq_dec : EqDecision exn_class.
Proof. solve_decision. Defined.

Definition is_stale (e : exn) : bool :=
  match class e with ConnectionNotExistException => true | _ => false end.

Definition is_json_error (e : exn) : bool :=
  match class e with JSONDecodeError => true | _ => false end.

(** Outcome of a call: a returned value, a raised exception, or the
    iteration budget of a loop or recursion running out. *)
Inductive res (A : Type) :=
| Ok (a : A)
| Raise (e : exn)
| OutOfFuel.
Arguments Ok {A} a.
Arguments Raise {A} e.
Arguments OutOfFuel {A}.

Definition M (S A : Type) : Type := S -> res A * S.

Definition ret {S A} (a : A) : M S A := fun s => (Ok a, s).

Definition bind {S A B} (c : M S A) (k : A -> M S B) : M S B :=
  fun s =>
    match c s with
    | (Ok a, s') => k a s'
    | (Raise e, s') => (Raise e, s')
    | (OutOfFuel, s') => (OutOfFuel, s')
    end.

Global Instance M_ret {S} : MRet (M S) := @ret S.
Global Instance M_bind {S} : MBind (M S) := fun A B k c => bind c k.

(** [raise e] *)
Definition raise {S A} (e : exn) : M S A := fun s => (Raise e, s).

Definition out_of_fuel {S A} : M S A := fun s => (OutOfFuel, s).

Definition get {S} : M S S := fun s => (Ok s, s).

Definition modify {S} (f : S -> S) : M S unit := fun s => (Ok tt, f s).

(** [try: body  except Exception as e: handler(e)] *)
Definition try_except {S A} (body : M S A) (handler : exn -> M S A) : M S A :=
  fun s =>
    match body s with
    | (Raise e, s') => handler e s'
    | r => r
    end.

(** Run a computation on one component of a larger state. *)
Definition zoom {S T A} (proj : T -> S) (upd : S -> T -> T) (c : M S A) : M T A :=
  fun t => let '(r, s') := c (proj t) in (r, upd s' t).

End Py.

(** ** JSON values, as [json.loads] returns them and [json.dumps] takes
    them; a Python [dict] keeps its keys in insertion order. *)

Module Json.
Import PyStr.

#[local] Unset Elimination Schemes.
Inductive json :=
| JNull
| JBool (b : bool)
| JInt (n : Z)
| JFloat (x : float)
| JStr (s : pystr)
| JList (items : list json)
| JDict (fields : list (pystr * json)).
#[local] Set Elimination Schemes.

(** [d[key]] on the fields of a dict. *)
Fixpoint field (key : pystr) (fields : list (pystr * json)) : option json :=
  match fields with
  | [] => None
  | (k, v) :: rest => if decide (k = key) then Some v else field key rest
  end.

End Json.

(** ** The outside world: the vector engine, the OpenAI client, the
    clock and the file system

    The engine is the part of pymilvus the adapter talks to.  Its state
    is a registry of connections (alias to location) and the collections
    stored at each location.  Every call into the outside world is
    recorded in a trace; whether a call raises, and what the opaque
    services answer, is decided by an [environment] from the trace so far
    and the call's arguments. *)

Module Engine.
Import PyStr Py Json.

Inductive data_type := INT64 | VARCHAR | FLOAT_VECTOR.

Record FieldSchema := {
  fs_name : pystr;
  fs_dtype : data_type;
  fs_is_primary : bool;
  fs_auto_id : bool;
  fs_max_length : option Z;
  fs_dim : option Z }.

Record IndexParams := {
  metric_type : pystr;
  index_type : pystr;
  nlist : Z }.

(** A stored row. *)
Record entity := {
  e_id : Z;
  e_text : pystr;
  e_metadata : pystr;
  e_embedding : list float }.

Record collection := {
  c_schema : list FieldSchema;
  c_index : option (pystr * IndexParams);
  c_loaded : bool;
  c_entities : list entity }.

(** One hit of a search, with the two output fields asked for. *)
Record hit := {
  h_id : Z;
  h_text : pystr;
  h_metadata : pystr;
  h_distance : float }.

(** Calls into the outside world. *)
Inductive event :=
| Disconnect (alias : pystr)
| Connect (alias uri : pystr) (token : option pystr) (timeout : Z)
| ListCollections (using_ : pystr)
| HasCollection (name using_ : pystr)
| CreateCollection (name : pystr) (schema : list FieldSchema) (using_ : pystr)
| GetCollection (name using_ : pystr)
| CreateIndex (name using_ field_name : pystr) (params : IndexParams)
| Load (name using_ : pystr)
| Insert (name using_ : pystr) (texts metadata_json : list pystr)
    (embeddings : list (list float))
| Flush (name using_ : pystr)
| Search (name using_ : pystr) (data : list float) (nprobe limit : Z)
| DropCollection (name using_ : pystr)
| Sleep (seconds : Z)
| Makedirs (path : pystr)
| MakedirsFor (uri : pystr)
| CleanupOldDbs
| Uuid4
| Time
| ModelsList
| EmbeddingsCreate (model input : pystr)
| ChatCompletionsCreate (model : pystr) (messages : list (pystr * pystr))
    (temperature : float).

Record world := {
  conns : gmap pystr pystr;
  colls : gmap (pystr * pystr) collection;
  next_id : Z;
  trace : list event }.

Record environment := {
  (** does this call raise, given the calls made so far? *)
  fault : list event -> event -> option exn;
  (** [str(uuid.uuid4())] *)
  uuid4_str : list event -> pystr;
  (** [int(time.time())] *)
  now : list event -> Z;
  (** the engine's nearest-neighbour search over the stored rows *)
  ann : list event -> list entity -> list float -> Z -> list hit;
  (** the embedding endpoint: [response.data[0].embedding] *)
  embedding : list event -> pystr -> list float;
  (** the chat endpoint: [response.choices[0].message.content] *)
  completion : list event -> list (pystr * pystr) -> pystr;
  (** [json.dumps] and [json.loads] ([None]: [JSONDecodeError]) *)
  json_dumps : json -> pystr;
  json_loads : pystr -> option json;
  (** the directory two levels above the installed [vector_store.py] *)
  install_root : pystr }.

Definition set_conns (f : gmap pystr pystr -> gmap pystr pystr) (w : world) : world :=
  {| conns := f (conns w); colls := colls w; next_id := next_id w; trace := trace w |}.

Definition set_colls
    (f : gmap (pystr * pystr) collection -> gmap (pystr * pystr) collection)
    (w : world) : world :=
  {| conns := conns w; colls := f (colls w); next_id := next_id w; trace := trace w |}.

Definition set_next_id (n : Z) (w : world) : world :=
  {| conns := conns w; colls := colls w; next_id := n; trace := trace w |}.

Definition record_event (ev : event) (w : world) : world :=
  {| conns := conns w; colls := colls w; next_id := next_id w;
     trace := trace w ++ [ev] |}.

Definition set_index (i : pystr * IndexParams) (c : collection) : collection :=
  {| c_schema := c_schema c; c_index := Some i; c_loaded := c_loaded c;
     c_entities := c_entities c |}.

Definition set_loaded (c : collection) : collection :=
  {| c_schema := c_schema c; c_index := c_index c; c_loaded := true;
     c_entities := c_entities c |}.

Definition add_entities (rows : list entity) (c : collection) : collection :=
  {| c_schema := c_schema c; c_index := c_index c; c_loaded := c_loaded c;
     c_entities := c_entities c ++ rows |}.

Definition new_collection (schema : list FieldSchema) : collection :=
  {| c_schema := schema; c_index := None; c_loaded := false; c_entities := [] |}.

Definition other_error (msg : string) : exn := Exn OtherException (of_string msg).

Fixpoint make_rows (ids : list Z) (texts metas : list pystr)
    (embs : list (list float)) : list entity :=
  match ids, texts, metas, embs with
  | i :: ids', t :: texts', m :: metas', v :: embs' =>
      {| e_id := i; e_text := t; e_metadata := m; e_embedding := v |}
        :: make_rows ids' texts' metas' embs'
  | _, _, _, _ => []
  end.

Section Calls.
Context (env : environment).

(** A call that the environment may make fail: it is recorded, and runs
    only if no fault is injected. *)
Definition call {A} (ev : event) (k : M world A) : M world A :=
  fun w =>
    match fault env (trace w) ev with
    | Some e => (Raise e, record_event ev w)
    | None => k (record_event ev w)
    end.

(** The location behind an alias; the engine's stale-connection error
    when the alias has no connection. *)
Definition connection (alias : pystr) : M world pystr :=
  fun w =>
    match conns w !! alias with
    | Some uri => (Ok uri, w)
    | None =>
        (Raise (Exn ConnectionNotExistException
                  (of_string "should create connection first.")), w)
    end.

Definition the_collection (name using_ : pystr) : M world (pystr * collection) :=
  uri ← connection using_;
  w ← get;
  match colls w !! (uri, name) with
  | Some c => mret (uri, c)
  | None => raise (other_error "collection not found")
  end.

(** [connections.disconnect(alias)] *)
Definition disconnect (alias : pystr) : M world unit :=
  call (Disconnect alias) (modify (set_conns (delete alias))).

(** [connections.connect(alias, uri, token, timeout)] *)
Definition connect (alias uri : pystr) (token : option pystr) (timeout : Z)
    : M world unit :=
  call (Connect alias uri token timeout) (modify (set_conns <[alias := uri]>)).

(** [connections.has_connection(alias)]: a lookup in the client's own
    registry. *)
Definition has_connection (alias : pystr) : M world bool :=
  w ← get; mret (bool_decide (is_Some (conns w !! alias))).

(** [utility.list_collections(using_)] *)
Definition list_collections (using_ : pystr) : M world (list pystr) :=
  call (ListCollections using_)
    (uri ← connection using_;
     w ← get;
     mret (omap (fun '((u, n), _) => if decide (u = uri) then Some n else None)
             (map_to_list (colls w)))).

(** [utility.has_collection(name, using_)] *)
Definition has_collection (name using_ : pystr) : M world bool :=
  call (HasCollection name using_)
    (uri ← connection using_;
     w ← get;
     mret (bool_decide (is_Some (colls w !! (uri, name))))).

(** [Collection(name, schema, using_)]: creates the collection when the
    location has none of that name. *)
Definition create_collection (name : pystr) (schema : list FieldSchema)
    (using_ : pystr) : M world (pystr * pystr) :=
  call (CreateCollection name schema using_)
    (uri ← connection using_;
     w ← get;
     match colls w !! (uri, name) with
     | Some _ => mret (name, using_)
     | None =>
         modify (set_colls <[(uri, name) := new_collection schema]>);;
         mret (name, using_)
     end).

(** [Collection(name, using_)]: a handle to an existing collection. *)
Definition get_collection (name using_ : pystr) : M world (pystr * pystr) :=
  call (GetCollection name using_)
    (the_collection name using_;; mret (name, using_)).

(** [collection.create_index(field_name, index_params)] *)
Definition create_index (h : pystr * pystr) (field_name : pystr)
    (params : IndexParams) : M world unit :=
  call (CreateIndex h.1 h.2 field_name params)
    ('(uri, c) ← the_collection h.1 h.2;
     modify (set_colls <[(uri, h.1) := set_index (field_name, params) c]>)).

(** [collection.load()] *)
Definition load (h : pystr * pystr) : M world unit :=
  call (Load h.1 h.2)
    ('(uri, c) ← the_collection h.1 h.2;
     modify (set_colls <[(uri, h.1) := set_loaded c]>)).

(** [collection.insert([texts, metadata_json, embeddings])]: one batch
    of rows, given column by column; the engine assigns consecutive ids
    and returns them as [primary_keys]. *)
Definition insert (h : pystr * pystr) (texts metas : list pystr)
    (embs : list (list float)) : M world (list Z) :=
  call (Insert h.1 h.2 texts metas embs)
    ('(uri, c) ← the_collection h.1 h.2;
     if decide (length metas = length texts /\ length embs = length texts) then
       w ← get;
       let ids := seqZ (next_id w) (Z.of_nat (length texts)) in
       modify (set_colls
                 <[(uri, h.1) := add_entities (make_rows ids texts metas embs) c]>);;
       modify (set_next_id (next_id w + Z.of_nat (length texts)));;
       mret ids
     else raise (other_error "the columns differ in length")).

(** [collection.flush()] *)
Definition flush (h : pystr * pystr) : M world unit :=
  call (Flush h.1 h.2) (the_collection h.1 h.2;; mret tt).

(** [collection.search(data=[q], anns_field, param, limit, output_fields)[0]] *)
Definition search (h : pystr * pystr) (data : list float) (nprobe limit : Z)
    : M world (list hit) :=
  call (Search h.1 h.2 data nprobe limit)
    ('(uri, c) ← the_collection h.1 h.2;
     if c_loaded c then
       w ← get; mret (ann env (trace w) (c_entities c) data limit)
     else raise (other_error "collection not loaded")).

(** [utility.drop_collection(name, using_)] *)
Definition drop_collection (name using_ : pystr) : M world unit :=
  call (DropCollection name using_)
    (uri ← connection using_;
     modify (set_colls (delete (uri, name)))).

(** [time.sleep(seconds)] *)
Definition sleep (seconds : Z) : M world unit :=
  modify (record_event (Sleep seconds)).

(** [str(uuid.uuid4())] *)
Definition uuid4 : M world pystr :=
  fun w => (Ok (uuid4_str env (trace w)), record_event Uuid4 w).

(** [int(time.time())] *)
Definition time : M world Z :=
  fun w => (Ok (now env (trace w)), record_event Time w).

(** [os.makedirs(path, exist_ok=True)] *)
Definition makedirs (path : pystr) : M world unit :=
  call (Makedirs path) (mret tt).

(** [os.makedirs(os.path.dirname(os.path.abspath(uri)), exist_ok=True)] *)
Definition makedirs_for (uri : pystr) : M world unit :=
  call (MakedirsFor uri) (mret tt).

(** The scan of [cleanup_old_dbs]: list the [tmp] directory and remove
    the database files older than a day.  The file system is not
    modelled, so the scan is one recorded call; it may raise, as
    [os.listdir] and [os.path.getmtime] may. *)
Definition cleanup_old_dbs : M world unit :=
  call CleanupOldDbs (mret tt).

(** [client.models.list()] *)
Definition models_list : M world unit :=
  call ModelsList (mret tt).

(** [client.embeddings.create(model, input).data[0].embedding] *)
Definition embeddings_create (model input : pystr) : M world (list float) :=
  call (EmbeddingsCreate model input)
    (w ← get; mret (embedding env (trace w) input)).

(** [client.chat.completions.create(model, messages, temperature)
      .choices[0].message.content] *)
Definition chat_completions_create (model : pystr)
    (messages : list (pystr * pystr)) (temperature : float) : M world pystr :=
  call (ChatCompletionsCreate model messages temperature)
    (w ← get; mret (completion env (trace w) messages)).

End Calls.

End Engine.

(** ** [vector_store.py]: the adapter *)

Module VectorStore.
Import PyStr Py Json Engine.

Record StudyMaterialsStore := {
  collection_name : pystr;
  dimension : Z;
  workspace_root : pystr;
  uri : pystr;
  token : option pystr;
  connection_alias : pystr;
  (** [self.collection]: the handle (name, alias), unset until
      [_setup_collection] has run *)
  collection : option (pystr * pystr) }.

(** The row a search returns to the caller:
    [{"id", "text", "metadata", "distance"}]. *)
Record SearchResult := {
  sr_id : Z;
  sr_text : pystr;
  sr_metadata : pystr;
  sr_distance : float }.

Definition state : Type := StudyMaterialsStore * world.

Definition with_uri (u : pystr) (s : StudyMaterialsStore) : StudyMaterialsStore :=
  {| collection_name := collection_name s; dimension := dimension s;
     workspace_root := workspace_root s; uri := u; token := token s;
     connection_alias := connection_alias s; collection := collection s |}.

Definition with_collection (h : pystr * pystr) (s : StudyMaterialsStore)
    : StudyMaterialsStore :=
  {| collection_name := collection_name s; dimension := dimension s;
     workspace_root := workspace_root s; uri := uri s; token := token s;
     connection_alias := connection_alias s; collection := Some h |}.

Definition self : M state StudyMaterialsStore := fun st => (Ok st.1, st).

Definition set_self (f : StudyMaterialsStore -> StudyMaterialsStore) : M state unit :=
  modify (fun st => (f st.1, st.2)).

(** A call into the outside world made from a method. *)
Definition outside {A} (c : M world A) : M state A :=
  zoom snd (fun w st => (st.1, w)) c.

(** [self.collection]; an [AttributeError] while it is unset. *)
Definition handle : M state (pystr * pystr) :=
  s ← self;
  match collection s with
  | Some h => mret h
  | None => raise (other_error "'StudyMaterialsStore' object has no attribute 'collection'")
  end.

(** ["tmp" in uri or uri.startswith("./")] *)
Definition session_scoped (uri : pystr) : bool :=
  contains (of_string "tmp") uri || startswith uri (of_string "./").

(** [os.path.join(a, b)] on POSIX paths. *)
Definition path_join (a b : pystr) : pystr :=
  if startswith b (of_string "/") then b
  else if bool_decide (a = []) || starts_with (of_string "/") (rev a) then a ++ b
  else a ++ of_string "/" ++ b.

(** [str(n)] for an [int]. *)
Definition str_of_int (n : Z) : pystr :=
  of_string (NilZero.string_of_int (Z.to_int n)).

(** [f"sa_{unique_id}_{timestamp}.db"] with
    [unique_id = str(uuid.uuid4())[:8]] and
    [timestamp = str(int(time.time()))[-6:]]. *)
Definition db_file_name (uuid : pystr) (t : Z) : pystr :=
  of_string "sa_" ++ slice uuid 0 8 ++ of_string "_"
    ++ slice_from (str_of_int t) (-6) ++ of_string ".db".

Definition max_retries : Z := 3.

(** The fixed schema of [_setup_collection]. *)
Definition fields (dimension : Z) : list FieldSchema :=
  [ {| fs_name := of_string "id"; fs_dtype := INT64; fs_is_primary := true;
       fs_auto_id := true; fs_max_length := None; fs_dim := None |};
    {| fs_name := of_string "text"; fs_dtype := VARCHAR; fs_is_primary := false;
       fs_auto_id := false; fs_max_length := Some 65535; fs_dim := None |};
    {| fs_name := of_string "metadata"; fs_dtype := VARCHAR; fs_is_primary := false;
       fs_auto_id := false; fs_max_length := Some 10000; fs_dim := None |};
    {| fs_name := of_string "embedding"; fs_dtype := FLOAT_VECTOR;
       fs_is_primary := false; fs_auto_id := false; fs_max_length := None;
       fs_dim := Some dimension |} ].

Definition index_params : IndexParams :=
  {| metric_type := of_string "L2"; index_type := of_string "IVF_FLAT";
     nlist := 1024 |}.

Definition to_result (h : hit) : SearchResult :=
  {| sr_id := h_id h; sr_text := h_text h; sr_metadata := h_metadata h;
     sr_distance := h_distance h |}.

(** Running the rest of [__init__] on the object under construction:
    the object is the result when no exception escapes. *)
Definition construct {A} (s : StudyMaterialsStore) (body : M state A)
    : M world StudyMaterialsStore :=
  fun w =>
    let '(r, st) := body (s, w) in
    (match r with
     | Ok _ => Ok st.1
     | Raise e => Raise e
     | OutOfFuel => OutOfFuel
     end, st.2).

Section Methods.
Context (env : environment).

(** The body of the [try] in [_connect]: one connection attempt. *)
Definition connect_attempt : M state unit :=
  s ← self;
  outside (try_except (disconnect env (connection_alias s)) (fun _ => mret tt));;
  outside (connect env (connection_alias s) (uri s) (token s) 10);;
  outside (list_collections env (connection_alias s));;
  mret tt.

(** The fallback of [_connect]: a new location under [tmp]. *)
Definition regenerate_uri : M state unit :=
  s ← self;
  unique ← outside (uuid4 env);
  t ← outside (time env);
  set_self (with_uri (path_join (workspace_root s)
                        (of_string "tmp/" ++ db_file_name unique t)));;
  s ← self;
  outside (makedirs_for env (uri s)).

(** The [while retry_count < max_retries] loop of [_connect]. *)
Fixpoint connect_loop (fuel : nat) (retry_count : Z) : M state unit :=
  if retry_count <? max_retries then
    match fuel with
    | O => out_of_fuel
    | S fuel' =>
        try_except connect_attempt
          (fun e =>
             let retry_count := retry_count + 1 in
             outside (sleep 1);;
             retry_count ←
               (if retry_count >=? max_retries then
                  s ← self;
                  if session_scoped (uri s) then regenerate_uri;; mret 0
                  else
                    raise (Exn ConnectionNotExistException
                             (of_string "Failed to connect to Milvus after 3 attempts: "
                                ++ text e))
                else mret retry_count);
             connect_loop fuel' retry_count)
    end
  else mret tt.

Definition _connect (fuel : nat) : M state unit := connect_loop fuel 0.

Definition _setup_collection (fuel : nat) : M state unit :=
  try_except
    (s ← self;
     connected ← outside (has_connection (connection_alias s));
     (if negb connected then _connect fuel else mret tt);;
     present ← outside (has_collection env (collection_name s) (connection_alias s));
     if negb present then
       h ← outside (create_collection env (collection_name s)
                      (fields (dimension s)) (connection_alias s));
       set_self (with_collection h);;
       outside (create_index env h (of_string "embedding") index_params);;
       outside (load env h)
     else
       h ← outside (get_collection env (collection_name s) (connection_alias s));
       set_self (with_collection h);;
       outside (load env h))
    (fun e => raise e).

(** [metadata = [{}] * len(texts)] when [metadata is None]. *)
Definition default_metadata (texts : list pystr) (metadata : option (list json))
    : list json :=
  match metadata with
  | None => replicate (length texts) (JDict [])
  | Some m => m
  end.

(** The body of the [try] in [store_vectors]. *)
Definition store_attempt (texts : list pystr) (embeddings : list (list float))
    (metadata : list json) : M state (list Z) :=
  let metadata_json := map (json_dumps env) metadata in
  h ← handle;
  primary_keys ← outside (insert env h texts metadata_json embeddings);
  outside (flush env h);;
  mret primary_keys.

(** [store_vectors]; [fuel] bounds the depth of the recursion in the
    [except ConnectionNotExistException] clause. *)
Fixpoint store_vectors (fuel : nat) (texts : list pystr)
    (embeddings : list (list float)) (metadata : option (list json))
    : M state (list Z) :=
  let metadata := default_metadata texts metadata in
  try_except (store_attempt texts embeddings metadata)
    (fun e =>
       if is_stale e then
         match fuel with
         | O => out_of_fuel
         | S fuel' =>
             _connect fuel';;
             _setup_collection fuel';;
             store_vectors fuel' texts embeddings (Some metadata)
         end
       else raise e).

(** The body of the [try] in [search_vectors]. *)
Definition search_attempt (query_embedding : list float) (top_k : Z)
    : M state (list SearchResult) :=
  h ← handle;
  hits ← outside (search env h query_embedding 10 top_k);
  mret (map to_result hits).

Fixpoint search_vectors (fuel : nat) (query_embedding : list float) (top_k : Z)
    : M state (list SearchResult) :=
  try_except (search_attempt query_embedding top_k)
    (fun e =>
       if is_stale e then
         match fuel with
         | O => out_of_fuel
         | S fuel' =>
             _connect fuel';;
             _setup_collection fuel';;
             search_vectors fuel' query_embedding top_k
         end
       else raise e).

Definition drop (fuel : nat) : M state unit :=
  try_except
    (s ← self;
     present ← outside (has_collection env (collection_name s) (connection_alias s));
     if (present : bool) then
       outside (drop_collection env (collection_name s) (connection_alias s));;
       _connect fuel;;
       _setup_collection fuel
     else mret tt)
    (fun e => raise e).

(** [StudyMaterialsStore(collection, dimension, uri, token)] *)
Definition init (fuel : nat) (collection_ : pystr) (dimension_ : Z)
    (uri_ : option pystr) (token_ : option pystr) : M world StudyMaterialsStore :=
  let root := install_root env in
  uri ← match uri_ with
        | None =>
            unique ← uuid4 env;
            t ← time env;
            let tmp_dir := path_join root (of_string "tmp") in
            makedirs env tmp_dir;;
            mret (path_join tmp_dir (db_file_name unique t))
        | Some u => mret u
        end;
  alias ← uuid4 env;
  construct
    {| collection_name := collection_; dimension := dimension_;
       workspace_root := root; uri := uri; token := token_;
       connection_alias :=
         of_string "sa_" ++ slice (filter (fun c => c <> "-"%char) alias) 0 6;
       collection := None |}
    (outside (cleanup_old_dbs env);;
     (if session_scoped uri then outside (makedirs_for env uri) else mret tt);;
     _connect fuel;;
     _setup_collection fuel).

End Methods.

(** *** States of the adapter and the engine *)

(** The collection [_setup_collection] creates and makes ready: the
    fixed schema, the index on [embedding], loaded, no rows. *)
Definition ready_collection (dimension : Z) : Engine.collection :=
  {| c_schema := fields dimension;
     c_index := Some (of_string "embedding", index_params);
     c_loaded := true;
     c_entities := [] |}.

(** What [_setup_collection] leaves at the adapter's location, given
    what was there. *)
Definition ensured (dimension : Z) (existing : option Engine.collection)
    : Engine.collection :=
  match existing with
  | Some c => set_loaded c
  | None => ready_collection dimension
  end.

(** The adapter's handle is set, its alias is connected to its location,
    and the collection named there is [c] and is loaded: [insert],
    [flush] and [search] through the handle reach [c]. *)
Definition serves (st : state) (c : Engine.collection) : Prop :=
  collection st.1 = Some (collection_name st.1, connection_alias st.1) /\
  conns st.2 !! connection_alias st.1 = Some (uri st.1) /\
  colls st.2 !! (uri st.1, collection_name st.1) = Some c /\
  c_loaded c = true.

(** *** What a run of [_connect] leaves in the trace *)

Definition is_sleep (ev : event) : bool :=
  match ev with Sleep _ => true | _ => false end.

Definition is_regeneration (ev : event) : bool :=
  match ev with MakedirsFor _ => true | _ => false end.

(** The calls of a run other than the [disconnect] that opens an attempt
    and the [list_collections] that probes the new connection. *)
Definition connects_and_delays (tr : list event) : list event :=
  List.filter
    (fun ev => match ev with Disconnect _ | ListCollections _ => false | _ => true end)
    tr.

(** Failed attempts (each is followed by one [sleep]) and location
    regenerations (each ends with one [makedirs]) among some calls. *)
Definition failed_attempts (tr : list event) : Z :=
  Z.of_nat (length (List.filter is_sleep tr)).

Definition regenerations (tr : list event) : Z :=
  Z.of_nat (length (List.filter is_regeneration tr)).

Definition after_sleep (st : state) : state :=
  (st.1, record_event (Sleep 1) st.2).

(** The next [n] connection attempts from [st], with the [sleep] after
    each, all fail. *)
Fixpoint attempts_fail (env : environment) (n : nat) (st : state) : Prop :=
  match n with
  | O => True
  | S n' =>
      exists e st', connect_attempt env st = (Raise e, st') /\
                    attempts_fail env n' (after_sleep st')
  end.

Ltac run_monad :=
  unfold mbind, M_bind, bind, mret, M_ret, ret, raise, out_of_fuel, get, modify,
    try_except, zoom in *.

(** *** Strings *)

Lemma starts_with_app (sub rest : pystr) : starts_with sub (sub ++ rest) = true.
Proof.
  induction sub as [|c sub IH]; simpl; [reflexivity|].
  now rewrite Ascii.eqb_refl.
Qed.

Lemma find_nat_unfold (sub s : pystr) :
  find_nat sub s =
    if starts_with sub s then Some O
    else match s with [] => None | _ :: s' => S <$> find_nat sub s' end.
Proof. destruct s; reflexivity. Qed.

Lemma contains_app (sub a b : pystr) : contains sub (a ++ sub ++ b) = true.
Proof.
  unfold contains.
  assert (H : is_Some (find_nat sub (a ++ sub ++ b))).
  { induction a as [|c a IH]; rewrite find_nat_unfold.
    - simpl. rewrite starts_with_app. eauto.
    - destruct (starts_with sub ((c :: a) ++ sub ++ b)); [eauto|].
      simpl. destruct IH as [i ->]. simpl. eauto. }
  destruct H as [i ->]. reflexivity.
Qed.

(** A location under [tmp] is session-scoped, whatever the root. *)
Lemma regenerated_session_scoped (root name : pystr) :
  session_scoped (path_join root (of_string "tmp/" ++ name)) = true.
Proof.
  assert (H1 : contains (of_string "tmp") (root ++ of_string "tmp/" ++ name) = true).
  { apply (contains_app (of_string "tmp") root (of_string "/" ++ name)). }
  assert (H2 : contains (of_string "tmp")
                 (root ++ of_string "/" ++ of_string "tmp/" ++ name) = true).
  { replace (root ++ of_string "/" ++ of_string "tmp/" ++ name)
      with ((root ++ of_string "/") ++ of_string "tmp" ++ (of_string "/" ++ name))
      by (rewrite <- app_assoc; reflexivity).
    apply contains_app. }
  unfold session_scoped, path_join.
  replace (startswith (of_string "tmp/" ++ name) (of_string "/")) with false
    by reflexivity.
  destruct (bool_decide (root = []) || starts_with (of_string "/") (rev root)).
  - now rewrite H1.
  - now rewrite H2.
Qed.

(** *** One attempt, one regeneration *)

Section Connecting.
Context (env : environment).

Lemma connect_attempt_cases st r st' :
  connect_attempt env st = (r, st') ->
  st'.1 = st.1 /\ colls st'.2 = colls st.2 /\ next_id st'.2 = next_id st.2 /\
  delete (connection_alias st.1) (conns st'.2)
    = delete (connection_alias st.1) (conns st.2) /\
  (exists new, trace st'.2 = trace st.2 ++ new /\
     (new = [Disconnect (connection_alias st.1);
             Connect (connection_alias st.1) (uri st.1) (token st.1) 10] \/
      new = [Disconnect (connection_alias st.1);
             Connect (connection_alias st.1) (uri st.1) (token st.1) 10;
             ListCollections (connection_alias st.1)])) /\
  match r with
  | Ok _ => conns st'.2 !! connection_alias st.1 = Some (uri st.1)
  | Raise _ => True
  | OutOfFuel => False
  end.
Proof.
  destruct st as [s w].
  unfold connect_attempt, outside, disconnect, connect, list_collections, call,
    connection, self.
  run_monad. simpl.
  repeat (case_match; simpl in *; simplify_eq); intros; simplify_eq; simpl;
    rewrite ?delete_insert_eq, ?delete_delete_eq, ?lookup_insert_eq;
    repeat split; try done;
    eexists; (split; [rewrite <- ?app_assoc; reflexivity | auto]).
Qed.

Lemma regenerate_uri_cases st r st' :
  regenerate_uri env st = (r, st') ->
  session_scoped (uri st'.1) = true /\
  st'.1 = with_uri (uri st'.1) st.1 /\
  conns st'.2 = conns st.2 /\ colls st'.2 = colls st.2 /\
  next_id st'.2 = next_id st.2 /\
  trace st'.2 = trace st.2 ++ [Uuid4; Time; MakedirsFor (uri st'.1)] /\
  match r with
  | Ok _ => True
  | Raise e =>
      fault env (trace st.2 ++ [Uuid4; Time]) (MakedirsFor (uri st'.1)) = Some e
  | OutOfFuel => False
  end.
Proof.
  destruct st as [s w].
  unfold regenerate_uri, outside, uuid4, time, makedirs_for, call, set_self, self.
  run_monad. simpl. rewrite <- !app_assoc. simpl.
  destruct (fault env _ _) eqn:Hf; intros [= <- <-]; simpl;
    (split; [apply (regenerated_session_scoped (workspace_root s)
                      (db_file_name (uuid4_str env (trace w))
                         (now env (trace w ++ [Uuid4]))))|]);
    rewrite <- ?app_assoc; repeat split; done.
Qed.

(** One iteration of the loop of [_connect], spelled out. *)
Lemma connect_loop_step fuel retry_count st :
  retry_count < max_retries ->
  connect_loop env (S fuel) retry_count st =
    match connect_attempt env st with
    | (Raise e, st1) =>
        if retry_count + 1 >=? max_retries then
          if session_scoped (uri st1.1) then
            match regenerate_uri env (after_sleep st1) with
            | (Ok _, st2) => connect_loop env fuel 0 st2
            | (Raise e', st2) => (Raise e', st2)
            | (OutOfFuel, st2) => (OutOfFuel, st2)
            end
          else
            (Raise (Exn ConnectionNotExistException
                      (of_string "Failed to connect to Milvus after 3 attempts: "
                         ++ text e)),
             after_sleep st1)
        else connect_loop env fuel (retry_count + 1) (after_sleep st1)
    | r => r
    end.
Proof.
  intros Hlt. simpl. destruct (Z.ltb_spec retry_count max_retries); [|lia].
  unfold try_except at 1. destruct (connect_attempt env st) as [[u|e|] st1];
    try reflexivity.
  destruct st1 as [s1 w1].
  unfold outside at 1, sleep, after_sleep. run_monad. simpl.
  destruct (retry_count + 1 >=? max_retries); [|reflexivity].
  cbn [fst snd].
  destruct (session_scoped (uri s1)); [|reflexivity].
  destruct (regenerate_uri env (s1, record_event (Sleep 1) w1))
    as [[u|e'|] st2]; reflexivity.
Qed.

Lemma connect_loop_retry fuel retry_count st e st1 :
  connect_attempt env st = (Raise e, st1) ->
  retry_count + 1 < max_retries ->
  connect_loop env (S fuel) retry_count st
    = connect_loop env fuel (retry_count + 1) (after_sleep st1).
Proof.
  intros Hatt Hlt. rewrite connect_loop_step, Hatt by lia.
  destruct (Z.geb_spec (retry_count + 1) max_retries); [lia|reflexivity].
Qed.

Lemma connect_loop_exhausted fuel retry_count st e st1 :
  connect_attempt env st = (Raise e, st1) ->
  retry_count < max_retries <= retry_count + 1 ->
  connect_loop env (S fuel) retry_count st =
    if session_scoped (uri st1.1) then
      match regenerate_uri env (after_sleep st1) with
      | (Ok _, st2) => connect_loop env fuel 0 st2
      | (Raise e', st2) => (Raise e', st2)
      | (OutOfFuel, st2) => (OutOfFuel, st2)
      end
    else
      (Raise (Exn ConnectionNotExistException
                (of_string "Failed to connect to Milvus after 3 attempts: "
                   ++ text e)),
       after_sleep st1).
Proof.
  intros Hatt Hlt. rewrite connect_loop_step, Hatt by lia.
  destruct (Z.geb_spec (retry_count + 1) max_retries); [reflexivity|lia].
Qed.

Lemma with_uri_id s : with_uri (uri s) s = s.
Proof. destruct s; reflexivity. Qed.

(** [_connect] touches only the adapter's location and its own alias;
    when it returns, the alias is connected to the adapter's location. *)
Lemma connect_loop_frame fuel :
  forall retry_count st r st',
    retry_count < max_retries ->
    connect_loop env fuel retry_count st = (r, st') ->
    st'.1 = with_uri (uri st'.1) st.1 /\
    colls st'.2 = colls st.2 /\ next_id st'.2 = next_id st.2 /\
    delete (connection_alias st.1) (conns st'.2)
      = delete (connection_alias st.1) (conns st.2) /\
    (r = Ok tt -> conns st'.2 !! connection_alias st.1 = Some (uri st'.1)).
Proof.
  induction fuel as [|fuel IH]; intros rc st r st' Hrc Hrun.
  - simpl in Hrun. destruct (Z.ltb_spec rc max_retries); [|lia].
    injection Hrun as <- <-. rewrite with_uri_id. done.
  - rewrite connect_loop_step in Hrun by exact Hrc.
    destruct (connect_attempt env st) as [r1 st1] eqn:Hatt.
    apply connect_attempt_cases in Hatt
      as (Hs1 & Hc1 & Hn1 & Hd1 & _ & Hr1).
    destruct r1 as [[]|e|]; [| |done].
    + injection Hrun as <- <-. rewrite Hs1, with_uri_id. repeat split; done.
    + assert (Hgo : forall rc' st2 (Hrc' : rc' < max_retries),
                 st2.1 = with_uri (uri st2.1) st.1 ->
                 colls st2.2 = colls st.2 -> next_id st2.2 = next_id st.2 ->
                 delete (connection_alias st.1) (conns st2.2)
                   = delete (connection_alias st.1) (conns st.2) ->
                 connect_loop env fuel rc' st2 = (r, st') ->
                 st'.1 = with_uri (uri st'.1) st.1 /\
                 colls st'.2 = colls st.2 /\ next_id st'.2 = next_id st.2 /\
                 delete (connection_alias st.1) (conns st'.2)
                   = delete (connection_alias st.1) (conns st.2) /\
                 (r = Ok tt -> conns st'.2 !! connection_alias st.1 = Some (uri st'.1))).
      { intros rc' st2 Hrc' Hs2 Hc2 Hn2 Hd2 Hloop.
        apply IH in Hloop as (Hs & Hc & Hn & Hd & Hr); [|exact Hrc'].
        rewrite Hs2 in Hs, Hd, Hr. simpl in Hs, Hd, Hr.
        repeat split; try congruence; [exact Hs|exact Hr]. }
      destruct (Z.geb_spec (rc + 1) max_retries) as [Hge|Hnext].
      * destruct (session_scoped (uri st1.1)).
        -- destruct (regenerate_uri env (after_sleep st1)) as [r2 st2] eqn:Hreg.
           apply regenerate_uri_cases in Hreg as (_ & Hs2 & Hcn2 & Hc2 & Hn2 & _ & _).
           simpl in Hs2, Hcn2, Hc2, Hn2.
           assert (Hst2 : st2.1 = with_uri (uri st2.1) st.1) by (rewrite <- Hs1; exact Hs2).
           destruct r2 as [[]|e'|].
           ++ apply (Hgo 0 st2); try done; congruence.
           ++ injection Hrun as <- <-. repeat split; try done; congruence.
           ++ injection Hrun as <- <-. repeat split; try done; congruence.
        -- injection Hrun as <- <-. simpl. rewrite Hs1, with_uri_id.
           repeat split; try done.
      * apply (Hgo (rc + 1) (after_sleep st1)); simpl; try done.
        now rewrite Hs1, with_uri_id.
Qed.

Lemma connects_and_delays_app tr1 tr2 :
  connects_and_delays (tr1 ++ tr2)
    = connects_and_delays tr1 ++ connects_and_delays tr2.
Proof. apply List.filter_app. Qed.

(** A failed attempt followed by its [sleep]: the adapter is unchanged
    and the trace grows by one [connect] and one delay of a second. *)
Lemma failed_attempt_trace st e st1 :
  connect_attempt env st = (Raise e, st1) ->
  (after_sleep st1).1 = st.1 /\
  exists new,
    trace (after_sleep st1).2 = trace st.2 ++ new /\
    connects_and_delays new
      = [Connect (connection_alias st.1) (uri st.1) (token st.1) 10; Sleep 1] /\
    failed_attempts new = 1 /\ regenerations new = 0.
Proof.
  intros Hatt.
  apply connect_attempt_cases in Hatt as (Hs1 & _ & _ & _ & (new & Htr & Hnew) & _).
  split; [exact Hs1|]. exists (new ++ [Sleep 1]). simpl. rewrite Htr, <- app_assoc.
  split; [reflexivity|]. destruct Hnew as [-> | ->]; repeat split; reflexivity.
Qed.

(** C7. For a location that is not session-scoped, when the first three
    connection attempts fail, [_connect] makes exactly these three
    attempts, sleeps one second after each, and then raises its
    connection-failure error; it does not regenerate the location. *)
Theorem connect_gives_up_after_three_attempts fuel st :
  session_scoped (uri st.1) = false ->
  (3 <= fuel)%nat ->
  attempts_fail env 3 st ->
  exists e st' new,
    _connect env fuel st = (Raise e, st') /\
    class e = ConnectionNotExistException /\
    st'.1 = st.1 /\
    trace st'.2 = trace st.2 ++ new /\
    connects_and_delays new =
      [Connect (connection_alias st.1) (uri st.1) (token st.1) 10; Sleep 1;
       Connect (connection_alias st.1) (uri st.1) (token st.1) 10; Sleep 1;
       Connect (connection_alias st.1) (uri st.1) (token st.1) 10; Sleep 1].
Proof.
  intros Hscope Hfuel (e1 & st1 & H1 & e2 & st2 & H2 & e3 & st3 & H3 & _).
  destruct fuel as [|[|[|fuel]]]; try lia.
  pose proof (failed_attempt_trace _ _ _ H1) as (Hs1 & new1 & Ht1 & Hn1 & _).
  pose proof (failed_attempt_trace _ _ _ H2) as (Hs2 & new2 & Ht2 & Hn2 & _).
  pose proof (failed_attempt_trace _ _ _ H3) as (Hs3 & new3 & Ht3 & Hn3 & _).
  rewrite Hs1 in Hs2, Hn2. rewrite Hs2 in Hs3, Hn3.
  exists (Exn ConnectionNotExistException
            (of_string "Failed to connect to Milvus after 3 attempts: " ++ text e3)),
    (after_sleep st3), (new1 ++ new2 ++ new3).
  split.
  - unfold _connect.
    rewrite (connect_loop_retry _ _ _ _ _ H1) by (unfold max_retries; lia).
    rewrite (connect_loop_retry _ _ _ _ _ H2) by (unfold max_retries; lia).
    rewrite (connect_loop_exhausted _ _ _ _ _ H3) by (unfold max_retries; lia).
    simpl in Hs3. now rewrite Hs3, Hscope.
  - split; [reflexivity|]. split; [exact Hs3|]. split.
    + rewrite Ht3, Ht2, Ht1, <- !app_assoc. reflexivity.
    + rewrite !connects_and_delays_app, Hn1, Hn2, Hn3. reflexivity.
Qed.

Lemma failed_attempts_app tr1 tr2 :
  failed_attempts (tr1 ++ tr2) = failed_attempts tr1 + failed_attempts tr2.
Proof.
  unfold failed_attempts. rewrite List.filter_app, length_app. lia.
Qed.

Lemma regenerations_app tr1 tr2 :
  regenerations (tr1 ++ tr2) = regenerations tr1 + regenerations tr2.
Proof.
  unfold regenerations. rewrite List.filter_app, length_app. lia.
Qed.

(** The loop of [_connect] at a session-scoped location: no run ends in
    an exception of its own, and every third consecutive failure
    regenerates the location. *)
Lemma connect_loop_session_scoped fuel :
  (forall tr u, fault env tr (MakedirsFor u) = None) ->
  forall retry_count st r st',
    0 <= retry_count < max_retries ->
    session_scoped (uri st.1) = true ->
    connect_loop env fuel retry_count st = (r, st') ->
    (forall e, r <> Raise e) /\
    session_scoped (uri st'.1) = true /\
    exists new,
      trace st'.2 = trace st.2 ++ new /\
      3 * regenerations new <= failed_attempts new + retry_count
        < 3 * regenerations new + 3.
Proof.
  intros Hdirs. unfold max_retries.
  induction fuel as [|fuel IH]; intros rc st r st' Hrc Hscope Hrun.
  - simpl in Hrun. destruct (Z.ltb_spec rc max_retries); [|unfold max_retries in *; lia].
    injection Hrun as <- <-. split; [done|]. split; [exact Hscope|].
    exists []. rewrite app_nil_r. split; [reflexivity|].
    change (failed_attempts []) with 0. change (regenerations []) with 0. lia.
  - destruct (connect_attempt env st) as [r1 st1] eqn:Hatt.
    destruct r1 as [[]|e|].
    + rewrite connect_loop_step, Hatt in Hrun by (unfold max_retries; lia).
      injection Hrun as <- <-.
      apply connect_attempt_cases in Hatt as (Hs1 & _ & _ & _ & (new & Htr & Hnew) & _).
      split; [done|]. split; [now rewrite Hs1|].
      exists new. split; [exact Htr|].
      destruct Hnew as [-> | ->];
        change (failed_attempts _) with 0; change (regenerations _) with 0; lia.
    + pose proof (failed_attempt_trace _ _ _ Hatt) as (Hs1 & new1 & Ht1 & _ & Hf1 & Hg1).
      destruct (Z.lt_ge_cases (rc + 1) 3) as [Hnext|Hlast].
      * rewrite (connect_loop_retry _ _ _ _ _ Hatt) in Hrun by (unfold max_retries; lia).
        apply IH in Hrun as (Hr & Hsc & new2 & Ht2 & Hcount);
          [|lia|now rewrite Hs1].
        split; [exact Hr|]. split; [exact Hsc|].
        exists (new1 ++ new2). rewrite Ht2, Ht1, <- app_assoc.
        split; [reflexivity|].
        rewrite failed_attempts_app, regenerations_app. lia.
      * rewrite (connect_loop_exhausted _ _ _ _ _ Hatt) in Hrun
          by (unfold max_retries; lia).
        simpl in Hs1. rewrite Hs1, Hscope in Hrun.
        destruct (regenerate_uri env (after_sleep st1)) as [r2 st2] eqn:Hreg.
        apply regenerate_uri_cases in Hreg as (Hsc2 & _ & _ & _ & _ & Ht2 & Hr2).
        destruct r2 as [[]|e'|]; [|now rewrite Hdirs in Hr2|done].
        apply IH in Hrun as (Hr & Hsc & new3 & Ht3 & Hcount); [|lia|exact Hsc2].
        split; [exact Hr|]. split; [exact Hsc|].
        exists (new1 ++ [Uuid4; Time; MakedirsFor (uri st2.1)] ++ new3).
        rewrite Ht3, Ht2, Ht1, <- !app_assoc. split; [reflexivity|].
        rewrite failed_attempts_app, regenerations_app,
          failed_attempts_app, regenerations_app.
        change (failed_attempts [Uuid4; Time; MakedirsFor (uri st2.1)]) with 0.
        change (regenerations [Uuid4; Time; MakedirsFor (uri st2.1)]) with 1.
        lia.
    + rewrite connect_loop_step, Hatt in Hrun by (unfold max_retries; lia).
      apply connect_attempt_cases in Hatt as (_ & _ & _ & _ & _ & []).
Qed.

(** C2, as the code has it. For a session-scoped location, and as long
    as creating the directory of a regenerated location does not fail, a
    call to [_connect] never ends in an error: after every third
    consecutive failed attempt, at the original location or at a
    regenerated one, it regenerates the location (which is session-scoped
    again) and resets the retry counter.  In every run the number of
    regenerations is the number of failed attempts divided by three. *)
Theorem connect_regenerates_without_bound fuel st r st' :
  session_scoped (uri st.1) = true ->
  (forall tr u, fault env tr (MakedirsFor u) = None) ->
  _connect env fuel st = (r, st') ->
  (forall e, r <> Raise e) /\
  session_scoped (uri st'.1) = true /\
  exists new,
    trace st'.2 = trace st.2 ++ new /\
    3 * regenerations new <= failed_attempts new < 3 * regenerations new + 3.
Proof.
  intros Hscope Hdirs Hrun.
  destruct (connect_loop_session_scoped fuel Hdirs 0 st r st') as (Hr & Hsc & new & Ht & Hc);
    [unfold max_retries; lia|exact Hscope|exact Hrun|].
  split; [exact Hr|]. split; [exact Hsc|]. exists new. split; [exact Ht|lia].
Qed.

End Connecting.

(** *** [store_vectors] and [search_vectors] *)

Section Storing.
Context (env : environment).

Lemma make_rows_columns ids texts metas embs :
  length ids = length texts -> length metas = length texts ->
  length embs = length texts ->
  map e_id (make_rows ids texts metas embs) = ids /\
  map e_text (make_rows ids texts metas embs) = texts /\
  map e_metadata (make_rows ids texts metas embs) = metas /\
  map e_embedding (make_rows ids texts metas embs) = embs.
Proof.
  revert texts metas embs.
  induction ids as [|i ids IH]; intros [|t texts] [|m metas] [|v embs];
    simpl; try discriminate; try done.
  intros [= H1] [= H2] [= H3].
  destruct (IH texts metas embs H1 H2 H3) as (-> & -> & -> & ->). done.
Qed.

(** One attempt of [store_vectors] on a served collection, when the
    engine accepts the insert and the flush. *)
Lemma store_attempt_serves st c texts embeddings metadata :
  serves st c ->
  length embeddings = length texts ->
  length metadata = length texts ->
  let name := collection_name st.1 in
  let alias := connection_alias st.1 in
  let metadata_json := map (json_dumps env) metadata in
  let ids := seqZ (next_id st.2) (Z.of_nat (length texts)) in
  fault env (trace st.2) (Insert name alias texts metadata_json embeddings) = None ->
  fault env (trace st.2 ++ [Insert name alias texts metadata_json embeddings])
    (Flush name alias) = None ->
  store_attempt env texts embeddings metadata st =
    (Ok ids,
     (st.1,
      {| conns := conns st.2;
         colls := <[(uri st.1, name) :=
                      add_entities (make_rows ids texts metadata_json embeddings) c]>
                    (colls st.2);
         next_id := next_id st.2 + Z.of_nat (length texts);
         trace := trace st.2 ++ [Insert name alias texts metadata_json embeddings;
                                 Flush name alias] |})).
Proof.
  destruct st as [s w]. intros (Hh & Hconn & Hcoll & _) Hle Hlm. simpl in *.
  intros Hf1 Hf2.
  unfold store_attempt, handle, outside, insert, flush, the_collection, call,
    connection, self, record_event, set_colls, set_next_id.
  run_monad. simpl. rewrite Hh. simpl. rewrite Hf1. simpl. rewrite Hconn. simpl.
  rewrite Hcoll. simpl.
  destruct (decide _) as [_|Hn]; [|rewrite length_map in Hn; tauto].
  simpl. rewrite Hf2. simpl. rewrite Hconn. simpl. rewrite lookup_insert_eq.
  simpl. rewrite <- app_assoc. reflexivity.
Qed.

Lemma store_vectors_unfold fuel texts embeddings metadata st :
  store_vectors env fuel texts embeddings metadata st =
    match store_attempt env texts embeddings (default_metadata texts metadata) st with
    | (Raise e, st1) =>
        if is_stale e then
          match fuel with
          | O => (OutOfFuel, st1)
          | S fuel' =>
              (_connect env fuel';;
               _setup_collection env fuel';;
               store_vectors env fuel' texts embeddings
                 (Some (default_metadata texts metadata))) st1
          end
        else (Raise e, st1)
    | r => r
    end.
Proof.
  destruct fuel; simpl; unfold try_except;
    destruct (store_attempt _ _ _ _ _) as [[ids|e|] st1]; try reflexivity;
    destruct (is_stale e); reflexivity.
Qed.

Lemma search_vectors_unfold fuel query_embedding top_k st :
  search_vectors env fuel query_embedding top_k st =
    match search_attempt env query_embedding top_k st with
    | (Raise e, st1) =>
        if is_stale e then
          match fuel with
          | O => (OutOfFuel, st1)
          | S fuel' =>
              (_connect env fuel';;
               _setup_collection env fuel';;
               search_vectors env fuel' query_embedding top_k) st1
          end
        else (Raise e, st1)
    | r => r
    end.
Proof.
  destruct fuel; simpl; unfold try_except;
    destruct (search_attempt _ _ _ _) as [[hits|e|] st1]; try reflexivity;
    destruct (is_stale e); reflexivity.
Qed.

(** [search_vectors] on a served collection, when the engine accepts the
    search. *)
Lemma search_vectors_serves fuel st c query_embedding top_k :
  serves st c ->
  let ev := Search (collection_name st.1) (connection_alias st.1)
              query_embedding 10 top_k in
  fault env (trace st.2) ev = None ->
  search_vectors env fuel query_embedding top_k st =
    (Ok (map to_result
           (ann env (trace st.2 ++ [ev]) (c_entities c) query_embedding top_k)),
     (st.1, record_event ev st.2)).
Proof.
  destruct st as [s w]. intros (Hh & Hconn & Hcoll & Hloaded). simpl in *.
  intros Hf. rewrite search_vectors_unfold.
  unfold search_attempt, handle, outside, search, the_collection, call,
    connection, self, record_event.
  run_monad. simpl. rewrite Hh. simpl. rewrite Hf. simpl. rewrite Hconn. simpl.
  rewrite Hcoll. simpl. rewrite Hloaded. reflexivity.
Qed.

(** [store_vectors] on a served collection, when the engine accepts the
    insert and the flush. *)
Lemma store_vectors_serves fuel st c texts embeddings metadata :
  serves st c ->
  length embeddings = length texts ->
  (forall m, metadata = Some m -> length m = length texts) ->
  let name := collection_name st.1 in
  let alias := connection_alias st.1 in
  let metadata_json := map (json_dumps env) (default_metadata texts metadata) in
  fault env (trace st.2) (Insert name alias texts metadata_json embeddings) = None ->
  fault env (trace st.2 ++ [Insert name alias texts metadata_json embeddings])
    (Flush name alias) = None ->
  exists st',
    store_vectors env fuel texts embeddings metadata st
      = (Ok (seqZ (next_id st.2) (Z.of_nat (length texts))), st').
Proof.
  intros Hserves Hle Hlm name alias metadata_json Hf1 Hf2.
  assert (Hmd : length (default_metadata texts metadata) = length texts).
  { destruct metadata as [m|]; simpl; [now apply Hlm | apply length_replicate]. }
  rewrite store_vectors_unfold,
    (store_attempt_serves st c texts embeddings _ Hserves Hle Hmd Hf1 Hf2).
  eauto.
Qed.

(** What reaches the caller from the reconnect-and-retry clause. *)
Lemma retry_raises {A} fuel (again : M state A) st e st' :
  (_connect env fuel;; _setup_collection env fuel;; again) st = (Raise e, st') ->
  (exists st0, _connect env fuel st0 = (Raise e, st')) \/
  (exists st0, _setup_collection env fuel st0 = (Raise e, st')) \/
  (exists st0, again st0 = (Raise e, st')).
Proof.
  run_monad.
  destruct (_connect env fuel st) as [[[]|e1|] st1] eqn:Hc; try discriminate.
  - destruct (_setup_collection env fuel st1) as [[[]|e2|] st2] eqn:Hs;
      try discriminate.
    + intros Hagain. right. right. now exists st2.
    + intros [= <- <-]. right. left. now exists st1.
  - intros [= <- <-]. left. now exists st.
Qed.

(** C8. On a served collection, for texts, embeddings and metadata of
    the same length (the metadata being one empty mapping per text when
    [None] is passed), when the engine accepts the insert and the flush,
    [store_vectors] serialises every metadata mapping with [json.dumps],
    makes exactly one [insert] call carrying all the entries and then one
    [flush] call, and returns as many ids as there are texts: the ids the
    engine gave to the rows, in the order of the rows. *)
Theorem store_vectors_batch fuel st c texts embeddings metadata :
  serves st c ->
  length embeddings = length texts ->
  (forall m, metadata = Some m -> length m = length texts) ->
  let name := collection_name st.1 in
  let alias := connection_alias st.1 in
  let metadata_json := map (json_dumps env) (default_metadata texts metadata) in
  fault env (trace st.2) (Insert name alias texts metadata_json embeddings) = None ->
  fault env (trace st.2 ++ [Insert name alias texts metadata_json embeddings])
    (Flush name alias) = None ->
  exists ids st' rows,
    store_vectors env fuel texts embeddings metadata st = (Ok ids, st') /\
    length ids = length texts /\
    (metadata = None ->
     metadata_json = replicate (length texts) (json_dumps env (JDict []))) /\
    trace st'.2 =
      trace st.2 ++ [Insert name alias texts metadata_json embeddings;
                     Flush name alias] /\
    colls st'.2 = <[(uri st.1, name) := add_entities rows c]> (colls st.2) /\
    map e_id rows = ids /\ map e_text rows = texts /\
    map e_metadata rows = metadata_json /\ map e_embedding rows = embeddings.
Proof.
  intros Hserves Hle Hlm name alias metadata_json Hf1 Hf2.
  assert (Hmd : length (default_metadata texts metadata) = length texts).
  { destruct metadata as [m|]; simpl; [now apply Hlm | apply length_replicate]. }
  pose proof (store_attempt_serves st c texts embeddings
                (default_metadata texts metadata) Hserves Hle Hmd Hf1 Hf2) as Hatt.
  set (ids := seqZ (next_id st.2) (Z.of_nat (length texts))) in *.
  assert (Hids : length ids = length texts).
  { unfold ids. rewrite length_seqZ. lia. }
  destruct (make_rows_columns ids texts metadata_json embeddings)
    as (H1 & H2 & H3 & H4); [exact Hids|unfold metadata_json; now rewrite length_map|exact Hle|].
  eexists ids, _, (make_rows ids texts metadata_json embeddings).
  split; [rewrite store_vectors_unfold, Hatt; reflexivity|].
  split; [exact Hids|]. split.
  { intros ->. unfold metadata_json. simpl. now rewrite fmap_replicate. }
  simpl. repeat split; assumption.
Qed.

(** C1, as the code has it. When an attempt of [store_vectors] or
    [search_vectors] meets the stale-connection condition, the adapter
    reconnects, re-ensures the collection and calls the same method
    again; that call handles the condition in the same way, so it is
    retried every time it occurs and not only once.  Hence a
    stale-connection error that reaches the caller was never raised by
    the insert, flush or search of an attempt: it comes from the
    reconnection or from re-ensuring the collection. *)
Theorem stale_connection_retried_every_time fuel texts embeddings metadata
    query_embedding top_k :
  (forall st e st1,
     store_attempt env texts embeddings (default_metadata texts metadata) st
       = (Raise e, st1) ->
     is_stale e = true ->
     store_vectors env (S fuel) texts embeddings metadata st =
       (_connect env fuel;;
        _setup_collection env fuel;;
        store_vectors env fuel texts embeddings
          (Some (default_metadata texts metadata))) st1) /\
  (forall st e st1,
     search_attempt env query_embedding top_k st = (Raise e, st1) ->
     is_stale e = true ->
     search_vectors env (S fuel) query_embedding top_k st =
       (_connect env fuel;;
        _setup_collection env fuel;;
        search_vectors env fuel query_embedding top_k) st1) /\
  (forall st e st',
     store_vectors env fuel texts embeddings metadata st = (Raise e, st') ->
     is_stale e = true ->
     exists f st0,
       _connect env f st0 = (Raise e, st') \/
       _setup_collection env f st0 = (Raise e, st')) /\
  (forall st e st',
     search_vectors env fuel query_embedding top_k st = (Raise e, st') ->
     is_stale e = true ->
     exists f st0,
       _connect env f st0 = (Raise e, st') \/
       _setup_collection env f st0 = (Raise e, st')).
Proof.
  split; [|split; [|split]].
  - intros st e st1 Hatt Hstale.
    now rewrite store_vectors_unfold, Hatt, Hstale.
  - intros st e st1 Hatt Hstale.
    now rewrite search_vectors_unfold, Hatt, Hstale.
  - revert metadata. induction fuel as [|fuel IH]; intros metadata st e st' Hrun Hstale;
      rewrite store_vectors_unfold in Hrun;
      destruct (store_attempt _ _ _ _ _) as [[ids|e0|] st1]; try discriminate;
      destruct (is_stale e0) eqn:He0; try discriminate;
      try (injection Hrun as <- <-; congruence).
    apply retry_raises in Hrun as [[st0 H]|[[st0 H]|[st0 H]]]; [eauto..|].
    now apply IH in H.
  - induction fuel as [|fuel IH]; intros st e st' Hrun Hstale;
      rewrite search_vectors_unfold in Hrun;
      destruct (search_attempt _ _ _ _) as [[hits|e0|] st1]; try discriminate;
      destruct (is_stale e0) eqn:He0; try discriminate;
      try (injection Hrun as <- <-; congruence).
    apply retry_raises in Hrun as [[st0 H]|[[st0 H]|[st0 H]]]; [eauto..|].
    now apply IH in H.
Qed.

End Storing.

(** *** [_setup_collection] and [drop] *)

Section Dropping.
Context (env : environment).

(** [_setup_collection] on a connected alias: the collection at the
    connected location is created ready if absent, loaded if present. *)
Lemma setup_connected fuel st r st' u :
  conns st.2 !! connection_alias st.1 = Some u ->
  _setup_collection env fuel st = (r, st') ->
  conns st'.2 = conns st.2 /\ next_id st'.2 = next_id st.2 /\
  uri st'.1 = uri st.1 /\ connection_alias st'.1 = connection_alias st.1 /\
  collection_name st'.1 = collection_name st.1 /\ dimension st'.1 = dimension st.1 /\
  (r = Ok tt ->
   collection st'.1 = Some (collection_name st.1, connection_alias st.1) /\
   colls st'.2 =
     <[(u, collection_name st.1) :=
         ensured (dimension st.1) (colls st.2 !! (u, collection_name st.1))]>
       (colls st.2)).
Proof.
  destruct st as [s w]. simpl. intros Hconn.
  unfold _setup_collection, outside, has_connection, has_collection, create_collection,
    get_collection, create_index, load, the_collection, call, connection, set_self, self,
    record_event, set_colls, set_conns.
  run_monad. simpl. rewrite !Hconn. simpl.
  repeat (case_match; simpl in *; simplify_eq); intros; simplify_eq; simpl.
  all: repeat split; try done.
  all: repeat match goal with
       | H : negb (bool_decide _) = true |- _ =>
           apply negb_true_iff, bool_decide_eq_false in H
       | H : negb (bool_decide _) = false |- _ =>
           apply negb_false_iff, bool_decide_eq_true in H
       | H : ¬ is_Some _ |- _ => rewrite <- eq_None_not_Some in H
       | H : is_Some _ |- _ => destruct H as [? H]
       end.
  all: simplify_map_eq; rewrite ?insert_insert_eq; try done.
  all: repeat match goal with H : colls _ !! _ = _ |- _ => rewrite H end; done.
Qed.

Lemma connected_conns st st' :
  delete (connection_alias st.1) (conns st'.2)
    = delete (connection_alias st.1) (conns st.2) ->
  conns st'.2 !! connection_alias st.1 = Some (uri st'.1) ->
  conns st'.2 = <[connection_alias st.1 := uri st'.1]> (conns st.2).
Proof.
  intros Hd Hl. apply map_eq. intros a.
  destruct (decide (a = connection_alias st.1)) as [->|Hne].
  - now rewrite lookup_insert_eq.
  - rewrite lookup_insert_ne by done.
    rewrite <- (lookup_delete_ne (conns st'.2) (connection_alias st.1) a) by done.
    rewrite Hd. now rewrite lookup_delete_ne.
Qed.

(** A successful [drop] of a collection that exists. *)
Lemma drop_existing fuel st st' u0 c0 :
  conns st.2 !! connection_alias st.1 = Some u0 ->
  colls st.2 !! (u0, collection_name st.1) = Some c0 ->
  drop env fuel st = (Ok tt, st') ->
  collection_name st'.1 = collection_name st.1 /\
  connection_alias st'.1 = connection_alias st.1 /\
  collection st'.1 = Some (collection_name st.1, connection_alias st.1) /\
  conns st'.2 = <[connection_alias st.1 := uri st'.1]> (conns st.2) /\
  colls st'.2
    = <[(uri st'.1, collection_name st.1) :=
          ensured (dimension st.1)
            (delete (u0, collection_name st.1) (colls st.2)
               !! (uri st'.1, collection_name st.1))]>
        (delete (u0, collection_name st.1) (colls st.2)).
Proof.
  destruct st as [s w]. simpl. intros Hconn Hcoll.
  unfold drop, outside, has_collection, drop_collection, call, connection, self,
    record_event, set_colls.
  run_monad. simpl.
  destruct (fault env _ _); [discriminate|].
  simpl. rewrite Hconn. simpl. rewrite Hcoll. simpl.
  destruct (fault env _ _); [discriminate|].
  simpl. rewrite Hconn. simpl.
  destruct (_connect env fuel _) as [r1 st1] eqn:Hc.
  destruct r1 as [[]|e|]; [|discriminate|discriminate].
  apply connect_loop_frame in Hc as (Hs1 & Hc1 & Hn1 & Hd1 & Hl1); [|unfold max_retries; lia].
  simpl in *. specialize (Hl1 eq_refl).
  destruct (_setup_collection env fuel st1) as [r2 st2] eqn:Hs.
  destruct r2 as [[]|e|]; [|discriminate|discriminate].
  intros [= <-].
  assert (Ha : connection_alias st1.1 = connection_alias s) by (now rewrite Hs1).
  assert (Hname : collection_name st1.1 = collection_name s) by (now rewrite Hs1).
  assert (Hdim : dimension st1.1 = dimension s) by (now rewrite Hs1).
  eapply setup_connected in Hs as (Hcn & _ & Hu & Ha2 & Hn2 & _ & Hok);
    [|rewrite Ha; exact Hl1].
  destruct (Hok eq_refl) as [Hh Hcolls].
  rewrite Hu, Hh, Hcolls, Hcn, Hname, Ha, Hdim, Hc1, Ha2, Hn2.
  repeat split; try done.
  apply (connected_conns (s, w) st1); simpl; [|exact Hl1].
  rewrite Hd1. reflexivity.
Qed.

(** A successful [drop] when no collection of that name exists. *)
Lemma drop_absent fuel st st' u0 :
  conns st.2 !! connection_alias st.1 = Some u0 ->
  colls st.2 !! (u0, collection_name st.1) = None ->
  drop env fuel st = (Ok tt, st') ->
  st'.1 = st.1 /\ conns st'.2 = conns st.2 /\ colls st'.2 = colls st.2.
Proof.
  destruct st as [s w]. simpl. intros Hconn Hcoll.
  unfold drop, outside, has_collection, call, connection, self, record_event.
  run_monad. simpl.
  destruct (fault env _ _); [discriminate|].
  simpl. rewrite Hconn. simpl. rewrite Hcoll. simpl.
  intros [= <-]. done.
Qed.

Lemma drop_connected fuel st st' :
  drop env fuel st = (Ok tt, st') ->
  exists u0, conns st.2 !! connection_alias st.1 = Some u0.
Proof.
  destruct st as [s w]. simpl.
  destruct (conns w !! connection_alias s) as [u0|] eqn:Hconn; [eauto|].
  unfold drop, outside, has_collection, call, connection, self, record_event.
  run_monad. simpl.
  destruct (fault env _ _); [discriminate|].
  simpl. rewrite Hconn. discriminate.
Qed.

(** C4, as the code has it. After a successful return of [drop], the
    alias was connected beforehand, and:
    - if the named collection existed at the connected location, it has
      been deleted there; the alias is connected to the adapter's
      location (the old one, or a regenerated one), and the adapter
      serves, under the same name, a loaded collection at that location,
      which is the empty collection with the fixed schema whenever that
      location held no collection of that name after the deletion (as
      is the case when the location is unchanged); a following search
      or store that the engine accepts succeeds; no other collection
      and no other alias has changed;
    - if it did not exist, nothing has changed: the collection is still
      absent. *)
Theorem drop_recreates_existing_collection fuel st st' :
  drop env fuel st = (Ok tt, st') ->
  exists u0,
    conns st.2 !! connection_alias st.1 = Some u0 /\
    match colls st.2 !! (u0, collection_name st.1) with
    | Some _ =>
        let name := collection_name st.1 in
        let alias := connection_alias st.1 in
        let others := delete (u0, name) (colls st.2) in
        (exists c,
           serves st' c /\
           (others !! (uri st'.1, name) = None ->
            c = ready_collection (dimension st.1)) /\
           (uri st'.1 = u0 -> c = ready_collection (dimension st.1))) /\
        (forall query_embedding top_k,
           fault env (trace st'.2) (Search name alias query_embedding 10 top_k) = None ->
           exists results st'',
             search_vectors env fuel query_embedding top_k st' = (Ok results, st'')) /\
        (forall texts embeddings,
           length embeddings = length texts ->
           let metadata_json :=
             replicate (length texts) (json_dumps env (JDict [])) in
           fault env (trace st'.2)
             (Insert name alias texts metadata_json embeddings) = None ->
           fault env (trace st'.2 ++ [Insert name alias texts metadata_json embeddings])
             (Flush name alias) = None ->
           exists ids st'',
             store_vectors env fuel texts embeddings None st' = (Ok ids, st'')) /\
        (forall a, a <> alias -> conns st'.2 !! a = conns st.2 !! a) /\
        (forall k, k <> (u0, name) -> k <> (uri st'.1, name) ->
                   colls st'.2 !! k = colls st.2 !! k)
    | None =>
        st'.1 = st.1 /\ conns st'.2 = conns st.2 /\ colls st'.2 = colls st.2
    end.
Proof.
  intros Hdrop. destruct (drop_connected _ _ _ Hdrop) as [u0 Hconn].
  exists u0. split; [exact Hconn|].
  destruct (colls st.2 !! (u0, collection_name st.1)) as [c0|] eqn:Hcoll.
  - destruct (drop_existing _ _ _ _ _ Hconn Hcoll Hdrop)
      as (Hname & Halias & Hh & Hcn & Hcl).
    simpl.
    set (c := ensured (dimension st.1)
                (delete (u0, collection_name st.1) (colls st.2)
                   !! (uri st'.1, collection_name st.1))) in *.
    assert (Hserves : serves st' c).
    { unfold serves. rewrite Hname, Halias, Hh, Hcn, Hcl.
      rewrite !lookup_insert_eq. repeat split.
      unfold c. destruct (delete _ _ !! _); reflexivity. }
    split; [|split; [|split; [|split]]].
    + exists c. split; [exact Hserves|]. split.
      * unfold c. now intros ->.
      * unfold c. intros ->. now rewrite lookup_delete_eq.
    + intros q k Hf. eexists _, _.
      apply (search_vectors_serves env fuel st' c q k Hserves).
      now rewrite Hname, Halias.
    + intros texts embeddings Hle Hf1 Hf2.
      destruct (store_vectors_serves env fuel st' c texts embeddings None Hserves Hle)
        as [st'' Hrun]; [discriminate| | |eauto].
      * simpl. rewrite fmap_replicate, Hname, Halias. exact Hf1.
      * simpl. rewrite fmap_replicate, Hname, Halias. exact Hf2.
    + intros a Ha. rewrite Hcn. now rewrite lookup_insert_ne.
    + intros k Hk1 Hk2. rewrite Hcl.
      rewrite lookup_insert_ne by done. now rewrite lookup_delete_ne.
  - exact (drop_absent _ _ _ _ Hconn Hcoll Hdrop).
Qed.

End Dropping.

(** *** Concrete runs of [_connect] *)

Definition is_connect (ev : event) : bool :=
  match ev with Connect _ _ _ _ => true | _ => false end.

Definition calls (p : event -> bool) (tr : list event) : nat :=
  length (List.filter p tr).

Definition refused : exn := other_error "connection refused".

Definition row_hit (e : entity) : hit :=
  {| h_id := e_id e; h_text := e_text e; h_metadata := e_metadata e;
     h_distance := 0%float |}.

(** An environment with the given faults, in which the chat endpoint
    always answers [reply] and [json.loads] is [loads]. *)
Definition sample_env (faults : list event -> event -> option exn)
    (reply : pystr) (loads : pystr -> option json) : environment :=
  {| fault := faults;
     uuid4_str := fun _ => of_string "0123abcd-89ab-4cde-8f01-23456789abcd";
     now := fun tr => 1700000000 + Z.of_nat (length tr);
     ann := fun _ rows _ limit => take (Z.to_nat limit) (map row_hit rows);
     embedding := fun _ _ => [1%float; 0%float];
     completion := fun _ _ => reply;
     json_dumps := fun _ => of_string "{}";
     json_loads := loads;
     install_root := of_string "/srv/app" |}.

(** The engine cannot be reached: every [connect] fails. *)
Definition unreachable : environment :=
  sample_env (fun _ ev => if is_connect ev then Some refused else None)
    [] (fun _ => None).

(** The first [n] calls of [connect] fail, later ones succeed. *)
Definition reachable_after (n : nat) : environment :=
  sample_env
    (fun tr ev =>
       if is_connect ev && (calls is_connect tr <? n)%nat then Some refused
       else None)
    [] (fun _ => None).

Definition empty_world : world :=
  {| conns := ∅; colls := ∅; next_id := 1; trace := [] |}.

Definition sample_store (location : string) : StudyMaterialsStore :=
  {| collection_name := of_string "study_materials"; dimension := 1536;
     workspace_root := of_string "/srv/app"; uri := of_string location;
     token := None; connection_alias := of_string "sa_0123ab";
     collection := None |}.

Lemma connect_gives_up_after_three_attempts_witness :
  exists e st',
    _connect unreachable 5 (sample_store "http://localhost:19530", empty_world)
      = (Raise e, st') /\
    class e = ConnectionNotExistException.
Proof.
  destruct (connect_gives_up_after_three_attempts unreachable 5
              (sample_store "http://localhost:19530", empty_world))
    as (e & st' & new & Hrun & Hclass & _).
  - reflexivity.
  - lia.
  - simpl. repeat (eexists _, _; split; [reflexivity|]). exact I.
  - exists e, st'. split; assumption.
Defined.

(** C2 fails as stated: at a session-scoped location where the three
    attempts at the first regenerated location fail as well, [_connect]
    regenerates the location a second time and, the seventh attempt
    succeeding, returns normally; no error is raised. *)
Lemma connect_regenerates_twice :
  let run := _connect (reachable_after 6) 10 (sample_store "./data.db", empty_world) in
  run.1 = Ok tt /\
  failed_attempts (trace run.2.2) = 6 /\
  regenerations (trace run.2.2) = 2.
Proof. vm_compute. repeat split. Qed.

(** *** Concrete runs of [drop] and [store_vectors] *)

Definition is_insert (ev : event) : bool :=
  match ev with Insert _ _ _ _ _ => true | _ => false end.

Definition stale : exn :=
  Exn ConnectionNotExistException (of_string "should create connection first.").

(** Nothing fails. *)
Definition calm : environment :=
  sample_env (fun _ _ => None) [] (fun _ => None).

(** The engine reports a stale connection on the first [n] inserts. *)
Definition stale_inserts (n : nat) : environment :=
  sample_env
    (fun tr ev =>
       if is_insert ev && (calls is_insert tr <? n)%nat then Some stale else None)
    [] (fun _ => None).

(** The sample adapter after [_connect] and [_setup_collection]. *)
Definition ready_state (env : environment) : state :=
  ((_connect env 3;; _setup_collection env 3)
     (sample_store "./data.db", empty_world)).2.

(** The sample adapter, connected, at a location without collections. *)
Definition connected_state : state :=
  (sample_store "./data.db",
   {| conns := {[ of_string "sa_0123ab" := of_string "./data.db" ]};
      colls := ∅; next_id := 1; trace := [] |}).

Definition two_texts : list pystr := [of_string "alpha"; of_string "beta"].

Definition two_embeddings : list (list float) :=
  [[1%float; 0%float]; [0%float; 1%float]].

(** C1 fails as stated: when the retried insert meets the stale
    connection a second time, [store_vectors] reconnects and retries once
    more, and returns the ids of the third insert; nothing propagates. *)
Lemma second_stale_report_is_retried :
  let run := store_vectors (stale_inserts 2) 5 two_texts two_embeddings None
               (ready_state (stale_inserts 2)) in
  run.1 = Ok [1; 2] /\
  calls is_insert (trace run.2.2) = 3%nat /\
  calls is_connect (trace run.2.2) = 3%nat.
Proof. vm_compute. repeat split. Qed.

Lemma stale_connection_retried_every_time_witness :
  (store_vectors (stale_inserts 1) 4 two_texts two_embeddings None
     (ready_state (stale_inserts 1))).1 = Ok [1; 2].
Proof.
  destruct (stale_connection_retried_every_time (stale_inserts 1) 3 two_texts
              two_embeddings None [] 5) as (Hretry & _).
  rewrite (Hretry (ready_state (stale_inserts 1)) stale
             (store_attempt (stale_inserts 1) two_texts two_embeddings
                (default_metadata two_texts None)
                (ready_state (stale_inserts 1))).2).
  - vm_compute. reflexivity.
  - vm_compute. reflexivity.
  - reflexivity.
Defined.

(** C4 fails as stated: when the named collection does not exist,
    [drop] returns normally and the collection still does not exist. *)
Lemma drop_of_absent_collection_creates_nothing :
  let run := drop calm 5 connected_state in
  run.1 = Ok tt /\
  colls run.2.2 !! (uri run.2.1, collection_name run.2.1) = None.
Proof. vm_compute. repeat split. Qed.

Lemma drop_recreates_existing_collection_witness :
  exists c,
    serves (drop calm 5 (ready_state calm)).2 c /\
    c = ready_collection 1536.
Proof.
  destruct (drop_recreates_existing_collection calm 5 (ready_state calm)
              (drop calm 5 (ready_state calm)).2) as (u0 & Hu & Hm).
  - vm_compute. reflexivity.
  - assert (Hu0 : u0 = of_string "./data.db").
    { vm_compute in Hu. injection Hu as <-. reflexivity. }
    subst u0.
    replace (colls (ready_state calm).2
               !! (of_string "./data.db", collection_name (ready_state calm).1))
      with (Some (ready_collection 1536)) in Hm by (vm_compute; reflexivity).
    destruct Hm as ((c & Hserves & _ & Hc) & _).
    exists c. split; [exact Hserves|]. apply Hc. vm_compute. reflexivity.
Defined.

Lemma store_vectors_batch_witness :
  exists ids st',
    store_vectors calm 0 two_texts two_embeddings None (ready_state calm)
      = (Ok ids, st') /\
    length ids = 2%nat.
Proof.
  destruct (store_vectors_batch calm 0 (ready_state calm) (ready_collection 1536)
              two_texts two_embeddings None)
    as (ids & st' & rows & Hrun & Hlen & _).
  - unfold serves. repeat split; vm_compute; reflexivity.
  - reflexivity.
  - intros m [=].
  - reflexivity.
  - reflexivity.
  - exists ids, st'. split; assumption.
Defined.

Lemma connect_regenerates_without_bound_witness :
  let run := _connect unreachable 7 (sample_store "./data.db", empty_world) in
  session_scoped (uri run.2.1) = true /\
  exists new,
    trace run.2.2 = trace empty_world ++ new /\
    3 * regenerations new <= failed_attempts new < 3 * regenerations new + 3.
Proof.
  destruct (_connect unreachable 7 (sample_store "./data.db", empty_world))
    as [r st'] eqn:Hrun.
  destruct (connect_regenerates_without_bound unreachable 7
              (sample_store "./data.db", empty_world) r st') as (_ & Hsc & Hnew).
  - reflexivity.
  - intros tr u. reflexivity.
  - exact Hrun.
  - split; [exact Hsc|exact Hnew].
Defined.

End VectorStore.

(** ** [agents.py]: the orchestrator *)

Module Agents.
Import PyStr Py Json Engine VectorStore.

(** One entry of [conversation_history]: [{"user": ..., "assistant": ...}]. *)
Record turn := { user : pystr; assistant : pystr }.

Record StudyAssistant := {
  model : pystr;
  conversation_history : list turn;
  vector_store : option StudyMaterialsStore }.

Definition state : Type := StudyAssistant * world.

Definition with_store (s : StudyMaterialsStore) (a : StudyAssistant) : StudyAssistant :=
  {| model := model a; conversation_history := conversation_history a;
     vector_store := Some s |}.

Definition with_turn (t : turn) (a : StudyAssistant) : StudyAssistant :=
  {| model := model a; conversation_history := conversation_history a ++ [t];
     vector_store := vector_store a |}.

Definition self : M state StudyAssistant := fun st => (Ok st.1, st).

Definition in_world {A} (c : M world A) : M state A :=
  zoom snd (fun w st => (st.1, w)) c.

(** A method call on [self.vector_store]; an [AttributeError] while it
    is [None]. *)
Definition on_store {A} (c : M VectorStore.state A) : M state A :=
  fun st =>
    match vector_store st.1 with
    | Some s =>
        let '(r, st') := c (s, st.2) in (r, (with_store st'.1 st.1, st'.2))
    | None =>
        (Raise (other_error "'NoneType' object has no attribute"), st)
    end.

(** Running the rest of [__init__] on the object under construction. *)
Definition construct {A} (a : StudyAssistant) (body : M state A)
    : M world StudyAssistant :=
  fun w =>
    let '(r, st) := body (a, w) in
    (match r with
     | Ok _ => Ok st.1
     | Raise e => Raise e
     | OutOfFuel => OutOfFuel
     end, st.2).

Definition nl : pystr := [Chunker.newline].

(** [history[-n:]] for [n > 0]. *)
Definition last_n {A} (n : nat) (l : list A) : list A :=
  skipn (length l - n)%nat l.

(** The lines ["Student: ...\nAssistant: ..."] of some turns, joined
    by newlines. *)
Definition format_turns (turns : list turn) : pystr :=
  join nl
    (map (fun msg => of_string "Student: " ++ user msg ++ nl
                       ++ of_string "Assistant: " ++ assistant msg)
       turns).

(** ["\n".join([item["text"] for item in relevant_materials])] *)
Definition context_of (relevant_materials : list SearchResult) : pystr :=
  join nl (map sr_text relevant_materials).

(** The [messages] of the chat request of [generate_response]. *)
Definition response_messages (context history query : pystr)
    : list (pystr * pystr) :=
  [ (of_string "system",
     of_string "You are a helpful study assistant. Use the provided context to answer questions accurately and clearly.");
    (of_string "system", of_string "Study materials:" ++ nl ++ context);
    (of_string "system", of_string "Previous conversation:" ++ nl ++ history);
    (of_string "user", query) ].

Definition indent : pystr := of_string "            ".

Definition flashcards_prompt (count : Z) (topic context : pystr) : pystr :=
  join nl
    [ [];
      indent ++ of_string "Create " ++ str_of_int count ++ of_string " flashcards about "
        ++ topic ++ of_string " based on the study materials.";
      indent ++ of_string "Each flashcard should have a question and answer.";
      indent;
      indent ++ of_string "Study materials:";
      indent ++ context;
      indent;
      indent ++ of_string "Return a JSON array of objects with 'question' and 'answer' fields.";
      indent ++ of_string "Questions should be challenging but fair, answers concise but complete.";
      indent ].

Definition quiz_prompt (num_questions : Z) (topic context : pystr) : pystr :=
  join nl
    [ [];
      indent ++ of_string "Create a quiz with " ++ str_of_int num_questions
        ++ of_string " multiple-choice questions about " ++ topic ++ of_string ".";
      indent ++ of_string "Each question should have 4 options with one correct answer.";
      indent;
      indent ++ of_string "Study materials:";
      indent ++ context;
      indent;
      indent ++ of_string "Return a JSON array of objects with:";
      indent ++ of_string "- 'question': question text";
      indent ++ of_string "- 'options': array of 4 answers";
      indent ++ of_string "- 'correct_index': index (0-3) of correct answer";
      indent ++ of_string "- 'explanation': brief explanation";
      indent;
      indent ++ of_string "Questions should be challenging but fair.";
      indent ].

(** [temperature=0.7]: the double nearest to 0.7. *)
Definition temperature : float := 0x1.6666666666666p-1%float.

Definition fence : pystr := of_string "```".
Definition fence_json : pystr := of_string "```json".

(** The stripping of a fenced code block around the reply; [None]
    stands for the [IndexError] of [split(...)[1]]. *)
Definition strip_fence (content : pystr) : option pystr :=
  if contains fence_json content then
    piece ← split_second content fence_json;
    Some (strip (split_head piece fence))
  else if contains fence content then
    piece ← split_second content fence;
    Some (strip (split_head piece fence))
  else Some content.

Definition json_str (s : string) : json := JStr (of_string s).

(** The placeholder lists returned on failure. *)
Definition flashcards_placeholder (answer : pystr) : json :=
  JList [JDict [(of_string "question", json_str "Error");
                (of_string "answer", JStr answer)]].

Definition quiz_placeholder (explanation : pystr) : json :=
  JList [JDict [(of_string "question", json_str "Error");
                (of_string "options", JList [json_str "Error"]);
                (of_string "correct_index", JInt 0);
                (of_string "explanation", JStr explanation)]].

(** The item shapes: [{question, answer}] with string values; and
    [{question, options, correct_index, explanation}] with [n_options]
    strings as options and an index below [n_options]. *)
Definition is_str (v : json) : bool :=
  match v with JStr _ => true | _ => false end.

Definition flashcard_shaped (v : json) : bool :=
  match v with
  | JDict f =>
      match field (of_string "question") f, field (of_string "answer") f with
      | Some (JStr _), Some (JStr _) => true
      | _, _ => false
      end
  | _ => false
  end.

Definition quiz_shaped (n_options : nat) (v : json) : bool :=
  match v with
  | JDict f =>
      match field (of_string "question") f, field (of_string "options") f,
            field (of_string "correct_index") f, field (of_string "explanation") f with
      | Some (JStr _), Some (JList options), Some (JInt i), Some (JStr _) =>
          (length options =? n_options)%nat && forallb is_str options
          && (0 <=? i) && (i <? Z.of_nat n_options)
      | _, _, _, _ => false
      end
  | _ => false
  end.

Section Methods.
Context (env : environment).

(** [StudyMaterialsStore(collection="study_materials", dimension=1536,
    uri=f"tmp/sa_{unique_id}_{timestamp}.db")], kept as
    [self.vector_store]. *)
Definition new_vector_store (fuel : nat) : M state unit :=
  unique ← in_world (uuid4 env);
  t ← in_world (time env);
  store ← in_world (VectorStore.init env fuel (of_string "study_materials") 1536
                      (Some (of_string "tmp/" ++ db_file_name unique t)) None);
  modify (fun st => (with_store store st.1, st.2)).

Definition setup_vector_store (fuel : nat) : M state unit :=
  try_except (new_vector_store fuel) (fun _ => new_vector_store fuel).

(** [StudyAssistant()] *)
Definition init (fuel : nat) : M world StudyAssistant :=
  try_except (models_list env)
    (fun e =>
       match class e with
       | AuthenticationError => raise (other_error "Invalid OpenAI API key provided")
       | _ => raise (Exn OtherException
                       (of_string "Error initializing OpenAI client: " ++ text e))
       end);;
  construct
    {| model := of_string "gpt-4o"; conversation_history := [];
       vector_store := None |}
    (setup_vector_store fuel).

Definition get_embedding (text : pystr) : M state (list float) :=
  try_except
    (in_world (embeddings_create env (of_string "text-embedding-3-small") text))
    (fun e => raise e).

Definition search_materials (fuel : nat) (query : pystr) (top_k : Z)
    : M state (list SearchResult) :=
  try_except
    (query_embedding ← get_embedding query;
     on_store (search_vectors env fuel query_embedding top_k))
    (fun e =>
       if is_stale e then
         setup_vector_store fuel;;
         query_embedding ← get_embedding query;
         on_store (search_vectors env fuel query_embedding top_k)
       else raise e).

(** The body of the [try] in [generate_response]. *)
Definition response_attempt (fuel : nat) (query : pystr) : M state pystr :=
  relevant_materials ← search_materials fuel query 5;
  a ← self;
  content ← in_world
    (chat_completions_create env (model a)
       (response_messages (context_of relevant_materials)
          (format_turns (last_n 5 (conversation_history a))) query)
       temperature);
  modify (fun st => (with_turn {| user := query; assistant := content |} st.1, st.2));;
  mret content.

(** [generate_response]; [fuel] bounds the depth of the recursion in
    the [except ConnectionNotExistException] clause. *)
Fixpoint generate_response (fuel : nat) (query : pystr) : M state pystr :=
  try_except (response_attempt fuel query)
    (fun e =>
       if is_stale e then
         match fuel with
         | O => out_of_fuel
         | S fuel' => setup_vector_store fuel';; generate_response fuel' query
         end
       else mret (of_string "Error: " ++ text e)).

(** The end of the [try] in [generate_flashcards] and [generate_quiz]:
    strip the fence, then [json.loads]. *)
Definition parse_reply (content : pystr) : M state json :=
  match strip_fence content with
  | None => raise (other_error "list index out of range")
  | Some stripped =>
      match json_loads env stripped with
      | Some v => mret v
      | None => raise (Exn JSONDecodeError (of_string "Expecting value"))
      end
  end.

(** The start of the [try] in [generate_flashcards]: retrieval and the
    chat request. *)
Definition flashcards_reply (fuel : nat) (topic : pystr) (count : Z) : M state pystr :=
  relevant_materials ← search_materials fuel topic 5;
  a ← self;
  in_world
    (chat_completions_create env (model a)
       [ (of_string "system",
          of_string "You are a study assistant creating effective flashcards.");
         (of_string "user",
          flashcards_prompt count topic (context_of relevant_materials)) ]
       temperature).

(** The body of the [try] in [generate_flashcards]. *)
Definition flashcards_attempt (fuel : nat) (topic : pystr) (count : Z) : M state json :=
  content ← flashcards_reply fuel topic count; parse_reply content.

Definition generate_flashcards (fuel : nat) (topic : pystr) (count : Z) : M state json :=
  try_except (flashcards_attempt fuel topic count)
    (fun e =>
       if is_json_error e then
         mret (flashcards_placeholder (of_string "Could not generate flashcards."))
       else mret (flashcards_placeholder (of_string "Error: " ++ text e))).

Definition quiz_reply (fuel : nat) (topic : pystr) (num_questions : Z) : M state pystr :=
  relevant_materials ← search_materials fuel topic 5;
  a ← self;
  in_world
    (chat_completions_create env (model a)
       [ (of_string "system",
          of_string "You are a study assistant creating effective quizzes.");
         (of_string "user",
          quiz_prompt num_questions topic (context_of relevant_materials)) ]
       temperature).

(** The body of the [try] in [generate_quiz]. *)
Definition quiz_attempt (fuel : nat) (topic : pystr) (num_questions : Z) : M state json :=
  content ← quiz_reply fuel topic num_questions; parse_reply content.

Definition generate_quiz (fuel : nat) (topic : pystr) (num_questions : Z) : M state json :=
  try_except (quiz_attempt fuel topic num_questions)
    (fun e =>
       if is_json_error e then
         mret (quiz_placeholder (of_string "Could not generate quiz."))
       else mret (quiz_placeholder (of_string "Error: " ++ text e))).

(** [get_conversation_history] *)
Definition get_conversation_history (a : StudyAssistant) : list turn :=
  conversation_history a.

(** A caller making one [generate_response] call per query, in order,
    and collecting the replies. *)
Fixpoint ask_all (fuel : nat) (queries : list pystr) : M state (list pystr) :=
  match queries with
  | [] => mret []
  | query :: rest =>
      reply ← generate_response fuel query;
      replies ← ask_all fuel rest;
      mret (reply :: replies)
  end.

End Methods.

(** Does a reply begin with ["Error: "]? *)
Definition is_error_reply (reply : pystr) : bool :=
  starts_with (of_string "Error: ") reply.

(** A computation that leaves the conversation history and the model
    name of the assistant as they are, whatever its outcome. *)
Definition keeps {A} (c : M state A) : Prop :=
  forall st r st',
    c st = (r, st') ->
    conversation_history st'.1 = conversation_history st.1 /\ model st'.1 = model st.1.

(** *** The history is touched by [generate_response] only *)

Section Frame.
Context (env : environment).

Lemma keeps_ret {A} (a : A) : keeps (mret a).
Proof. intros st r st' [= <- <-]. done. Qed.

Lemma keeps_raise {A} e : keeps (@raise _ A e).
Proof. intros st r st' [= <- <-]. done. Qed.

Lemma keeps_out_of_fuel {A} : keeps (@out_of_fuel _ A).
Proof. intros st r st' [= <- <-]. done. Qed.

Lemma keeps_bind {A B} (c : M state A) (k : A -> M state B) :
  keeps c -> (forall a, keeps (k a)) -> keeps (c ≫= k).
Proof.
  intros Hc Hk st r st'. unfold mbind, M_bind, bind.
  destruct (c st) as [[a|e|] st1] eqn:H1.
  - intros H2. apply Hc in H1 as [E1 E2]. apply Hk in H2 as [E3 E4].
    split; congruence.
  - intros [= <- <-]. now apply Hc in H1.
  - intros [= <- <-]. now apply Hc in H1.
Qed.

Lemma keeps_try {A} (body : M state A) handler :
  keeps body -> (forall e, keeps (handler e)) -> keeps (try_except body handler).
Proof.
  intros Hb Hh st r st'. unfold try_except.
  destruct (body st) as [[a|e|] st1] eqn:H1.
  - intros [= <- <-]. now apply Hb in H1.
  - intros H2. apply Hb in H1 as [E1 E2]. apply Hh in H2 as [E3 E4].
    split; congruence.
  - intros [= <- <-]. now apply Hb in H1.
Qed.

Lemma keeps_in_world {A} (c : M world A) : keeps (in_world c).
Proof.
  intros [a w] r st'. unfold in_world, zoom. simpl.
  destruct (c w) as [r1 w1]. intros [= <- <-]. done.
Qed.

Lemma keeps_on_store {A} (c : M VectorStore.state A) : keeps (on_store c).
Proof.
  intros [a w] r st'. unfold on_store. simpl.
  destruct (vector_store a) as [s|]; [|intros [= <- <-]; done].
  destruct (c (s, w)) as [r1 st1]. intros [= <- <-]. done.
Qed.

Lemma keeps_new_vector_store fuel : keeps (new_vector_store env fuel).
Proof.
  unfold new_vector_store.
  repeat (apply keeps_bind; [apply keeps_in_world|intros ?]).
  intros st r st' [= <- <-]. done.
Qed.

Lemma keeps_setup_vector_store fuel : keeps (setup_vector_store env fuel).
Proof.
  apply keeps_try; [|intros _]; apply keeps_new_vector_store.
Qed.

Lemma keeps_get_embedding text : keeps (get_embedding env text).
Proof. apply keeps_try; [apply keeps_in_world|intros e; apply keeps_raise]. Qed.

Lemma keeps_search_materials fuel query top_k :
  keeps (search_materials env fuel query top_k).
Proof.
  apply keeps_try.
  - apply keeps_bind; [apply keeps_get_embedding|intros ?; apply keeps_on_store].
  - intros e. destruct (is_stale e); [|apply keeps_raise].
    apply keeps_bind; [apply keeps_setup_vector_store|intros _].
    apply keeps_bind; [apply keeps_get_embedding|intros ?; apply keeps_on_store].
Qed.

Lemma response_attempt_cases fuel query st r st' :
  response_attempt env fuel query st = (r, st') ->
  model st'.1 = model st.1 /\
  match r with
  | Ok content =>
      exists relevant pre,
        conversation_history st'.1
          = conversation_history st.1 ++ [{| user := query; assistant := content |}] /\
        trace st'.2 =
          pre ++ [ChatCompletionsCreate (model st.1)
                    (response_messages (context_of relevant)
                       (format_turns (last_n 5 (conversation_history st.1))) query)
                    temperature]
  | _ => conversation_history st'.1 = conversation_history st.1
  end.
Proof.
  unfold response_attempt. unfold mbind at 1, M_bind at 1, bind at 1.
  destruct (search_materials env fuel query 5 st) as [[relevant|e|] st1] eqn:Hs;
    apply keeps_search_materials in Hs as [Hh Hm];
    try (intros [= <- <-]; done).
  destruct st1 as [a1 w1]. simpl in Hh, Hm.
  unfold self, in_world, chat_completions_create, call. run_monad. simpl.
  destruct (fault env _ _).
  - intros [= <- <-]. done.
  - intros [= <- <-]. simpl. split; [exact Hm|].
    exists relevant, (trace w1). rewrite Hh, Hm. done.
Qed.

Lemma generate_response_unfold fuel query st :
  generate_response env fuel query st =
    match response_attempt env fuel query st with
    | (Raise e, st1) =>
        if is_stale e then
          match fuel with
          | O => (OutOfFuel, st1)
          | S fuel' =>
              (setup_vector_store env fuel';; generate_response env fuel' query) st1
          end
        else (Ok (of_string "Error: " ++ text e), st1)
    | r => r
    end.
Proof.
  destruct fuel; simpl; unfold try_except;
    destruct (response_attempt _ _ _ _) as [[c|e|] st1]; try reflexivity;
    destruct (is_stale e); reflexivity.
Qed.

(** One call of [generate_response]: either it appends the turn made of
    the query and the returned reply, the chat request being the last
    call made; or it leaves the history as it is and what it returns, if
    anything, begins with ["Error: "]. *)
Lemma generate_response_cases fuel query :
  forall st r st',
    generate_response env fuel query st = (r, st') ->
    model st'.1 = model st.1 /\
    ((exists content relevant pre,
        r = Ok content /\
        conversation_history st'.1
          = conversation_history st.1 ++ [{| user := query; assistant := content |}] /\
        trace st'.2 =
          pre ++ [ChatCompletionsCreate (model st.1)
                    (response_messages (context_of relevant)
                       (format_turns (last_n 5 (conversation_history st.1))) query)
                    temperature]) \/
     (conversation_history st'.1 = conversation_history st.1 /\
      forall content, r = Ok content -> is_error_reply content = true)).
Proof.
  induction fuel as [|fuel IH]; intros st r st' Hrun;
    rewrite generate_response_unfold in Hrun;
    destruct (response_attempt env _ query st) as [r1 st1] eqn:Hatt;
    apply response_attempt_cases in Hatt as [Hm Hcase];
    destruct r1 as [content|e|].
  1,4: injection Hrun as <- <-; split; [exact Hm|]; left;
       destruct Hcase as (relevant & pre & Hh & Ht); eauto 10.
  2,4: injection Hrun as <- <-; split; [exact Hm|]; right; split; [exact Hcase|];
       discriminate.
  - destruct (is_stale e); injection Hrun as <- <-; (split; [exact Hm|]); right;
      (split; [exact Hcase|]); [discriminate|].
    intros c [= <-]. reflexivity.
  - destruct (is_stale e).
    + unfold mbind, M_bind, bind in Hrun.
      destruct (setup_vector_store env fuel st1) as [[[]|e2|] st2] eqn:Hsetup;
        apply keeps_setup_vector_store in Hsetup as [Hh2 Hm2].
      * apply IH in Hrun as [Hm3 Hcase3]. rewrite Hm2, Hh2, Hm, Hcase in *.
        split; [exact Hm3|exact Hcase3].
      * injection Hrun as <- <-. split; [congruence|]. right.
        split; [congruence|discriminate].
      * injection Hrun as <- <-. split; [congruence|]. right.
        split; [congruence|discriminate].
    + injection Hrun as <- <-. split; [exact Hm|]. right. split; [exact Hcase|].
      intros c [= <-]. reflexivity.
Qed.


(** C9. When the body of [generate_response] fails with anything but
    the stale-connection condition (the embedding request, the search or
    the chat request raising), the call returns the string ["Error: "]
    followed by the message of the exception, and the conversation
    history is what it was before the call. *)
Theorem failed_response_keeps_history fuel query st e st1 :
  response_attempt env fuel query st = (Raise e, st1) ->
  is_stale e = false ->
  generate_response env fuel query st = (Ok (of_string "Error: " ++ text e), st1) /\
  is_error_reply (of_string "Error: " ++ text e) = true /\
  get_conversation_history st1.1 = get_conversation_history st.1.
Proof.
  intros Hatt Hstale. split; [|split].
  - now rewrite generate_response_unfold, Hatt, Hstale.
  - reflexivity.
  - apply response_attempt_cases in Hatt as [_ Hh]. exact Hh.
Qed.

Lemma last_n_app {A} (older recent : list A) n :
  length recent = n -> last_n n (older ++ recent) = recent.
Proof.
  intros <-. unfold last_n. rewrite length_app.
  replace (length older + length recent - length recent)%nat with (length older) by lia.
  apply drop_app_length.
Qed.

(** C6, as the code has it. After a caller has made one
    [generate_response] call per query and none of the replies begins
    with ["Error: "], the history has grown by exactly one turn per call,
    made of the query and the reply, in call order.  The chat request of
    the next call that gets a reply carries, as its conversation part,
    the last five turns of that history and nothing older. *)
Theorem history_records_answered_calls fuel queries :
  forall st replies st',
    ask_all env fuel queries st = (Ok replies, st') ->
    Forall (fun reply => is_error_reply reply = false) replies ->
    length replies = length queries /\
    get_conversation_history st'.1 =
      get_conversation_history st.1
        ++ zip_with (fun q r => {| user := q; assistant := r |}) queries replies /\
    (forall query reply st'',
       generate_response env fuel query st' = (Ok reply, st'') ->
       is_error_reply reply = false ->
       exists relevant pre,
         trace st''.2 =
           pre ++ [ChatCompletionsCreate (model st'.1)
                     (response_messages (context_of relevant)
                        (format_turns (last_n 5 (get_conversation_history st'.1)))
                        query)
                     temperature]) /\
    (forall older recent,
       get_conversation_history st'.1 = older ++ recent ->
       length recent = 5%nat ->
       last_n 5 (get_conversation_history st'.1) = recent).
Proof.
  assert (Hnext : forall st' query reply st'',
             generate_response env fuel query st' = (Ok reply, st'') ->
             is_error_reply reply = false ->
             exists relevant pre,
               trace st''.2 =
                 pre ++ [ChatCompletionsCreate (model st'.1)
                           (response_messages (context_of relevant)
                              (format_turns (last_n 5 (get_conversation_history st'.1)))
                              query)
                           temperature]).
  { intros st' query reply st'' Hrun Hreply.
    apply generate_response_cases in Hrun
      as [_ [(content & relevant & pre & _ & _ & Ht)|[_ Herr]]].
    - now exists relevant, pre.
    - rewrite (Herr reply eq_refl) in Hreply. discriminate. }
  unfold get_conversation_history in *.
  induction queries as [|query rest IH]; intros st replies st' Hrun Hreplies.
  - injection Hrun as <- <-. simpl. rewrite app_nil_r.
    repeat split; try done; eauto.
    intros older recent -> Hlen. now apply last_n_app.
  - simpl in Hrun. unfold mbind, M_bind, bind in Hrun.
    destruct (generate_response env fuel query st) as [[reply|e|] st1] eqn:Hcall;
      try discriminate.
    destruct (ask_all env fuel rest st1) as [[replies'|e|] st2] eqn:Hrest;
      try discriminate.
    injection Hrun as <- <-.
    apply Forall_cons in Hreplies as [Hreply Hreplies].
    apply generate_response_cases in Hcall
      as [_ [(content & relevant & pre & [= <-] & Hh & _)|[_ Herr]]].
    + destruct (IH st1 replies' st2 Hrest Hreplies) as (Hlen & Hhist & _ & _).
      split; [simpl; now rewrite Hlen|]. split.
      * rewrite Hhist, Hh, <- app_assoc. reflexivity.
      * split; [apply Hnext|].
        intros older recent -> Hlen5. now apply last_n_app.
    + rewrite (Herr reply eq_refl) in Hreply. discriminate.
Qed.

(** *** Flashcards and quizzes *)

Lemma strip_fence_defined content : exists stripped, strip_fence content = Some stripped.
Proof.
  unfold strip_fence, contains, split_second.
  destruct (find_nat fence_json content); simpl; [eauto|].
  destruct (find_nat fence content); simpl; eauto.
Qed.

Lemma parse_reply_not_json content stripped st :
  strip_fence content = Some stripped ->
  json_loads env stripped = None ->
  exists e, parse_reply env content st = (Raise e, st) /\ is_json_error e = true.
Proof.
  intros Hs Hl. unfold parse_reply. rewrite Hs, Hl. eexists. split; reflexivity.
Qed.

Lemma generate_flashcards_unfold fuel topic count st :
  generate_flashcards env fuel topic count st =
    match flashcards_attempt env fuel topic count st with
    | (Raise e, st1) =>
        (Ok (flashcards_placeholder
               (if is_json_error e then of_string "Could not generate flashcards."
                else of_string "Error: " ++ text e)), st1)
    | r => r
    end.
Proof.
  unfold generate_flashcards, try_except.
  destruct (flashcards_attempt env fuel topic count st) as [[a|e|] st1];
    try reflexivity.
  destruct (is_json_error e); reflexivity.
Qed.

Lemma generate_quiz_unfold fuel topic num_questions st :
  generate_quiz env fuel topic num_questions st =
    match quiz_attempt env fuel topic num_questions st with
    | (Raise e, st1) =>
        (Ok (quiz_placeholder
               (if is_json_error e then of_string "Could not generate quiz."
                else of_string "Error: " ++ text e)), st1)
    | r => r
    end.
Proof.
  unfold generate_quiz, try_except.
  destruct (quiz_attempt env fuel topic num_questions st) as [[a|e|] st1];
    try reflexivity.
  destruct (is_json_error e); reflexivity.
Qed.

(** C3, as the code has it. [generate_flashcards] and [generate_quiz]
    let no exception out.  Whenever the body fails, and in particular
    when the reply, stripped of its fence (which is always defined), is
    not valid JSON, the result is a one-element placeholder list and the
    state is the one the failure left.  The flashcard placeholder has
    the declared shape [{question, answer}]; the quiz placeholder is
    [{question, options, correct_index, explanation}] with a single
    option, the string ["Error"], and [correct_index] 0. *)
Theorem generation_failures_become_placeholders fuel topic count :
  (forall st r st',
     generate_flashcards env fuel topic count st = (r, st') -> forall e, r <> Raise e) /\
  (forall st r st',
     generate_quiz env fuel topic count st = (r, st') -> forall e, r <> Raise e) /\
  (forall st e st1,
     flashcards_attempt env fuel topic count st = (Raise e, st1) ->
     exists answer item,
       generate_flashcards env fuel topic count st
         = (Ok (flashcards_placeholder answer), st1) /\
       flashcards_placeholder answer = JList [item] /\
       flashcard_shaped item = true) /\
  (forall st e st1,
     quiz_attempt env fuel topic count st = (Raise e, st1) ->
     exists explanation item,
       generate_quiz env fuel topic count st
         = (Ok (quiz_placeholder explanation), st1) /\
       quiz_placeholder explanation = JList [item] /\
       quiz_shaped 1 item = true) /\
  (forall content, exists stripped, strip_fence content = Some stripped) /\
  (forall st content st1 stripped,
     flashcards_reply env fuel topic count st = (Ok content, st1) ->
     strip_fence content = Some stripped ->
     json_loads env stripped = None ->
     generate_flashcards env fuel topic count st
       = (Ok (flashcards_placeholder (of_string "Could not generate flashcards.")),
          st1)) /\
  (forall st content st1 stripped,
     quiz_reply env fuel topic count st = (Ok content, st1) ->
     strip_fence content = Some stripped ->
     json_loads env stripped = None ->
     generate_quiz env fuel topic count st
       = (Ok (quiz_placeholder (of_string "Could not generate quiz.")), st1)).
Proof.
  repeat split.
  - intros st r st'. rewrite generate_flashcards_unfold.
    destruct (flashcards_attempt env fuel topic count st) as [[a|e0|] st1];
      intros [= <- <-]; discriminate.
  - intros st r st'. rewrite generate_quiz_unfold.
    destruct (quiz_attempt env fuel topic count st) as [[a|e0|] st1];
      intros [= <- <-]; discriminate.
  - intros st e st1 Hbody. rewrite generate_flashcards_unfold, Hbody.
    eexists _, _. repeat split.
  - intros st e st1 Hbody. rewrite generate_quiz_unfold, Hbody.
    eexists _, _. repeat split.
  - apply strip_fence_defined.
  - intros st content st1 stripped Hreply Hs Hl.
    rewrite generate_flashcards_unfold. unfold flashcards_attempt, mbind, M_bind, bind.
    rewrite Hreply.
    destruct (parse_reply_not_json content stripped st1 Hs Hl) as (e & -> & ->).
    reflexivity.
  - intros st content st1 stripped Hreply Hs Hl.
    rewrite generate_quiz_unfold. unfold quiz_attempt, mbind, M_bind, bind.
    rewrite Hreply.
    destruct (parse_reply_not_json content stripped st1 Hs Hl) as (e & -> & ->).
    reflexivity.
Qed.

End Frame.

(** *** Concrete runs of the orchestrator *)

Definition is_chat (ev : event) : bool :=
  match ev with ChatCompletionsCreate _ _ _ => true | _ => false end.

(** The chat endpoint always answers [reply]; [json.loads] accepts
    nothing but the empty array. *)
Definition chatty (reply : string) : environment :=
  sample_env (fun _ _ => None) (of_string reply)
    (fun s => if decide (s = of_string "[]") then Some (JList []) else None).

(** Every chat request fails. *)
Definition chat_down : environment :=
  sample_env (fun _ ev => if is_chat ev then Some (other_error "rate limit") else None)
    [] (fun _ => None).

(** An assistant without history whose vector store is the sample
    adapter, connected and set up. *)
Definition fresh_assistant : state :=
  ({| model := of_string "gpt-4o"; conversation_history := [];
      vector_store := Some (ready_state calm).1 |},
   (ready_state calm).2).

Definition two_queries : list pystr := [of_string "What is a cell?"; of_string "And a nucleus?"].

(** C3 fails as stated: on a reply that is not JSON, [generate_quiz]
    returns a placeholder whose [options] hold one string, not four. *)
Lemma quiz_placeholder_has_one_option :
  let run := generate_quiz (chatty "I cannot answer that.") 3 (of_string "cells") 5
               fresh_assistant in
  exists item, run.1 = Ok (JList [item]) /\ quiz_shaped 4 item = false.
Proof. eexists. vm_compute. split; reflexivity. Qed.

Lemma generation_failures_become_placeholders_witness :
  (generate_quiz (chatty "I cannot answer that.") 3 (of_string "cells") 5
     fresh_assistant).1
  = Ok (quiz_placeholder (of_string "Could not generate quiz.")).
Proof.
  destruct (generation_failures_become_placeholders (chatty "I cannot answer that.")
              3 (of_string "cells") 5) as (_ & _ & _ & _ & _ & _ & Hquiz).
  rewrite (Hquiz fresh_assistant (of_string "I cannot answer that.")
             (quiz_reply (chatty "I cannot answer that.") 3 (of_string "cells") 5
                fresh_assistant).2
             (of_string "I cannot answer that.")).
  - reflexivity.
  - vm_compute. reflexivity.
  - reflexivity.
  - reflexivity.
Defined.

(** C6 fails as stated: a call whose chat request fails returns an
    ["Error: ..."] string and appends no turn, so after one call the
    history holds no turn. *)
Lemma failed_call_appends_no_turn :
  let run := ask_all chat_down 3 [of_string "What is a cell?"] fresh_assistant in
  run.1 = Ok [of_string "Error: rate limit"] /\
  get_conversation_history run.2.1 = [].
Proof. vm_compute. split; reflexivity. Qed.

Lemma history_records_answered_calls_witness :
  get_conversation_history
    (ask_all (chatty "A cell is the unit of life.") 3 two_queries fresh_assistant).2.1
  = [ {| user := of_string "What is a cell?";
         assistant := of_string "A cell is the unit of life." |};
      {| user := of_string "And a nucleus?";
         assistant := of_string "A cell is the unit of life." |} ].
Proof.
  destruct (history_records_answered_calls (chatty "A cell is the unit of life.") 3
              two_queries fresh_assistant
              [of_string "A cell is the unit of life.";
               of_string "A cell is the unit of life."]
              (ask_all (chatty "A cell is the unit of life.") 3 two_queries
                 fresh_assistant).2)
    as (_ & Hhist & _).
  - vm_compute. reflexivity.
  - repeat constructor.
  - rewrite Hhist. reflexivity.
Defined.

Lemma failed_response_keeps_history_witness :
  generate_response chat_down 3 (of_string "What is a cell?") fresh_assistant
    = (Ok (of_string "Error: rate limit"),
       (response_attempt chat_down 3 (of_string "What is a cell?") fresh_assistant).2)
  /\
  get_conversation_history
    (response_attempt chat_down 3 (of_string "What is a cell?") fresh_assistant).2.1
  = [].
Proof.
  destruct (failed_response_keeps_history chat_down 3 (of_string "What is a cell?")
              fresh_assistant (other_error "rate limit")
              (response_attempt chat_down 3 (of_string "What is a cell?")
                 fresh_assistant).2)
    as (Hrun & _ & Hhist).
  - vm_compute. reflexivity.
  - reflexivity.
  - split; [exact Hrun|exact Hhist].
Defined.

End Agents.

(** ** More on the chunker: edge cases of [chunk_text] *)

Module ChunkerEdges.
Import PyStr Chunker.


(** *** [rfind] finds an occurrence *)









(** *** Properties *)

(** With [chunk_size = 0] and a non-negative overlap the loop of
    [chunk_text] makes no progress on a non-empty text: it appends empty
    chunks for ever, whatever the iteration budget. *)
Theorem chunk_text_zero_size_never_returns (text : pystr) (overlap : Z) (fuel : nat) :
  text <> [] -> 0 <= overlap ->
  chunk_text fuel text 0 overlap = None.
Proof.
  intros Htext Hov.
  assert (Hlen : 0 < len text).
  { unfold len. destruct text; [done|simpl; lia]. }
  assert (Hrfind : forall sub, 0 < len sub -> rfind text sub 0 0 = -1).
  { intros sub Hsub. unfold rfind. rewrite !norm_index_nonneg by lia.
    rewrite Z.min_l by lia.
    destruct (Z.ltb_spec (0 - 0) (len sub)); [reflexivity|lia]. }
  assert (Hend : chunk_end text 0 0 = 0).
  { unfold chunk_end. replace (Z.min (0 + 0) (len text)) with 0 by lia.
    destruct (Z.ltb_spec 0 (len text)); [|lia].
    unfold boundaries. cbn [find_boundary].
    rewrite !Hrfind by (unfold len; simpl; lia). reflexivity. }
  assert (Hloop : forall chunks, chunk_loop fuel text 0 overlap 0 chunks = None).
  { induction fuel as [|fuel IH]; intros chunks; simpl;
      destruct (Z.ltb_spec 0 (len text)); try lia; [reflexivity|].
    rewrite Hend. unfold next_start.
    destruct (Z.gtb_spec (0 - overlap) 0); [lia|]. apply IH. }
  unfold chunk_text. destruct text; [done|apply Hloop].
Qed.

Lemma chunk_text_zero_size_never_returns_witness :
  chunk_text 50 (of_string "Some text.") 0 100 = None.
Proof.
  apply (chunk_text_zero_size_never_returns (of_string "Some text.") 100 50).
  - discriminate.
  - lia.
Defined.

(** A non-empty text that fits in one window comes back whole as the
    first chunk; when [0 < overlap < len(text)] a second chunk follows,
    made of the last [overlap] characters of the text. *)
Theorem chunk_text_short_text (text : pystr) (chunk_size overlap : Z) (fuel : nat) :
  0 < len text <= chunk_size -> (2 <= fuel)%nat ->
  chunk_text fuel text chunk_size overlap =
    Some (if (0 <? overlap) && (overlap <? len text)
          then [text; slice text (len text - overlap) (len text)]
          else [text]).
Proof.
  intros Hlen Hfuel.
  assert (Hend : forall start, 0 <= start < len text ->
                   chunk_end text chunk_size start = len text).
  { intros start Hs. unfold chunk_end. rewrite Z.min_r by lia.
    destruct (Z.ltb_spec (len text) (len text)); [lia|reflexivity]. }
  assert (Hwhole : slice text 0 (len text) = text).
  { unfold slice. rewrite !norm_index_nonneg by lia.
    rewrite Z.min_l, Z.min_l by lia. simpl. rewrite Z.sub_0_r.
    unfold len. rewrite Nat2Z.id. apply firstn_all. }
  destruct fuel as [|[|fuel]]; try lia.
  unfold chunk_text. destruct text as [|c text]; [unfold len in Hlen; simpl in Hlen; lia|].
  set (t := c :: text) in *.
  unfold chunk_loop at 1. destruct (Z.ltb_spec 0 (len t)); [|lia].
  rewrite Hend by lia. rewrite Hwhole. fold chunk_loop. unfold next_start.
  destruct (Z.ltb_spec 0 overlap) as [Hpos|Hneg];
    destruct (Z.ltb_spec overlap (len t)) as [Hlt|Hge]; simpl.
  - destruct (Z.gtb_spec (len t - overlap) 0); [|lia].
    destruct (Z.ltb_spec (len t - overlap) (len t)); [|lia].
    rewrite Hend by lia.
    destruct (Z.gtb_spec (len t - overlap) (len t - overlap)); [lia|].
    destruct fuel; simpl; destruct (Z.ltb_spec (len t) (len t)); try lia; reflexivity.
  - destruct (Z.gtb_spec (len t - overlap) 0); [lia|].
    destruct (Z.ltb_spec (len t) (len t)); [lia|reflexivity].
  - destruct (Z.gtb_spec (len t - overlap) 0); [|lia].
    destruct (Z.ltb_spec (len t - overlap) (len t)); [lia|reflexivity].
  - lia.
Qed.

Lemma chunk_text_short_text_witness :
  chunk_text 2 (of_string "Short note.") 1000 100 = Some [of_string "Short note."].
Proof.
  apply (chunk_text_short_text (of_string "Short note.") 1000 100 2).
  - unfold len. simpl. lia.
  - lia.
Defined.



End ChunkerEdges.

(** ** More on the orchestrator: the fence around a reply *)

Module Fences.
Import PyStr Py Json Engine VectorStore Agents.

Definition tick : ascii := "`"%char.

(** No backtick occurs in the string. *)
Definition no_tick (s : pystr) : Prop := Forall (fun c => c <> tick) s.

(** A string that begins with a backtick does not occur at the start of
    a string that begins with something else. *)
Lemma starts_with_tick_false sep c s :
  c <> tick -> starts_with (tick :: sep) (c :: s) = false.
Proof.
  intros Hc. cbn [starts_with].
  destruct (Ascii.eqb_spec tick c) as [E|]; [congruence|reflexivity].
Qed.

(** Searching for a separator that begins with a backtick skips a
    prefix without backticks. *)
Lemma find_nat_skip sep (a t : pystr) :
  no_tick a ->
  find_nat (tick :: sep) (a ++ t)
    = (fun i => (length a + i)%nat) <$> find_nat (tick :: sep) t.
Proof.
  intros Ha. induction Ha as [|c a Hc _ IH]; simpl app.
  - now destruct (find_nat _ t).
  - rewrite find_nat_unfold, starts_with_tick_false by exact Hc.
    rewrite IH. now destruct (find_nat _ t).
Qed.

Lemma find_nat_no_tick sep (s : pystr) :
  no_tick s -> find_nat (tick :: sep) s = None.
Proof.
  intros Hs. induction Hs as [|c s Hc _ IH]; [reflexivity|].
  rewrite find_nat_unfold, starts_with_tick_false by exact Hc. now rewrite IH.
Qed.

Lemma find_fence_skip (a t : pystr) :
  no_tick a ->
  find_nat fence (a ++ t) = (fun i => (length a + i)%nat) <$> find_nat fence t.
Proof. exact (find_nat_skip _ a t). Qed.

Lemma find_fence_json_skip (a t : pystr) :
  no_tick a ->
  find_nat fence_json (a ++ t)
    = (fun i => (length a + i)%nat) <$> find_nat fence_json t.
Proof. exact (find_nat_skip _ a t). Qed.

Lemma find_fence_no_tick (s : pystr) : no_tick s -> find_nat fence s = None.
Proof. exact (find_nat_no_tick _ s). Qed.

Lemma find_fence_json_no_tick (s : pystr) :
  no_tick s -> find_nat fence_json s = None.
Proof. exact (find_nat_no_tick _ s). Qed.

Lemma find_fence_at_start (t : pystr) : find_nat fence (fence ++ t) = Some O.
Proof. reflexivity. Qed.

Lemma find_fence_json_at_start (t : pystr) :
  find_nat fence_json (fence_json ++ t) = Some O.
Proof. reflexivity. Qed.

(** After a closing fence and a tail without backticks, the only place
    where ["```json"] can occur is the closing fence itself. *)
Lemma find_fence_json_closing (post : pystr) :
  no_tick post ->
  find_nat fence_json (fence ++ post) = Some O \/
  find_nat fence_json (fence ++ post) = None.
Proof.
  intros Hpost.
  rewrite find_nat_unfold.
  destruct (starts_with fence_json (fence ++ post)); [now left|right].
  change (fence ++ post) with (tick :: tick :: tick :: post).
  cbv iota beta. rewrite find_nat_unfold.
  destruct Hpost as [|c post Hc Hpost]; [reflexivity|].
  assert (H1 : starts_with fence_json (tick :: tick :: c :: post) = false).
  { unfold fence_json. cbn [of_string String.list_ascii_of_string starts_with].
    change (Ascii.eqb "`" tick) with true. cbv iota.
    destruct (Ascii.eqb_spec "`"%char c) as [E|]; [unfold tick in Hc; congruence|reflexivity]. }
  rewrite H1. cbv iota beta. rewrite find_nat_unfold.
  assert (H2 : starts_with fence_json (tick :: c :: post) = false).
  { unfold fence_json. cbn [of_string String.list_ascii_of_string starts_with].
    change (Ascii.eqb "`" tick) with true. cbv iota.
    destruct (Ascii.eqb_spec "`"%char c) as [E|]; [unfold tick in Hc; congruence|reflexivity]. }
  rewrite H2. cbv iota beta.
  rewrite (find_fence_json_no_tick (c :: post)); [reflexivity|now constructor].
Qed.

(** The piece kept from what follows the opening ["```json"]. *)
Lemma split_heads_body (body post : pystr) :
  no_tick body -> no_tick post ->
  split_head (split_head (body ++ fence ++ post) fence_json) fence = body.
Proof.
  intros Hbody Hpost.
  assert (Hclose : split_head (body ++ fence ++ post) fence = body).
  { unfold split_head. rewrite (find_fence_skip body (fence ++ post) Hbody).
    rewrite find_fence_at_start. cbn [fmap option_fmap option_map].
    now rewrite Nat.add_0_r, take_app_length. }
  assert (Hbody' : split_head body fence = body).
  { unfold split_head. now rewrite (find_fence_no_tick body Hbody). }
  unfold split_head at 2.
  rewrite (find_fence_json_skip body (fence ++ post) Hbody).
  destruct (find_fence_json_closing post Hpost) as [-> | ->];
    cbn [fmap option_fmap option_map].
  - now rewrite Nat.add_0_r, take_app_length.
  - exact Hclose.
Qed.

(** The reply of the model carries its JSON in a block fenced by
    ["```json"] and ["```"], with no other backtick around or inside:
    [strip_fence] returns the body of the block, stripped of surrounding
    white space.  A reply without any backtick is returned as it is. *)
Theorem strip_fence_extracts_json_block :
  (forall pre body post,
     no_tick pre -> no_tick body -> no_tick post ->
     strip_fence (pre ++ fence_json ++ body ++ fence ++ post) = Some (strip body)) /\
  (forall content, no_tick content -> strip_fence content = Some content).
Proof.
  split.
  - intros pre body post Hpre Hbody Hpost.
    unfold strip_fence, contains, split_second.
    rewrite (find_fence_json_skip pre _ Hpre), find_fence_json_at_start.
    cbn [fmap option_fmap option_map mbind option_bind].
    rewrite Nat.add_0_r, <- drop_drop, drop_app_length.
    replace (skipn (length fence_json) (fence_json ++ body ++ fence ++ post))
      with (body ++ fence ++ post) by reflexivity.
    now rewrite split_heads_body.
  - intros content Hc. unfold strip_fence, contains.
    now rewrite (find_fence_no_tick content Hc), (find_fence_json_no_tick content Hc).
Qed.

Lemma strip_fence_extracts_json_block_witness :
  strip_fence (of_string "Here you are: ```json
[]
``` Enjoy.") = Some (of_string "[]").
Proof.
  apply (proj1 strip_fence_extracts_json_block
           (of_string "Here you are: ") (of_string "
[]
") (of_string " Enjoy."));
    repeat constructor; discriminate.
Defined.

End Fences.

(** ** More on the adapter: what its methods leave in the engine *)

Module StoreInvariants.
Import PyStr Py Json Engine VectorStore.

(** *** Computations that respect a preorder on states *)

Definition preserves {S A} (R : S -> S -> Prop) (c : M S A) : Prop :=
  forall s r s', c s = (r, s') -> R s s'.

Section Preserves.
Context {S : Type} (R : S -> S -> Prop).
Context (R_refl : forall s, R s s).
Context (R_trans : forall s1 s2 s3, R s1 s2 -> R s2 s3 -> R s1 s3).

Lemma preserves_ret {A} (a : A) : preserves R (mret a).
Proof. intros s r s' [= <- <-]. apply R_refl. Qed.

Lemma preserves_raise {A} e : preserves R (@raise S A e).
Proof. intros s r s' [= <- <-]. apply R_refl. Qed.

Lemma preserves_out_of_fuel {A} : preserves R (@out_of_fuel S A).
Proof. intros s r s' [= <- <-]. apply R_refl. Qed.

Lemma preserves_modify (f : S -> S) :
  (forall s, R s (f s)) -> preserves R (modify f).
Proof. intros Hf s r s' [= <- <-]. apply Hf. Qed.

Lemma preserves_bind {A B} (c : M S A) (k : A -> M S B) :
  preserves R c -> (forall a, preserves R (k a)) -> preserves R (c ≫= k).
Proof.
  intros Hc Hk s r s'. unfold mbind, M_bind, bind.
  destruct (c s) as [[a|e|] s1] eqn:H1.
  - intros H2. eapply R_trans; [eapply Hc, H1|eapply Hk, H2].
  - intros [= <- <-]. eapply Hc, H1.
  - intros [= <- <-]. eapply Hc, H1.
Qed.

Lemma preserves_try {A} (body : M S A) handler :
  preserves R body -> (forall e, preserves R (handler e)) ->
  preserves R (try_except body handler).
Proof.
  intros Hb Hh s r s'. unfold try_except.
  destruct (body s) as [[a|e|] s1] eqn:H1.
  - intros [= <- <-]. eapply Hb, H1.
  - intros H2. eapply R_trans; [eapply Hb, H1|eapply Hh, H2].
  - intros [= <- <-]. eapply Hb, H1.
Qed.

End Preserves.

(** *** Two preorders on the engine *)

(** Every collection of [w] is still there in [w'], with its schema, and
    the rows it held are the first rows of what it holds now; the
    engine's id counter has not gone back. *)
Definition extends (w w' : world) : Prop :=
  next_id w <= next_id w' /\
  forall k c,
    colls w !! k = Some c ->
    exists c' rows,
      colls w' !! k = Some c' /\ c_schema c' = c_schema c /\
      c_entities c' = c_entities c ++ rows.

(** The rows stored under a name at a location; none when there is no
    such collection. *)
Definition rows_at (w : world) (k : pystr * pystr) : list entity :=
  match colls w !! k with
  | Some c => c_entities c
  | None => []
  end.

(** No row has been added, removed or changed, and no id handed out. *)
Definition same_rows (w w' : world) : Prop :=
  next_id w' = next_id w /\ forall k, rows_at w' k = rows_at w k.

(** A preorder on the engine that the calls other than [insert] and
    [drop_collection] respect. *)
Class Gentle (R : world -> world -> Prop) : Prop := {
  gentle_refl : forall w, R w w;
  gentle_trans : forall w1 w2 w3, R w1 w2 -> R w2 w3 -> R w1 w3;
  gentle_event : forall (ev : event) w, R w (record_event ev w);
  gentle_conns : forall f w, R w (set_conns f w);
  gentle_update :
    forall w k c c',
      colls w !! k = Some c -> c_schema c' = c_schema c ->
      c_entities c' = c_entities c ->
      R w (set_colls <[k := c']> w);
  gentle_create :
    forall w k schema,
      colls w !! k = None -> R w (set_colls <[k := new_collection schema]> w) }.

Lemma extends_refl w : extends w w.
Proof.
  split; [lia|]. intros k c Hk. exists c, []. now rewrite app_nil_r.
Qed.

Lemma extends_trans w1 w2 w3 : extends w1 w2 -> extends w2 w3 -> extends w1 w3.
Proof.
  intros [Hn1 H1] [Hn2 H2]. split; [lia|]. intros k c Hk.
  destruct (H1 k c Hk) as (c2 & rows2 & Hk2 & Hs2 & He2).
  destruct (H2 k c2 Hk2) as (c3 & rows3 & Hk3 & Hs3 & He3).
  exists c3, (rows2 ++ rows3). split; [exact Hk3|]. split; [congruence|].
  now rewrite He3, He2, app_assoc.
Qed.

Lemma extends_same_colls w w' :
  colls w' = colls w -> next_id w <= next_id w' -> extends w w'.
Proof.
  intros Hc Hn. split; [exact Hn|]. intros k c Hk. exists c, [].
  now rewrite Hc, app_nil_r.
Qed.

(** Replacing a collection by one that extends it, or putting one where
    there was none. *)
Lemma extends_insert w k c' :
  (forall c, colls w !! k = Some c ->
     c_schema c' = c_schema c /\ exists rows, c_entities c' = c_entities c ++ rows) ->
  extends w (set_colls <[k := c']> w).
Proof.
  intros Hk. split; [simpl; lia|]. intros k0 c0 Hk0. simpl.
  destruct (decide (k0 = k)) as [->|Hne].
  - destruct (Hk c0 Hk0) as (Hs & rows & He). exists c', rows.
    now rewrite lookup_insert_eq.
  - exists c0, []. rewrite lookup_insert_ne by done. now rewrite app_nil_r.
Qed.

#[global] Instance extends_gentle : Gentle extends.
Proof.
  split.
  - apply extends_refl.
  - apply extends_trans.
  - intros ev w. apply extends_same_colls; simpl; [reflexivity|lia].
  - intros f w. apply extends_same_colls; simpl; [reflexivity|lia].
  - intros w k c c' Hk Hs He. apply extends_insert. intros c0 Hc0.
    assert (c0 = c) as -> by congruence. split; [exact Hs|].
    exists []. now rewrite app_nil_r.
  - intros w k schema Hk. apply extends_insert. intros c0 Hc0. congruence.
Qed.

Lemma same_rows_same_colls w w' :
  colls w' = colls w -> next_id w' = next_id w -> same_rows w w'.
Proof.
  intros Hc Hn. split; [exact Hn|]. intros k. unfold rows_at. now rewrite Hc.
Qed.

Lemma same_rows_insert w k c' :
  c_entities c' = rows_at w k -> same_rows w (set_colls <[k := c']> w).
Proof.
  intros He. split; [reflexivity|]. intros k0. unfold rows_at in *. simpl.
  destruct (decide (k0 = k)) as [->|Hne].
  - now rewrite lookup_insert_eq.
  - now rewrite lookup_insert_ne.
Qed.

#[global] Instance same_rows_gentle : Gentle same_rows.
Proof.
  split.
  - intros w. now split.
  - intros w1 w2 w3 [Hn1 H1] [Hn2 H2]. split; [congruence|].
    intros k. now rewrite H2, H1.
  - intros ev w. now apply same_rows_same_colls.
  - intros f w. now apply same_rows_same_colls.
  - intros w k c c' Hk Hs He. apply same_rows_insert. unfold rows_at.
    now rewrite Hk.
  - intros w k schema Hk. apply same_rows_insert. unfold rows_at.
    now rewrite Hk.
Qed.

(** *** The calls of the engine *)

(** [the_collection] reads: it returns what the engine holds. *)
Lemma the_collection_reads name using_ w r w' :
  the_collection name using_ w = (r, w') ->
  w' = w /\ forall uri c, r = Ok (uri, c) -> colls w !! (uri, name) = Some c.
Proof.
  unfold the_collection, connection. run_monad.
  destruct (conns w !! using_) as [uri|]; [|intros [= <- <-]; done].
  destruct (colls w !! (uri, name)) as [c|] eqn:Hc; intros [= <- <-];
    (split; [reflexivity|]); [|done].
  now intros uri' c' [= <- <-].
Qed.

Section Calls.
Context (R : world -> world -> Prop) `{!Gentle R}.
Context (env : environment).

Lemma gentle_call {A} ev (k : M world A) :
  preserves R k -> preserves R (call env ev k).
Proof.
  intros Hk w r w'. unfold call.
  destruct (fault env (trace w) ev).
  - intros [= <- <-]. apply gentle_event.
  - intros Hrun. eapply gentle_trans; [apply (gentle_event ev)|eapply Hk, Hrun].
Qed.

(** A call that rewrites the collection it addresses, keeping its schema
    and rows. *)
Lemma gentle_rewrite name using_ (f : Engine.collection -> Engine.collection) :
  (forall c, c_schema (f c) = c_schema c /\ c_entities (f c) = c_entities c) ->
  preserves R ('(uri, c) ← the_collection name using_;
               modify (set_colls <[(uri, name) := f c]>)).
Proof.
  intros Hf w r w'. unfold mbind, M_bind, bind.
  destruct (the_collection name using_ w) as [[[uri c]|e|] w1] eqn:Hget;
    apply the_collection_reads in Hget as [-> Hget].
  - unfold modify. intros [= <- <-].
    apply (gentle_update w (uri, name) c); [now apply Hget|apply Hf..].
  - intros [= <- <-]. apply gentle_refl.
  - intros [= <- <-]. apply gentle_refl.
Qed.

Lemma gentle_disconnect alias : preserves R (disconnect env alias).
Proof. apply gentle_call, preserves_modify, gentle_conns. Qed.

Lemma gentle_connect alias uri token timeout :
  preserves R (connect env alias uri token timeout).
Proof. apply gentle_call, preserves_modify, gentle_conns. Qed.

Lemma gentle_has_connection alias : preserves R (has_connection alias).
Proof. intros w r w' [= <- <-]. apply gentle_refl. Qed.

Lemma gentle_list_collections using_ : preserves R (list_collections env using_).
Proof.
  apply gentle_call. intros w r w'. unfold connection. run_monad.
  destruct (conns w !! using_); intros [= <- <-]; apply gentle_refl.
Qed.

Lemma gentle_has_collection name using_ :
  preserves R (has_collection env name using_).
Proof.
  apply gentle_call. intros w r w'. unfold connection. run_monad.
  destruct (conns w !! using_); intros [= <- <-]; apply gentle_refl.
Qed.

Lemma gentle_create_collection name schema using_ :
  preserves R (create_collection env name schema using_).
Proof.
  apply gentle_call. intros w r w'. unfold connection. run_monad.
  destruct (conns w !! using_) as [uri|]; [|intros [= <- <-]; apply gentle_refl].
  destruct (colls w !! (uri, name)) as [c|] eqn:Hc; intros [= <- <-];
    [apply gentle_refl|].
  now apply gentle_create.
Qed.

Lemma gentle_get_collection name using_ :
  preserves R (get_collection env name using_).
Proof.
  apply gentle_call. intros w r w'. unfold mbind, M_bind, bind.
  destruct (the_collection name using_ w) as [[[uri c]|e|] w1] eqn:Hget;
    apply the_collection_reads in Hget as [-> _];
    intros [= <- <-]; apply gentle_refl.
Qed.

Lemma gentle_create_index h field_name params :
  preserves R (create_index env h field_name params).
Proof. apply gentle_call, gentle_rewrite. now intros c. Qed.

Lemma gentle_load h : preserves R (load env h).
Proof. apply gentle_call, gentle_rewrite. now intros c. Qed.

Lemma gentle_flush h : preserves R (flush env h).
Proof.
  apply gentle_call. intros w r w'. unfold mbind, M_bind, bind.
  destruct (the_collection h.1 h.2 w) as [[[uri c]|e|] w1] eqn:Hget;
    apply the_collection_reads in Hget as [-> _];
    intros [= <- <-]; apply gentle_refl.
Qed.

Lemma gentle_search h data nprobe limit :
  preserves R (search env h data nprobe limit).
Proof.
  apply gentle_call. intros w r w'. unfold mbind, M_bind, bind.
  destruct (the_collection h.1 h.2 w) as [[[uri c]|e|] w1] eqn:Hget;
    apply the_collection_reads in Hget as [-> _];
    [|intros [= <- <-]; apply gentle_refl..].
  destruct (c_loaded c); intros [= <- <-]; apply gentle_refl.
Qed.

Lemma gentle_sleep seconds : preserves R (sleep seconds).
Proof. apply preserves_modify, gentle_event. Qed.

Lemma gentle_uuid4 : preserves R (uuid4 env).
Proof. intros w r w' [= <- <-]. apply gentle_event. Qed.

Lemma gentle_time : preserves R (time env).
Proof. intros w r w' [= <- <-]. apply gentle_event. Qed.

Lemma gentle_makedirs path : preserves R (makedirs env path).
Proof. apply gentle_call, preserves_ret, gentle_refl. Qed.

Lemma gentle_makedirs_for uri : preserves R (makedirs_for env uri).
Proof. apply gentle_call, preserves_ret, gentle_refl. Qed.

Lemma gentle_cleanup_old_dbs : preserves R (cleanup_old_dbs env).
Proof. apply gentle_call, preserves_ret, gentle_refl. Qed.

Lemma gentle_models_list : preserves R (models_list env).
Proof. apply gentle_call, preserves_ret, gentle_refl. Qed.

Lemma gentle_embeddings_create model input :
  preserves R (embeddings_create env model input).
Proof. apply gentle_call. intros w r w' [= <- <-]. apply gentle_refl. Qed.

Lemma gentle_chat_completions_create model messages temperature :
  preserves R (chat_completions_create env model messages temperature).
Proof. apply gentle_call. intros w r w' [= <- <-]. apply gentle_refl. Qed.

End Calls.


(** *** The methods of the adapter *)

(** A preorder on the engine, seen from the adapter. *)
Definition on_engine (R : world -> world -> Prop) (st st' : state) : Prop :=
  R st.2 st'.2.

Section Methods.
Context (R : world -> world -> Prop) `{!Gentle R}.
Context (env : environment).

Lemma on_engine_refl st : on_engine R st st.
Proof. unfold on_engine. apply gentle_refl. Qed.

Lemma on_engine_trans st1 st2 st3 :
  on_engine R st1 st2 -> on_engine R st2 st3 -> on_engine R st1 st3.
Proof. unfold on_engine. apply gentle_trans. Qed.

Lemma engine_outside {A} (c : M world A) :
  preserves R c -> preserves (on_engine R) (outside c).
Proof.
  intros Hc [s w] r st'. unfold outside, zoom. simpl.
  destruct (c w) as [r1 w1] eqn:Hrun. intros [= <- <-]. eapply Hc, Hrun.
Qed.

Lemma engine_self : preserves (on_engine R) self.
Proof. intros st r st' [= <- <-]. apply on_engine_refl. Qed.

Lemma engine_set_self f : preserves (on_engine R) (set_self f).
Proof. intros st r st' [= <- <-]. unfold on_engine. apply gentle_refl. Qed.

End Methods.

Ltac engine_step R :=
  first
    [ apply (engine_self R)
    | apply (engine_set_self R)
    | apply (engine_outside R)
    | apply (gentle_disconnect R) | apply (gentle_connect R)
    | apply (gentle_has_connection R)
    | apply (gentle_list_collections R) | apply (gentle_has_collection R)
    | apply (gentle_create_collection R) | apply (gentle_get_collection R)
    | apply (gentle_create_index R) | apply (gentle_load R)
    | apply (gentle_flush R) | apply (gentle_search R) | apply (gentle_sleep R)
    | apply (gentle_uuid4 R) | apply (gentle_time R) | apply (gentle_makedirs R)
    | apply (gentle_makedirs_for R) | apply (gentle_cleanup_old_dbs R)
    | apply (gentle_models_list R) | apply (gentle_embeddings_create R)
    | apply (gentle_chat_completions_create R)
    | apply (preserves_ret (on_engine R) (on_engine_refl R))
    | apply (preserves_raise (on_engine R) (on_engine_refl R))
    | apply (preserves_out_of_fuel (on_engine R) (on_engine_refl R))
    | apply (preserves_ret R gentle_refl)
    | apply (preserves_bind (on_engine R) (on_engine_trans R)); [|intros ?]
    | apply (preserves_try (on_engine R) (on_engine_trans R)); [|intros ?]
    | apply (preserves_try R gentle_trans); [|intros ?]
    | apply (preserves_bind R gentle_trans); [|intros ?] ].

Section Adapter.
Context (R : world -> world -> Prop) `{!Gentle R}.
Context (env : environment).

Lemma engine_handle : preserves (on_engine R) handle.
Proof.
  unfold handle. engine_step R; [engine_step R|].
  destruct (VectorStore.collection _); engine_step R.
Qed.

Lemma engine_connect_attempt : preserves (on_engine R) (connect_attempt env).
Proof. unfold connect_attempt. repeat engine_step R. Qed.

Lemma engine_regenerate_uri : preserves (on_engine R) (regenerate_uri env).
Proof. unfold regenerate_uri. repeat engine_step R. Qed.

Lemma engine_connect_loop fuel :
  forall retry_count, preserves (on_engine R) (connect_loop env fuel retry_count).
Proof.
  induction fuel as [|fuel IH]; intros rc; simpl;
    destruct (rc <? max_retries);
    [engine_step R|engine_step R| |engine_step R].
  engine_step R; [apply engine_connect_attempt|].
  engine_step R; [repeat engine_step R|].
  engine_step R; [|apply IH].
  destruct (_ >=? _); [|engine_step R].
  engine_step R; [engine_step R|].
  destruct (session_scoped _); [|engine_step R].
  engine_step R; [apply engine_regenerate_uri|engine_step R].
Qed.

Lemma engine_connect fuel : preserves (on_engine R) (_connect env fuel).
Proof. apply engine_connect_loop. Qed.

Lemma engine_setup_collection fuel :
  preserves (on_engine R) (_setup_collection env fuel).
Proof.
  unfold _setup_collection. engine_step R; [|engine_step R].
  engine_step R; [engine_step R|].
  engine_step R; [repeat engine_step R|].
  engine_step R; [destruct (negb _); [apply engine_connect|engine_step R]|].
  engine_step R; [repeat engine_step R|].
  destruct (negb _); repeat engine_step R.
Qed.

Lemma engine_search_attempt query_embedding top_k :
  preserves (on_engine R) (search_attempt env query_embedding top_k).
Proof.
  unfold search_attempt. engine_step R; [apply engine_handle|].
  repeat engine_step R.
Qed.

Lemma engine_search_vectors fuel :
  forall query_embedding top_k,
    preserves (on_engine R) (search_vectors env fuel query_embedding top_k).
Proof.
  induction fuel as [|fuel IH]; intros query_embedding top_k; simpl;
    (engine_step R; [apply engine_search_attempt|]);
    (destruct (is_stale _); [|engine_step R]); [engine_step R|].
  engine_step R; [apply engine_connect|].
  engine_step R; [apply engine_setup_collection|apply IH].
Qed.

Lemma engine_construct {A} s (body : M state A) :
  preserves (on_engine R) body -> preserves R (VectorStore.construct s body).
Proof.
  intros Hb w r w'. unfold VectorStore.construct.
  destruct (body (s, w)) as [r1 st1] eqn:Hrun. intros [= <- <-].
  apply (Hb _ _ _ Hrun).
Qed.

Lemma engine_init fuel collection_ dimension_ uri_ token_ :
  preserves R (VectorStore.init env fuel collection_ dimension_ uri_ token_).
Proof.
  unfold VectorStore.init.
  apply (preserves_bind R gentle_trans).
  - destruct uri_; repeat engine_step R.
  - intros uri. apply (preserves_bind R gentle_trans); [engine_step R|intros ?].
    apply engine_construct.
    engine_step R; [repeat engine_step R|].
    engine_step R; [destruct (session_scoped _); repeat engine_step R|].
    engine_step R; [apply engine_connect|apply engine_setup_collection].
Qed.

End Adapter.

Section Storing.
Context (env : environment).




End Storing.

End StoreInvariants.

(** ** More on the adapter: connecting, constructing, storing *)

Module StoreLifecycle.
Import PyStr Py Json Engine VectorStore.

(** No call fails once the trace has [n] entries. *)
Definition quiet_from (env : environment) (n : nat) : Prop :=
  forall tr ev, (n <= length tr)%nat -> fault env tr ev = None.

(** The prefix of the message of [_connect]'s own error. *)
Definition failed_to_connect : pystr :=
  of_string "Failed to connect to Milvus after 3 attempts: ".

Lemma set_loaded_loaded c : c_loaded c = true -> set_loaded c = c.
Proof. destruct c; simpl; now intros ->. Qed.

Lemma ensured_loaded dimension existing : c_loaded (ensured dimension existing) = true.
Proof. destruct existing; reflexivity. Qed.

Lemma ensured_rows dimension existing :
  c_entities (ensured dimension existing)
    = match existing with Some c => c_entities c | None => [] end.
Proof. destruct existing; reflexivity. Qed.

Lemma nested_tmp_session_scoped (root name : pystr) :
  session_scoped (path_join (path_join root (of_string "tmp")) (of_string "sa_" ++ name))
    = true.
Proof.
  assert (H : forall a b, contains (of_string "tmp") (a ++ of_string "tmp" ++ b) = true)
    by (intros; apply contains_app).
  unfold session_scoped, path_join.
  replace (startswith (of_string "tmp") (of_string "/")) with false by reflexivity.
  replace (startswith (of_string "sa_" ++ name) (of_string "/")) with false
    by reflexivity.
  destruct (bool_decide (root = []) || starts_with (of_string "/") (rev root)).
  - destruct (bool_decide (root ++ of_string "tmp" = []) || _).
    + rewrite <- app_assoc. now rewrite H.
    + rewrite <- app_assoc. now rewrite H.
  - destruct (bool_decide (root ++ of_string "/" ++ of_string "tmp" = []) || _).
    + replace ((root ++ of_string "/" ++ of_string "tmp") ++ of_string "sa_" ++ name)
        with ((root ++ of_string "/") ++ of_string "tmp" ++ (of_string "sa_" ++ name))
        by (now rewrite <- !app_assoc).
      now rewrite H.
    + replace ((root ++ of_string "/" ++ of_string "tmp")
                 ++ of_string "/" ++ of_string "sa_" ++ name)
        with ((root ++ of_string "/") ++ of_string "tmp"
                ++ (of_string "/" ++ of_string "sa_" ++ name))
        by (now rewrite <- !app_assoc).
      now rewrite H.
Qed.

Lemma default_location_scoped (root unique : pystr) (t : Z) :
  session_scoped (path_join (path_join root (of_string "tmp")) (db_file_name unique t))
    = true.
Proof. apply nested_tmp_session_scoped. Qed.

Section Lifecycle.
Context (env : environment).

(** *** [_connect] *)

(** The location keeps its kind: a location that is not session-scoped
    is never replaced, a session-scoped one only by another. *)
Lemma connect_loop_scope fuel :
  forall retry_count st r st',
    retry_count < max_retries ->
    connect_loop env fuel retry_count st = (r, st') ->
    session_scoped (uri st'.1) = session_scoped (uri st.1) /\
    (session_scoped (uri st.1) = false -> st'.1 = st.1).
Proof.
  induction fuel as [|fuel IH]; intros rc st r st' Hrc Hrun.
  - simpl in Hrun. destruct (Z.ltb_spec rc max_retries); [|lia].
    now injection Hrun as <- <-.
  - rewrite connect_loop_step in Hrun by exact Hrc.
    destruct (connect_attempt env st) as [r1 st1] eqn:Hatt.
    apply connect_attempt_cases in Hatt as (Hs1 & _ & _ & _ & _ & Hr1).
    destruct r1 as [[]|e|]; [| |done].
    + injection Hrun as <- <-. now rewrite Hs1.
    + destruct (Z.geb_spec (rc + 1) max_retries) as [Hge|Hnext].
      * rewrite Hs1 in Hrun.
        destruct (session_scoped (uri st.1)) eqn:Hscope.
        -- destruct (regenerate_uri env (after_sleep st1)) as [r2 st2] eqn:Hreg.
           apply regenerate_uri_cases in Hreg as (Hsc2 & _).
           destruct r2 as [[]|e'|].
           ++ apply IH in Hrun as [Hsc _]; [|unfold max_retries; lia].
              split; [congruence|discriminate].
           ++ injection Hrun as <- <-. split; [exact Hsc2|discriminate].
           ++ injection Hrun as <- <-. split; [exact Hsc2|discriminate].
        -- injection Hrun as <- <-. simpl. rewrite Hs1. now rewrite Hscope.
      * apply IH in Hrun as [Hsc Hfix]; [|exact Hnext]. simpl in Hsc, Hfix.
        rewrite Hs1 in Hsc, Hfix. split; [exact Hsc|].
        intros Hf. now rewrite Hfix.
Qed.

(** The loop at a location that is not session-scoped. *)
Lemma connect_loop_fixed_location fuel :
  forall retry_count st r st',
    0 <= retry_count < max_retries ->
    (Z.to_nat (max_retries - retry_count) <= fuel)%nat ->
    session_scoped (uri st.1) = false ->
    connect_loop env fuel retry_count st = (r, st') ->
    st'.1 = st.1 /\
    exists new,
      trace st'.2 = trace st.2 ++ new /\ regenerations new = 0 /\
      ((r = Ok tt /\ failed_attempts new + retry_count < 3 /\
        conns st'.2 !! connection_alias st.1 = Some (uri st.1)) \/
       (exists last,
          r = Raise (Exn ConnectionNotExistException (failed_to_connect ++ text last)) /\
          failed_attempts new + retry_count = 3)).
Proof.
  unfold max_retries.
  induction fuel as [|fuel IH]; intros rc st r st' Hrc Hfuel Hscope Hrun; [lia|].
  rewrite connect_loop_step in Hrun by (unfold max_retries; lia).
  destruct (connect_attempt env st) as [r1 st1] eqn:Hatt.
  destruct r1 as [[]|e|].
  - injection Hrun as <- <-.
    apply connect_attempt_cases in Hatt as (Hs1 & _ & _ & _ & (new & Htr & Hnew) & Hr1).
    split; [exact Hs1|]. exists new. split; [exact Htr|].
    split; [destruct Hnew as [-> | ->]; reflexivity|]. left.
    split; [reflexivity|]. split; [|exact Hr1].
    destruct Hnew as [-> | ->]; change (failed_attempts _) with 0; lia.
  - pose proof (failed_attempt_trace env _ _ _ Hatt) as (Hs1 & new1 & Ht1 & _ & Hf1 & Hg1).
    destruct (Z.geb_spec (rc + 1) max_retries) as [Hge|Hnext];
      unfold max_retries in *.
    + simpl in Hs1. rewrite Hs1, Hscope in Hrun. injection Hrun as <- <-.
      split; [exact Hs1|]. exists new1. split; [exact Ht1|]. split; [exact Hg1|].
      right. exists e. split; [reflexivity|lia].
    + apply IH in Hrun as (Hs & new2 & Ht2 & Hg2 & Hcase); [|lia|lia|now rewrite Hs1].
      split; [congruence|]. exists (new1 ++ new2).
      rewrite Ht2, Ht1, <- app_assoc. split; [reflexivity|].
      rewrite regenerations_app, failed_attempts_app. split; [lia|].
      rewrite Hs1 in Hcase.
      destruct Hcase as [(-> & Hc & Hl)|(last & -> & Hc)].
      * left. split; [reflexivity|]. split; [lia|exact Hl].
      * right. exists last. split; [reflexivity|lia].
  - apply connect_attempt_cases in Hatt as (_ & _ & _ & _ & _ & []).
Qed.

(** At a location that is not session-scoped, [_connect] makes at most
    three attempts and ends: it returns with the alias connected as soon
    as an attempt succeeds, and raises its connection-failure error,
    carrying the message of the last failure, when all three have failed.
    The adapter is left as it was; the location is not regenerated. *)
Theorem connect_at_fixed_location_makes_three_attempts fuel st r st' :
  session_scoped (uri st.1) = false ->
  (3 <= fuel)%nat ->
  _connect env fuel st = (r, st') ->
  st'.1 = st.1 /\
  exists new,
    trace st'.2 = trace st.2 ++ new /\ regenerations new = 0 /\
    ((r = Ok tt /\ failed_attempts new < 3 /\
      conns st'.2 !! connection_alias st.1 = Some (uri st.1)) \/
     (exists last,
        r = Raise (Exn ConnectionNotExistException (failed_to_connect ++ text last)) /\
        failed_attempts new = 3)).
Proof.
  intros Hscope Hfuel Hrun.
  apply connect_loop_fixed_location in Hrun as (Hs & new & Ht & Hg & Hcase);
    [|unfold max_retries; lia|unfold max_retries; simpl; lia|exact Hscope].
  split; [exact Hs|]. exists new. split; [exact Ht|]. split; [exact Hg|].
  destruct Hcase as [(Hr & Hc & Hl)|(last & Hr & Hc)].
  - left. split; [exact Hr|]. split; [lia|exact Hl].
  - right. exists last. split; [exact Hr|lia].
Qed.

(** One attempt when no call fails. *)
Lemma connect_attempt_quiet st :
  quiet_from env (length (trace st.2)) ->
  connect_attempt env st =
    (Ok tt,
     (st.1,
      {| conns := <[connection_alias st.1 := uri st.1]> (conns st.2);
         colls := colls st.2; next_id := next_id st.2;
         trace := trace st.2 ++
                    [Disconnect (connection_alias st.1);
                     Connect (connection_alias st.1) (uri st.1) (token st.1) 10;
                     ListCollections (connection_alias st.1)] |})).
Proof.
  destruct st as [s w]. intros Hq. simpl in *.
  unfold connect_attempt, outside, disconnect, connect, list_collections, call,
    connection, self, record_event, set_conns.
  run_monad. simpl.
  repeat (rewrite Hq by (rewrite ?length_app; simpl; lia); simpl).
  rewrite lookup_insert_eq. simpl.
  rewrite insert_delete_eq, <- !app_assoc. reflexivity.
Qed.

Lemma connect_quiet fuel st :
  quiet_from env (length (trace st.2)) ->
  _connect env (S fuel) st = connect_attempt env st.
Proof.
  intros Hq. unfold _connect. rewrite connect_loop_step by (unfold max_retries; lia).
  now rewrite (connect_attempt_quiet st Hq).
Qed.

(** *** [_setup_collection] *)

(** On an alias without connection, [_setup_collection] is [_connect]
    followed by [_setup_collection]. *)
Lemma setup_unconnected fuel st :
  conns st.2 !! connection_alias st.1 = None ->
  _setup_collection env fuel st =
    match _connect env fuel st with
    | (Ok _, st1) => _setup_collection env fuel st1
    | (Raise e, st1) => (Raise e, st1)
    | (OutOfFuel, st1) => (OutOfFuel, st1)
    end.
Proof.
  destruct st as [s w]. simpl. intros Hnone.
  destruct (_connect env fuel (s, w)) as [r1 [s1 w1]] eqn:Hc.
  pose proof Hc as Hframe.
  apply connect_loop_frame in Hframe as (Hs1 & _ & _ & _ & Hl1);
    [|unfold max_retries; lia].
  simpl in Hs1, Hl1.
  unfold _setup_collection at 1. unfold try_except at 1.
  unfold mbind at 1, M_bind at 1, bind at 1. unfold self at 1. cbn [fst snd].
  unfold mbind at 1, M_bind at 1, bind at 1.
  unfold outside at 1, has_connection at 1, zoom at 1. run_monad. cbn [fst snd].
  rewrite Hnone.
  replace (bool_decide (is_Some (@None pystr))) with false
    by (symmetry; apply bool_decide_eq_false; intros [? [=]]).
  cbn [negb]. rewrite Hc.
  destruct r1 as [[]|e|]; [|reflexivity|reflexivity].
  specialize (Hl1 eq_refl).
  assert (Ha : connection_alias s1 = connection_alias s) by (now rewrite Hs1).
  assert (Hname : collection_name s1 = collection_name s) by (now rewrite Hs1).
  assert (Hdim : dimension s1 = dimension s) by (now rewrite Hs1).
  unfold _setup_collection, try_except, self, outside, has_connection, zoom.
  run_monad. cbn [fst snd]. rewrite Ha, Hname, Hdim, Hl1.
  replace (bool_decide (is_Some (Some (uri s1)))) with true
    by (symmetry; apply bool_decide_eq_true; eauto).
  reflexivity.
Qed.

(** The adapter's own fields, its location apart, are those it was
    constructed with. *)
Lemma setup_connected_self fuel st r st' u :
  conns st.2 !! connection_alias st.1 = Some u ->
  _setup_collection env fuel st = (r, st') ->
  st'.1 = st.1 \/
  st'.1 = with_collection (collection_name st.1, connection_alias st.1) st.1.
Proof.
  destruct st as [s w]. simpl. intros Hconn.
  unfold _setup_collection, outside, has_connection, has_collection, create_collection,
    get_collection, create_index, load, the_collection, call, connection, set_self, self,
    record_event, set_colls, set_conns.
  run_monad. simpl. rewrite !Hconn. simpl.
  repeat (case_match; simpl in *; simplify_eq); intros; simplify_eq; simpl; auto.
Qed.

(** What a successful [_setup_collection] leaves, whether the alias was
    connected or not. *)
Lemma setup_ensures fuel st st' :
  _setup_collection env fuel st = (Ok tt, st') ->
  st'.1 = with_collection (collection_name st.1, connection_alias st.1)
            (with_uri (uri st'.1) st.1) /\
  next_id st'.2 = next_id st.2 /\
  exists u,
    conns st'.2 !! connection_alias st.1 = Some u /\
    (conns st.2 !! connection_alias st.1 = Some u /\ conns st'.2 = conns st.2 /\
     uri st'.1 = uri st.1 \/
     conns st.2 !! connection_alias st.1 = None /\ u = uri st'.1 /\
     conns st'.2 = <[connection_alias st.1 := u]> (conns st.2)) /\
    colls st'.2 =
      <[(u, collection_name st.1) :=
          ensured (dimension st.1) (colls st.2 !! (u, collection_name st.1))]>
        (colls st.2).
Proof.
  intros Hrun.
  assert (Hconnected : forall st0 u,
            conns st0.2 !! connection_alias st0.1 = Some u ->
            _setup_collection env fuel st0 = (Ok tt, st') ->
            st'.1 = with_collection (collection_name st0.1, connection_alias st0.1)
                      (with_uri (uri st'.1) st0.1) /\
            next_id st'.2 = next_id st0.2 /\ conns st'.2 = conns st0.2 /\
            uri st'.1 = uri st0.1 /\
            colls st'.2 =
              <[(u, collection_name st0.1) :=
                  ensured (dimension st0.1) (colls st0.2 !! (u, collection_name st0.1))]>
                (colls st0.2)).
  { intros st0 u Hu Hrun0.
    pose proof (setup_connected_self _ _ _ _ _ Hu Hrun0) as Hself.
    apply (setup_connected env _ _ _ _ _ Hu) in Hrun0
      as (Hcn & Hn & Huri & _ & _ & _ & Hok).
    destruct (Hok eq_refl) as [Hh Hcolls].
    repeat split; try assumption.
    rewrite Huri, with_uri_id.
    destruct Hself as [Hs|Hs]; [|exact Hs].
    rewrite Hs in Hh |- *. destruct st0.1; simpl in *. now rewrite Hh. }
  destruct (conns st.2 !! connection_alias st.1) as [u|] eqn:Hconn.
  - destruct (Hconnected st u Hconn Hrun) as (Hs & Hn & Hcn & Huri & Hcolls).
    split; [exact Hs|]. split; [exact Hn|]. exists u.
    split; [now rewrite Hcn|]. split; [left; done|exact Hcolls].
  - rewrite (setup_unconnected _ _ Hconn) in Hrun.
    destruct (_connect env fuel st) as [r1 st1] eqn:Hc.
    apply connect_loop_frame in Hc as (Hs1 & Hc1 & Hn1 & Hd1 & Hl1);
      [|unfold max_retries; lia].
    destruct r1 as [[]|e|]; [|discriminate|discriminate].
    specialize (Hl1 eq_refl).
    assert (Ha : connection_alias st1.1 = connection_alias st.1) by (now rewrite Hs1).
    assert (Hname : collection_name st1.1 = collection_name st.1) by (now rewrite Hs1).
    assert (Hdim : dimension st1.1 = dimension st.1) by (now rewrite Hs1).
    destruct (Hconnected st1 (uri st1.1)) as (Hs & Hn & Hcn & Huri & Hcolls);
      [now rewrite Ha|exact Hrun|].
    rewrite Ha, Hname, Hdim, Hc1 in *.
    split; [rewrite Hs, Hs1; reflexivity|]. split; [congruence|].
    exists (uri st1.1). rewrite Hcn. split; [exact Hl1|]. split; [|exact Hcolls].
    right. split; [reflexivity|]. split; [now rewrite Huri|].
    apply (connected_conns st st1); assumption.
Qed.

(** [_setup_collection] when the handle is set and the alias is
    connected to a location whose collection is loaded: nothing changes
    but the trace. *)
Lemma setup_on_loaded fuel st u c r st' :
  collection st.1 = Some (collection_name st.1, connection_alias st.1) ->
  conns st.2 !! connection_alias st.1 = Some u ->
  colls st.2 !! (u, collection_name st.1) = Some c ->
  c_loaded c = true ->
  _setup_collection env fuel st = (r, st') ->
  st'.1 = st.1 /\ conns st'.2 = conns st.2 /\ colls st'.2 = colls st.2 /\
  next_id st'.2 = next_id st.2 /\
  exists new,
    trace st'.2 = trace st.2 ++ new /\
    match r with
    | Ok _ => new = [HasCollection (collection_name st.1) (connection_alias st.1);
                     GetCollection (collection_name st.1) (connection_alias st.1);
                     Load (collection_name st.1) (connection_alias st.1)]
    | Raise _ => new `prefix_of`
                   [HasCollection (collection_name st.1) (connection_alias st.1);
                    GetCollection (collection_name st.1) (connection_alias st.1);
                    Load (collection_name st.1) (connection_alias st.1)]
    | OutOfFuel => False
    end.
Proof.
  destruct st as [s w]. simpl. intros Hh Hconn Hcoll Hloaded.
  assert (Hsame : with_collection (collection_name s, connection_alias s) s = s).
  { destruct s; simpl in *. now rewrite Hh. }
  assert (Hins : <[(u, collection_name s) := set_loaded c]> (colls w) = colls w).
  { rewrite set_loaded_loaded by exact Hloaded. now apply insert_id. }
  unfold _setup_collection, outside, has_connection, has_collection,
    get_collection, load, the_collection, call, connection, set_self, self,
    record_event, set_colls.
  run_monad. simpl. rewrite !Hconn. simpl.
  replace (bool_decide (is_Some (Some u))) with true
    by (symmetry; apply bool_decide_eq_true; eauto).
  simpl.
  destruct (fault env _ _).
  { intros [= <- <-]. simpl. repeat split; try done.
    eexists. split; [reflexivity|]. eexists; reflexivity. }
  simpl. rewrite Hconn. simpl. rewrite Hcoll.
  replace (bool_decide (is_Some (Some c))) with true
    by (symmetry; apply bool_decide_eq_true; eauto).
  simpl.
  destruct (fault env _ _).
  { intros [= <- <-]. simpl. repeat split; try done.
    eexists. rewrite <- app_assoc. split; [reflexivity|]. eexists; reflexivity. }
  simpl. rewrite Hconn. simpl. rewrite Hcoll. simpl.
  destruct (fault env _ _).
  { intros [= <- <-]. simpl. rewrite Hsame. repeat split; try done.
    eexists. rewrite <- !app_assoc. split; [reflexivity|]. exists []; reflexivity. }
  simpl. rewrite Hconn. simpl. rewrite Hcoll. simpl.
  intros [= <- <-]. simpl. rewrite Hsame, Hins. repeat split; try done.
  eexists. rewrite <- !app_assoc. split; reflexivity.
Qed.

(** Once [_setup_collection] has returned, calling it again changes
    neither the adapter nor the engine, whatever the outcome of the second
    call: it looks the collection up, takes a handle and loads it, and
    creates nothing. *)
Theorem setup_collection_is_idempotent fuel fuel' st st1 r st2 :
  _setup_collection env fuel st = (Ok tt, st1) ->
  _setup_collection env fuel' st1 = (r, st2) ->
  st2.1 = st1.1 /\ conns st2.2 = conns st1.2 /\ colls st2.2 = colls st1.2 /\
  next_id st2.2 = next_id st1.2 /\
  exists new,
    let name := collection_name st.1 in
    let alias := connection_alias st.1 in
    trace st2.2 = trace st1.2 ++ new /\
    new `prefix_of` [HasCollection name alias; GetCollection name alias;
                     Load name alias] /\
    (r = Ok tt ->
     new = [HasCollection name alias; GetCollection name alias; Load name alias]) /\
    r <> OutOfFuel.
Proof.
  intros Hfirst Hsecond.
  apply setup_ensures in Hfirst as (Hs1 & _ & u & Hu & _ & Hcolls).
  assert (Ha : connection_alias st1.1 = connection_alias st.1) by (now rewrite Hs1).
  assert (Hname : collection_name st1.1 = collection_name st.1) by (now rewrite Hs1).
  assert (Hh : collection st1.1 = Some (collection_name st.1, connection_alias st.1))
    by (now rewrite Hs1).
  eapply (setup_on_loaded fuel' st1 u) in Hsecond
    as (Hs2 & Hcn2 & Hcl2 & Hn2 & new & Ht & Hnew).
  - rewrite Ha, Hname in Hnew.
    repeat split; try assumption. exists new. simpl.
    split; [exact Ht|].
    destruct r as [[]|e|]; [|split; [exact Hnew|split; [discriminate|discriminate]]|done].
    subst new. split; [done|]. split; [done|discriminate].
  - now rewrite Ha, Hname.
  - now rewrite Ha.
  - rewrite Hname, Hcolls. apply lookup_insert_eq.
  - apply ensured_loaded.
Qed.

(** [_setup_collection] on a connected alias when no call fails. *)
Lemma setup_connected_quiet fuel st u :
  conns st.2 !! connection_alias st.1 = Some u ->
  quiet_from env (length (trace st.2)) ->
  exists st',
    _setup_collection env fuel st = (Ok tt, st') /\
    trace st'.2 =
      trace st.2 ++
        HasCollection (collection_name st.1) (connection_alias st.1) ::
        match colls st.2 !! (u, collection_name st.1) with
        | Some _ =>
            [GetCollection (collection_name st.1) (connection_alias st.1);
             Load (collection_name st.1) (connection_alias st.1)]
        | None =>
            [CreateCollection (collection_name st.1) (fields (dimension st.1))
               (connection_alias st.1);
             CreateIndex (collection_name st.1) (connection_alias st.1)
               (of_string "embedding") index_params;
             Load (collection_name st.1) (connection_alias st.1)]
        end.
Proof.
  destruct st as [s w]. simpl. intros Hconn Hq.
  unfold _setup_collection, outside, has_connection, has_collection, create_collection,
    get_collection, create_index, load, the_collection, call, connection, set_self, self,
    record_event, set_colls.
  run_monad. simpl. rewrite !Hconn. simpl.
  replace (bool_decide (is_Some (Some u))) with true
    by (symmetry; apply bool_decide_eq_true; eauto).
  simpl. rewrite Hq by lia. simpl. rewrite Hconn. simpl.
  destruct (colls w !! (u, collection_name s)) as [c|] eqn:Hcoll.
  - replace (bool_decide (is_Some (Some c))) with true
      by (symmetry; apply bool_decide_eq_true; eauto).
    simpl.
    repeat (rewrite Hq by (rewrite ?length_app; simpl; lia); simpl;
            rewrite ?Hconn; simpl; rewrite ?Hcoll; simpl).
    eexists. split; [reflexivity|]. simpl. now rewrite <- !app_assoc.
  - replace (bool_decide (is_Some (@None Engine.collection))) with false
      by (symmetry; apply bool_decide_eq_false; intros [? [=]]).
    simpl.
    repeat (rewrite Hq by (rewrite ?length_app; simpl; lia); simpl;
            rewrite ?Hconn; simpl; rewrite ?Hcoll, ?lookup_insert_eq; simpl).
    eexists. split; [reflexivity|]. simpl. now rewrite <- !app_assoc.
Qed.

(** A connection followed by a set-up, both successful. *)
Lemma connect_then_setup fuel fuel' st st1 st2 :
  _connect env fuel st = (Ok tt, st1) ->
  _setup_collection env fuel' st1 = (Ok tt, st2) ->
  let served :=
    ensured (dimension st.1) (colls st.2 !! (uri st2.1, collection_name st.1)) in
  st2.1 = with_collection (collection_name st.1, connection_alias st.1)
            (with_uri (uri st2.1) st.1) /\
  serves st2 served /\
  conns st2.2 = <[connection_alias st.1 := uri st2.1]> (conns st.2) /\
  colls st2.2 = <[(uri st2.1, collection_name st.1) := served]> (colls st.2) /\
  next_id st2.2 = next_id st.2 /\
  session_scoped (uri st2.1) = session_scoped (uri st.1) /\
  (session_scoped (uri st.1) = false -> uri st2.1 = uri st.1).
Proof.
  intros Hc Hs.
  assert (H0 : 0 < max_retries) by (unfold max_retries; lia).
  pose proof (connect_loop_scope fuel 0 st (Ok tt) st1 H0 Hc) as [Hscope Hfixed].
  apply connect_loop_frame in Hc as (Hs1 & Hc1 & Hn1 & Hd1 & Hl1);
    [|unfold max_retries; lia].
  specialize (Hl1 eq_refl).
  assert (Ha : connection_alias st1.1 = connection_alias st.1) by (now rewrite Hs1).
  assert (Hname : collection_name st1.1 = collection_name st.1) by (now rewrite Hs1).
  assert (Hdim : dimension st1.1 = dimension st.1) by (now rewrite Hs1).
  apply setup_ensures in Hs as (Hs2 & Hn2 & u & Hu & Hcase & Hcolls).
  assert (Hs2' : st2.1 = with_collection (collection_name st.1, connection_alias st.1)
                           (with_uri (uri st2.1) st.1)).
  { rewrite Ha, Hname in Hs2. rewrite Hs1 in Hs2. exact Hs2. }
  clear Hs2. rename Hs2' into Hs2.
  rewrite Ha, Hname, Hdim in *.
  destruct Hcase as [(Hu1 & Hcn & Huri)|(Hnone & _)]; [|congruence].
  assert (u = uri st2.1) as -> by congruence.
  rewrite Hc1 in Hcolls. simpl.
  split; [exact Hs2|].
  split.
  { assert (Ha2 : connection_alias st2.1 = connection_alias st.1)
      by (rewrite Hs2; reflexivity).
    assert (Hname2 : collection_name st2.1 = collection_name st.1)
      by (rewrite Hs2; reflexivity).
    assert (Hh2 : collection st2.1 = Some (collection_name st.1, connection_alias st.1))
      by (rewrite Hs2; reflexivity).
    unfold serves. cbn [fst snd].
    rewrite Ha2, Hname2, Hh2, Hu, Hcolls, lookup_insert_eq.
    repeat split. apply ensured_loaded. }
  split.
  { rewrite Hcn, Huri. apply (connected_conns st st1); [exact Hd1|exact Hl1]. }
  split; [exact Hcolls|]. split; [congruence|].
  split; [congruence|]. intros Hf. rewrite Huri. now rewrite (Hfixed Hf).
Qed.

(** *** The constructor *)

(** What precedes [_connect] in the constructor touches the trace only. *)
Lemma init_runs fuel collection_ dimension_ uri_ token_ w s w' :
  VectorStore.init env fuel collection_ dimension_ uri_ token_ w = (Ok s, w') ->
  exists s0 w0 st1,
    collection_name s0 = collection_ /\ dimension s0 = dimension_ /\
    token s0 = token_ /\ workspace_root s0 = install_root env /\
    match uri_ with
    | None => session_scoped (uri s0) = true
    | Some u => uri s0 = u
    end /\
    conns w0 = conns w /\ colls w0 = colls w /\ next_id w0 = next_id w /\
    _connect env fuel (s0, w0) = (Ok tt, st1) /\
    _setup_collection env fuel st1 = (Ok tt, (s, w')).
Proof.
  unfold VectorStore.init, VectorStore.construct, outside, uuid4, time, makedirs,
    makedirs_for, cleanup_old_dbs, call, record_event.
  run_monad.
  destruct uri_ as [u|]; simpl.
  - destruct (fault env _ _); [discriminate|]. simpl.
    destruct (session_scoped u); simpl.
    + destruct (fault env _ _); [discriminate|]. simpl.
      destruct (_connect env fuel _) as [[[]|e|] st1] eqn:Hc; try discriminate.
      destruct (_setup_collection env fuel st1) as [[[]|e|] [s2 w2]] eqn:Hs;
        try discriminate.
      intros [= <- <-].
      match type of Hc with _connect _ _ (?s0, ?w0) = _ => exists s0, w0, st1 end.
      repeat split; [..|exact Hc|exact Hs]; reflexivity.
    + destruct (_connect env fuel _) as [[[]|e|] st1] eqn:Hc; try discriminate.
      destruct (_setup_collection env fuel st1) as [[[]|e|] [s2 w2]] eqn:Hs;
        try discriminate.
      intros [= <- <-].
      match type of Hc with _connect _ _ (?s0, ?w0) = _ => exists s0, w0, st1 end.
      repeat split; [..|exact Hc|exact Hs]; reflexivity.
  - destruct (fault env _ _); [discriminate|]. simpl.
    destruct (fault env _ _); [discriminate|]. simpl.
    match goal with |- context [session_scoped ?x] =>
      replace (session_scoped x) with true
        by (symmetry;
            exact (default_location_scoped (install_root env)
                     (uuid4_str env (trace w)) (now env (trace w ++ [Uuid4]))))
    end.
    destruct (fault env _ _); [discriminate|]. simpl.
    destruct (_connect env fuel _) as [[[]|e|] st1] eqn:Hc; try discriminate.
    destruct (_setup_collection env fuel st1) as [[[]|e|] [s2 w2]] eqn:Hs;
      try discriminate.
    intros [= <- <-].
      match type of Hc with _connect _ _ (?s0, ?w0) = _ => exists s0, w0, st1 end.
    repeat split; [..|exact Hc|exact Hs]; try reflexivity.
    exact (default_location_scoped (install_root env)
             (uuid4_str env (trace w)) (now env (trace w ++ [Uuid4]))).
Qed.

(** The state in which the constructor returns. *)
Lemma init_serves fuel collection_ dimension_ uri_ token_
    w s w' :
  VectorStore.init env fuel collection_ dimension_ uri_ token_ w = (Ok s, w') ->
  let served := ensured dimension_ (colls w !! (uri s, collection_)) in
  collection_name s = collection_ /\ dimension s = dimension_ /\ token s = token_ /\
  workspace_root s = install_root env /\
  serves (s, w') served /\
  c_entities served
    = match colls w !! (uri s, collection_) with
      | Some c => c_entities c
      | None => []
      end /\
  conns w' = <[connection_alias s := uri s]> (conns w) /\
  colls w' = <[(uri s, collection_) := served]> (colls w) /\
  next_id w' = next_id w /\
  match uri_ with
  | None => session_scoped (uri s) = true
  | Some u =>
      session_scoped (uri s) = session_scoped u /\
      (session_scoped u = false -> uri s = u)
  end.
Proof.
  intros Hrun.
  apply init_runs in Hrun
    as (s0 & w0 & st1 & Hname & Hdim & Htoken & Hroot & Huri & Hcn & Hcl & Hn & Hc & Hs).
  destruct (connect_then_setup _ _ _ _ _ Hc Hs)
    as (Hself & Hserves & Hconns & Hcolls & Hnext & Hscope & Hfixed).
  simpl in *. rewrite Hname, Hdim, Hcn, Hcl, Hn in *.
  assert (Ha : connection_alias s = connection_alias s0) by (now rewrite Hself).
  split; [now rewrite Hself|]. split; [now rewrite Hself|].
  split; [now rewrite Hself|]. split; [now rewrite Hself|].
  split; [exact Hserves|]. split; [apply ensured_rows|].
  split; [now rewrite Ha|]. split; [exact Hcolls|]. split; [exact Hnext|].
  destruct uri_ as [u|].
  - rewrite Huri in *. split; assumption.
  - congruence.
Qed.


(** When no call fails, the constructor returns, having made these
    calls in this order: the directory of session databases when no
    location is given; the clean-up of old databases; the directory of
    the location when it is session-scoped; one connection attempt; the
    look-up of the collection; and either its creation with index and
    load, or the load of the existing one. *)
Theorem constructor_returns_when_nothing_fails fuel collection_ dimension_ uri_ token_ w :
  quiet_from env (length (trace w)) ->
  (1 <= fuel)%nat ->
  exists s w',
    VectorStore.init env fuel collection_ dimension_ uri_ token_ w = (Ok s, w') /\
    let alias := connection_alias s in
    trace w' =
      trace w ++
        match uri_ with
        | None => [Uuid4; Time;
                   Makedirs (path_join (install_root env) (of_string "tmp"))]
        | Some _ => []
        end ++
        [Uuid4; CleanupOldDbs] ++
        (if session_scoped (uri s) then [MakedirsFor (uri s)] else []) ++
        [Disconnect alias; Connect alias (uri s) token_ 10; ListCollections alias;
         HasCollection collection_ alias] ++
        match colls w !! (uri s, collection_) with
        | Some _ => [GetCollection collection_ alias; Load collection_ alias]
        | None =>
            [CreateCollection collection_ (fields dimension_) alias;
             CreateIndex collection_ alias (of_string "embedding") index_params;
             Load collection_ alias]
        end.
Proof.
  intros Hq Hfuel. destruct fuel as [|fuel]; [lia|].
  assert (Hbody : forall s0 w0 pre,
            trace w0 = trace w ++ pre -> conns w0 = conns w -> colls w0 = colls w ->
            exists st2,
              (_connect env (S fuel);; _setup_collection env (S fuel)) (s0, w0)
                = (Ok tt, st2) /\
              uri st2.1 = uri s0 /\ connection_alias st2.1 = connection_alias s0 /\
              trace st2.2 =
                trace w ++ pre ++
                  [Disconnect (connection_alias s0);
                   Connect (connection_alias s0) (uri s0) (token s0) 10;
                   ListCollections (connection_alias s0);
                   HasCollection (collection_name s0) (connection_alias s0)] ++
                  match colls w !! (uri s0, collection_name s0) with
                  | Some _ =>
                      [GetCollection (collection_name s0) (connection_alias s0);
                       Load (collection_name s0) (connection_alias s0)]
                  | None =>
                      [CreateCollection (collection_name s0) (fields (dimension s0))
                         (connection_alias s0);
                       CreateIndex (collection_name s0) (connection_alias s0)
                         (of_string "embedding") index_params;
                       Load (collection_name s0) (connection_alias s0)]
                  end).
  { intros s0 w0 pre Htr Hcn Hcl.
    assert (Hq0 : quiet_from env (length (trace (s0, w0).2))).
    { intros tr ev Hlen. apply Hq. simpl in Hlen. rewrite Htr, length_app in Hlen. lia. }
    unfold mbind, M_bind, bind.
    rewrite (connect_quiet fuel (s0, w0) Hq0), (connect_attempt_quiet (s0, w0) Hq0).
    simpl.
    match goal with |- context [_setup_collection env _ ?st] => set (st1 := st) end.
    destruct (setup_connected_quiet (S fuel) st1 (uri s0)) as (st2 & Hs & Ht).
    { simpl. apply lookup_insert_eq. }
    { intros tr ev Hlen. apply Hq. simpl in Hlen.
      rewrite Htr, !length_app in Hlen. lia. }
    exists st2. split; [exact Hs|].
    pose proof Hs as Hframe.
    eapply setup_connected in Hframe as (_ & _ & Hu & Ha & _);
      [|simpl; apply lookup_insert_eq].
    split; [exact Hu|]. split; [exact Ha|].
    rewrite Ht. simpl. rewrite Htr, Hcl, <- !app_assoc. reflexivity. }
  unfold VectorStore.init, VectorStore.construct, outside, uuid4, time, makedirs,
    makedirs_for, cleanup_old_dbs, call, record_event.
  run_monad.
  destruct uri_ as [u|]; simpl.
  - rewrite Hq by (simpl; rewrite ?length_app; simpl; lia). simpl.
    destruct (session_scoped u) eqn:Hscope; simpl.
    + rewrite Hq by (simpl; rewrite ?length_app; simpl; lia). simpl.
      match goal with |- context [_connect env _ (?s0, ?w0)] =>
        destruct (Hbody s0 w0 [Uuid4; CleanupOldDbs; MakedirsFor u])
          as ([s2 w2] & Hrun & Hu & Ha & Ht);
          [simpl; now rewrite <- !app_assoc|reflexivity|reflexivity|]
      end.
      unfold mbind, M_bind, bind in Hrun.
      destruct (_connect env (S fuel) _) as [[[]|e|] st1]; try discriminate.
      rewrite Hrun. simpl in *. eexists _, _. split; [reflexivity|].
      simpl. rewrite Ht, Hu, Ha, Hscope. reflexivity.
    + match goal with |- context [_connect env _ (?s0, ?w0)] =>
        destruct (Hbody s0 w0 [Uuid4; CleanupOldDbs])
          as ([s2 w2] & Hrun & Hu & Ha & Ht);
          [simpl; now rewrite <- !app_assoc|reflexivity|reflexivity|]
      end.
      unfold mbind, M_bind, bind in Hrun.
      destruct (_connect env (S fuel) _) as [[[]|e|] st1]; try discriminate.
      rewrite Hrun. simpl in *. eexists _, _. split; [reflexivity|].
      simpl. rewrite Ht, Hu, Ha, Hscope. reflexivity.
  - rewrite Hq by (simpl; rewrite ?length_app; simpl; lia). simpl.
    rewrite Hq by (simpl; rewrite ?length_app; simpl; lia). simpl.
    match goal with |- context [session_scoped ?x] =>
      replace (session_scoped x) with true
        by (symmetry;
            exact (default_location_scoped (install_root env)
                     (uuid4_str env (trace w)) (now env (trace w ++ [Uuid4]))))
    end.
    rewrite Hq by (simpl; rewrite ?length_app; simpl; lia). simpl.
    match goal with |- context [_connect env _ (?s0, ?w0)] =>
      destruct (Hbody s0 w0
                  [Uuid4; Time;
                   Makedirs (path_join (install_root env) (of_string "tmp"));
                   Uuid4; CleanupOldDbs; MakedirsFor (uri s0)])
        as ([s2 w2] & Hrun & Hu & Ha & Ht);
        [simpl; now rewrite <- !app_assoc|reflexivity|reflexivity|]
    end.
    unfold mbind, M_bind, bind in Hrun.
    destruct (_connect env (S fuel) _) as [[[]|e|] st1]; try discriminate.
    rewrite Hrun. simpl in *. eexists _, _. split; [reflexivity|].
    simpl. rewrite Ht, Hu, Ha.
    match goal with |- context [session_scoped ?x] =>
      replace (session_scoped x) with true
        by (symmetry;
            exact (default_location_scoped (install_root env)
                     (uuid4_str env (trace w)) (now env (trace w ++ [Uuid4]))))
    end.
    reflexivity.
Qed.

(** *** [store_vectors] followed by [search_vectors] *)

(** The rows of a batch, as the engine stores them. *)
Definition batch_rows (first_id : Z) (texts : list pystr) (metadata : list json)
    (embeddings : list (list float)) : list entity :=
  make_rows (seqZ first_id (Z.of_nat (length texts))) texts
    (map (json_dumps env) metadata) embeddings.

Lemma serves_after_insert st c rows tr n :
  serves st c ->
  serves (st.1,
          {| conns := conns st.2;
             colls := <[(uri st.1, collection_name st.1) := add_entities rows c]>
                        (colls st.2);
             next_id := n; trace := tr |})
    (add_entities rows c).
Proof.
  intros (Hh & Hconn & Hcoll & Hloaded). unfold serves. simpl.
  rewrite lookup_insert_eq. done.
Qed.

(** On a served collection, a batch that the engine accepts is what a
    following search is run on: the engine's search gets the rows the
    collection held, followed by one row per text of the batch, in
    order, with the ids that [store_vectors] returned. *)
Theorem search_after_store_sees_batch fuel st c texts embeddings metadata
    query_embedding top_k :
  serves st c ->
  length embeddings = length texts ->
  (forall m, metadata = Some m -> length m = length texts) ->
  let name := collection_name st.1 in
  let alias := connection_alias st.1 in
  let metadata_json := map (json_dumps env) (default_metadata texts metadata) in
  let stored := [Insert name alias texts metadata_json embeddings; Flush name alias] in
  let query := Search name alias query_embedding 10 top_k in
  quiet_from env (length (trace st.2)) ->
  exists ids rows st1 st2,
    store_vectors env fuel texts embeddings metadata st = (Ok ids, st1) /\
    search_vectors env fuel query_embedding top_k st1 =
      (Ok (map to_result
             (ann env (trace st.2 ++ stored ++ [query]) (c_entities c ++ rows)
                query_embedding top_k)),
       st2) /\
    map e_id rows = ids /\ map e_text rows = texts /\
    map e_embedding rows = embeddings /\
    trace st2.2 = trace st.2 ++ stored ++ [query].
Proof.
  intros Hserves Hle Hlm name alias metadata_json stored query Hq.
  assert (Hmd : length (default_metadata texts metadata) = length texts).
  { destruct metadata as [m|]; simpl; [now apply Hlm | apply length_replicate]. }
  pose proof (store_attempt_serves env st c texts embeddings
                (default_metadata texts metadata) Hserves Hle Hmd) as Hatt.
  simpl in Hatt. rewrite store_vectors_unfold, Hatt;
    [|apply Hq; lia|apply Hq; rewrite length_app; simpl; lia].
  set (ids := seqZ (next_id st.2) (Z.of_nat (length texts))).
  set (rows := make_rows ids texts metadata_json embeddings).
  assert (Hids : length ids = length texts).
  { unfold ids. rewrite length_seqZ. lia. }
  destruct (make_rows_columns ids texts metadata_json embeddings)
    as (H1 & H2 & _ & H4);
    [exact Hids|unfold metadata_json; now rewrite length_map|exact Hle|].
  eexists ids, rows, _, _. split; [reflexivity|].
  split.
  { rewrite (search_vectors_serves env fuel _ (add_entities rows c));
      [|apply serves_after_insert; exact Hserves
       |apply Hq; simpl; rewrite length_app; simpl; lia].
    simpl. rewrite <- app_assoc. reflexivity. }
  simpl. rewrite <- app_assoc. repeat split; assumption.
Qed.

(** One attempt of [store_vectors] whose insert is accepted and whose
    flush fails: the rows are in the collection. *)
Lemma store_attempt_flush_fails st c texts embeddings metadata e :
  serves st c ->
  length embeddings = length texts ->
  length metadata = length texts ->
  let name := collection_name st.1 in
  let alias := connection_alias st.1 in
  let metadata_json := map (json_dumps env) metadata in
  let ids := seqZ (next_id st.2) (Z.of_nat (length texts)) in
  fault env (trace st.2) (Insert name alias texts metadata_json embeddings) = None ->
  fault env (trace st.2 ++ [Insert name alias texts metadata_json embeddings])
    (Flush name alias) = Some e ->
  store_attempt env texts embeddings metadata st =
    (Raise e,
     (st.1,
      {| conns := conns st.2;
         colls := <[(uri st.1, name) :=
                      add_entities (make_rows ids texts metadata_json embeddings) c]>
                    (colls st.2);
         next_id := next_id st.2 + Z.of_nat (length texts);
         trace := trace st.2 ++ [Insert name alias texts metadata_json embeddings;
                                 Flush name alias] |})).
Proof.
  destruct st as [s w]. intros (Hh & Hconn & Hcoll & _) Hle Hlm. simpl in *.
  intros Hf1 Hf2.
  unfold store_attempt, handle, outside, insert, flush, the_collection, call,
    connection, self, record_event, set_colls, set_next_id.
  run_monad. simpl. rewrite Hh. simpl. rewrite Hf1. simpl. rewrite Hconn. simpl.
  rewrite Hcoll. simpl.
  destruct (decide _) as [_|Hn]; [|rewrite length_map in Hn; tauto].
  simpl. rewrite Hf2. simpl. rewrite <- app_assoc. reflexivity.
Qed.

(** The retry of [store_vectors] is not atomic.  When the engine has
    accepted the insert and then reports a stale connection on the flush,
    and nothing fails afterwards, [store_vectors] reconnects and inserts
    the whole batch a second time: the collection ends with two copies of
    the batch, and the ids returned are those of the second copy. *)
Theorem stale_flush_stores_batch_twice fuel st c texts embeddings metadata e :
  serves st c ->
  length embeddings = length texts ->
  (forall m, metadata = Some m -> length m = length texts) ->
  (2 <= fuel)%nat ->
  let name := collection_name st.1 in
  let alias := connection_alias st.1 in
  let metadata_json := map (json_dumps env) (default_metadata texts metadata) in
  let n := Z.of_nat (length texts) in
  fault env (trace st.2) (Insert name alias texts metadata_json embeddings) = None ->
  fault env (trace st.2 ++ [Insert name alias texts metadata_json embeddings])
    (Flush name alias) = Some e ->
  is_stale e = true ->
  quiet_from env (length (trace st.2) + 2) ->
  exists st',
    store_vectors env fuel texts embeddings metadata st
      = (Ok (seqZ (next_id st.2 + n) n), st') /\
    serves st'
      (add_entities
         (batch_rows (next_id st.2) texts (default_metadata texts metadata) embeddings
            ++ batch_rows (next_id st.2 + n) texts (default_metadata texts metadata)
                 embeddings)
         c) /\
    next_id st'.2 = next_id st.2 + n + n.
Proof.
  intros Hserves Hle Hlm Hfuel name alias metadata_json n Hf1 Hf2 Hstale Hq.
  destruct fuel as [|[|fuel]]; [lia|lia|].
  assert (Hmd : length (default_metadata texts metadata) = length texts).
  { destruct metadata as [m|]; simpl; [now apply Hlm | apply length_replicate]. }
  rewrite store_vectors_unfold,
    (store_attempt_flush_fails st c texts embeddings _ e Hserves Hle Hmd Hf1 Hf2),
    Hstale.
  set (rows1 := make_rows (seqZ (next_id st.2) (Z.of_nat (length texts))) texts
                  (map (json_dumps env) (default_metadata texts metadata)) embeddings).
  match goal with |- context [(_ ;; _) ?x] => set (st1 := x) end.
  assert (Hserves1 : serves st1 (add_entities rows1 c))
    by (apply serves_after_insert; exact Hserves).
  assert (Hq1 : quiet_from env (length (trace st1.2))).
  { intros tr ev Hlen. apply Hq. simpl in Hlen. rewrite length_app in Hlen.
    simpl in Hlen. lia. }
  unfold mbind at 1, M_bind at 1, bind at 1.
  rewrite (connect_quiet fuel st1 Hq1), (connect_attempt_quiet st1 Hq1).
  match goal with |- context [(_ ;; _) ?x] => set (st2 := x) end.
  assert (Hserves2 : serves st2 (add_entities rows1 c)).
  { destruct Hserves1 as (Hh & Hconn & Hcoll & Hloaded).
    unfold serves, st2. cbn [fst snd conns colls]. rewrite lookup_insert_eq. done. }
  unfold mbind at 1, M_bind at 1, bind at 1.
  destruct (_setup_collection env (S fuel) st2) as [r3 st3] eqn:Hsetup.
  assert (Hq2 : quiet_from env (length (trace st2.2))).
  { intros tr ev Hlen. apply Hq1. unfold st2 in Hlen. cbn [snd trace] in Hlen.
    rewrite length_app in Hlen. lia. }
  destruct (setup_connected_quiet (S fuel) st2 (uri st2.1)) as (st3' & Hok & _);
    [apply Hserves2|exact Hq2|].
  rewrite Hok in Hsetup. injection Hsetup as <- <-.
  destruct Hserves2 as (Hh2 & Hconn2 & Hcoll2 & Hloaded2).
  destruct (setup_on_loaded _ _ _ _ _ _ Hh2 Hconn2 Hcoll2 Hloaded2 Hok)
    as (Hs3 & Hcn3 & Hcl3 & Hn3 & new & Ht3 & ->).
  assert (Hserves3 : serves st3' (add_entities rows1 c)).
  { unfold serves. rewrite Hs3, Hcn3, Hcl3. done. }
  assert (Hq3 : quiet_from env (length (trace st3'.2))).
  { intros tr ev Hlen. apply Hq2. rewrite Ht3, length_app in Hlen. lia. }
  assert (Hmd3 : length (default_metadata texts (Some (default_metadata texts metadata)))
                   = length texts) by exact Hmd.
  pose proof (store_attempt_serves env st3' (add_entities rows1 c) texts embeddings
                (default_metadata texts (Some (default_metadata texts metadata)))
                Hserves3 Hle Hmd3) as Hatt.
  simpl in Hatt. rewrite store_vectors_unfold.
  change (default_metadata texts (Some (default_metadata texts metadata)))
    with (default_metadata texts metadata).
  rewrite Hatt; [|apply Hq3; lia|apply Hq3; rewrite length_app; simpl; lia].
  assert (Hn : next_id st3'.2 = next_id st.2 + n) by (rewrite Hn3; reflexivity).
  rewrite Hn. eexists. split; [reflexivity|]. split; [|simpl; reflexivity].
  assert (Hrows : add_entities
                    (batch_rows (next_id st.2) texts (default_metadata texts metadata)
                       embeddings
                     ++ batch_rows (next_id st.2 + n) texts
                          (default_metadata texts metadata) embeddings) c
                  = add_entities
                      (make_rows (seqZ (next_id st.2 + n) (Z.of_nat (length texts)))
                         texts (map (json_dumps env) (default_metadata texts metadata))
                         embeddings)
                      (add_entities rows1 c)).
  { unfold add_entities, batch_rows, rows1. simpl. now rewrite app_assoc. }
  rewrite Hrows. apply serves_after_insert. exact Hserves3.
Qed.

End Lifecycle.

(** *** Concrete runs *)

Definition is_flush (ev : event) : bool :=
  match ev with Flush _ _ => true | _ => false end.

(** The engine reports a stale connection on a flush among the first
    nine calls, and nothing fails otherwise. *)
Definition stale_early_flush : environment :=
  sample_env
    (fun tr ev => if is_flush ev && (length tr <=? 8)%nat then Some stale else None)
    [] (fun _ => None).

Lemma connect_at_fixed_location_makes_three_attempts_witness :
  let run := _connect (reachable_after 2) 3
               (sample_store "http://localhost:19530", empty_world) in
  run.2.1 = sample_store "http://localhost:19530" /\
  exists new, trace run.2.2 = trace empty_world ++ new /\ regenerations new = 0.
Proof.
  intros run.
  destruct (connect_at_fixed_location_makes_three_attempts (reachable_after 2) 3
              (sample_store "http://localhost:19530", empty_world) run.1 run.2)
    as (Hs & new & Ht & Hg & _).
  - reflexivity.
  - lia.
  - unfold run. apply surjective_pairing.
  - split; [exact Hs|]. exists new. split; assumption.
Defined.


Lemma constructor_returns_when_nothing_fails_witness :
  exists s w', VectorStore.init calm 1 (of_string "notes") 8 None None empty_world
                 = (Ok s, w').
Proof.
  destruct (constructor_returns_when_nothing_fails calm 1 (of_string "notes") 8
              None None empty_world) as (s & w' & Hrun & _).
  - intros tr ev _. reflexivity.
  - lia.
  - exists s, w'. exact Hrun.
Defined.

Lemma setup_collection_is_idempotent_witness :
  let first := _setup_collection calm 1 connected_state in
  let second := _setup_collection calm 1 first.2 in
  second.2.1 = first.2.1 /\ colls second.2.2 = colls first.2.2.
Proof.
  intros first second.
  destruct (setup_collection_is_idempotent calm 1 1 connected_state first.2
              second.1 second.2) as (H1 & _ & H2 & _).
  - vm_compute. reflexivity.
  - unfold second. apply surjective_pairing.
  - split; assumption.
Defined.

Lemma search_after_store_sees_batch_witness :
  exists ids st1 results st2,
    store_vectors calm 0 two_texts two_embeddings None (ready_state calm)
      = (Ok ids, st1) /\
    search_vectors calm 0 [1%float; 0%float] 5 st1 = (Ok results, st2).
Proof.
  destruct (search_after_store_sees_batch calm 0 (ready_state calm)
              (ready_collection 1536) two_texts two_embeddings None
              [1%float; 0%float] 5)
    as (ids & rows & st1 & st2 & Hstore & Hsearch & _).
  - unfold serves. repeat split; vm_compute; reflexivity.
  - reflexivity.
  - intros m [=].
  - intros tr ev _. reflexivity.
  - exists ids, st1. eexists _, st2. split; [exact Hstore|exact Hsearch].
Defined.

Lemma stale_flush_stores_batch_twice_witness :
  exists st',
    store_vectors stale_early_flush 2 two_texts two_embeddings None
      (ready_state stale_early_flush) = (Ok [3; 4], st') /\
    next_id st'.2 = 5.
Proof.
  destruct (stale_flush_stores_batch_twice stale_early_flush 2
              (ready_state stale_early_flush) (ready_collection 1536)
              two_texts two_embeddings None stale)
    as (st' & Hrun & _ & Hnext).
  - unfold serves. repeat split; vm_compute; reflexivity.
  - reflexivity.
  - intros m [=].
  - lia.
  - reflexivity.
  - reflexivity.
  - reflexivity.
  - intros tr ev Hlen. change (length (trace (ready_state stale_early_flush).2))
      with 7%nat in Hlen.
    unfold stale_early_flush, sample_env. cbn [fault].
    destruct (Nat.leb_spec (length tr) 8); [lia|]. now rewrite andb_false_r.
  - exists st'. split; [exact Hrun|exact Hnext].
Defined.

End StoreLifecycle.

(** ** More on the orchestrator: the other methods of [StudyAssistant] *)

Module Assistant.
Import PyStr Py Json Engine VectorStore StoreInvariants StoreLifecycle Agents.

(** The double quote. *)
Definition quote : pystr := [ascii_of_nat 34].

(** [temperature=0.2]: the double nearest to 0.2. *)
Definition low_temperature : float := 0x1.999999999999ap-3%float.

Definition summary_prompt (max_length : Z) (text : pystr) : pystr :=
  join nl
    [ [];
      indent ++ of_string "Summarize the following study material clearly, highlighting key concepts.";
      indent ++ of_string "Keep the summary under " ++ str_of_int max_length
        ++ of_string " characters.";
      indent;
      indent ++ of_string "Study material:";
      indent ++ text;
      indent ].

Definition explanation_prompt (concept context : pystr) : pystr :=
  join nl
    [ [];
      indent ++ of_string "Explain " ++ quote ++ concept ++ quote
        ++ of_string " in detail using the study materials.";
      indent ++ of_string "If materials are insufficient, use general knowledge.";
      indent;
      indent ++ of_string "Study materials:";
      indent ++ context;
      indent;
      indent ++ of_string "Explanation should be:";
      indent ++ of_string "1. Clear and understandable";
      indent ++ of_string "2. Include examples";
      indent ++ of_string "3. Break down complex ideas";
      indent ++ of_string "4. Highlight key points";
      indent ].

Definition summary_messages (max_length : Z) (text : pystr) : list (pystr * pystr) :=
  [ (of_string "system",
     of_string "You are a study assistant creating concise summaries.");
    (of_string "user", summary_prompt max_length text) ].

Definition explanation_messages (concept context : pystr) : list (pystr * pystr) :=
  [ (of_string "system",
     of_string "You are a study assistant explaining concepts clearly.");
    (of_string "user", explanation_prompt concept context) ].

(** [metadata or {}], for a [dict] or [None]. *)
Definition meta_or_empty (metadata : option (list (pystr * json))) : json :=
  match metadata with
  | Some (item :: items) => JDict (item :: items)
  | _ => JDict []
  end.

(** [ids[0]] *)
Definition item0 (ids : list Z) : M state Z :=
  match ids with
  | i :: _ => mret i
  | [] => raise (other_error "list index out of range")
  end.

(** The request for the embedding of a text. *)
Definition embedding_request (text : pystr) : event :=
  EmbeddingsCreate (of_string "text-embedding-3-small") text.

Section Methods.
Context (env : environment).

(** The three statements repeated in the [try] and in the
    [except ConnectionNotExistException] of [store_material]. *)
Definition store_once (fuel : nat) (text : pystr)
    (metadata : option (list (pystr * json))) : M state Z :=
  embedding ← get_embedding env text;
  let meta := meta_or_empty metadata in
  ids ← on_store (store_vectors env fuel [text] [embedding] (Some [meta]));
  item0 ids.

Definition store_material (fuel : nat) (text : pystr)
    (metadata : option (list (pystr * json))) : M state Z :=
  try_except (store_once fuel text metadata)
    (fun e =>
       if is_stale e then
         setup_vector_store env fuel;;
         store_once fuel text metadata
       else raise e).

Definition summarize_material (text : pystr) (max_length : Z) : M state pystr :=
  try_except
    (a ← self;
     in_world (chat_completions_create env (model a)
                 (summary_messages max_length text) temperature))
    (fun e => mret (of_string "Error: " ++ Py.text e)).

(** The body of the [try] in [explain_concept]. *)
Definition explanation_attempt (fuel : nat) (concept : pystr) : M state pystr :=
  relevant_materials ← search_materials env fuel concept 5;
  a ← self;
  in_world (chat_completions_create env (model a)
              (explanation_messages concept (context_of relevant_materials))
              low_temperature).

Definition explain_concept (fuel : nat) (concept : pystr) : M state pystr :=
  try_except (explanation_attempt fuel concept)
    (fun e => mret (of_string "Error: " ++ Py.text e)).

End Methods.

(** *** The engine, seen from the assistant *)

Definition in_engine (R : world -> world -> Prop) (st st' : state) : Prop :=
  R st.2 st'.2.

Section Engine.
Context (R : world -> world -> Prop) `{!Gentle R}.
Context (env : environment).

Lemma in_engine_refl st : in_engine R st st.
Proof. unfold in_engine. apply gentle_refl. Qed.

Lemma in_engine_trans st1 st2 st3 :
  in_engine R st1 st2 -> in_engine R st2 st3 -> in_engine R st1 st3.
Proof. unfold in_engine. apply gentle_trans. Qed.

Lemma engine_in_world {A} (c : M world A) :
  preserves R c -> preserves (in_engine R) (in_world c).
Proof.
  intros Hc [a w] r st'. unfold in_world, zoom. simpl.
  destruct (c w) as [r1 w1] eqn:Hrun. intros [= <- <-]. eapply Hc, Hrun.
Qed.

Lemma engine_on_store {A} (c : M VectorStore.state A) :
  preserves (on_engine R) c -> preserves (in_engine R) (on_store c).
Proof.
  intros Hc [a w] r st'. unfold on_store. simpl.
  destruct (vector_store a) as [s|]; [|intros [= <- <-]; apply in_engine_refl].
  destruct (c (s, w)) as [r1 st1] eqn:Hrun. intros [= <- <-].
  apply (Hc _ _ _ Hrun).
Qed.

Lemma engine_assistant_self : preserves (in_engine R) self.
Proof. intros st r st' [= <- <-]. apply in_engine_refl. Qed.

Lemma engine_assistant_update (f : StudyAssistant -> StudyAssistant) :
  preserves (in_engine R) (modify (fun st => (f st.1, st.2))).
Proof. intros st r st' [= <- <-]. unfold in_engine. apply gentle_refl. Qed.

End Engine.

Ltac assistant_step R :=
  first
    [ apply (engine_assistant_self R)
    | apply (engine_assistant_update R)
    | apply (engine_in_world R)
    | apply (engine_on_store R)
    | apply (gentle_uuid4 R) | apply (gentle_time R)
    | apply (gentle_models_list R) | apply (gentle_embeddings_create R)
    | apply (gentle_chat_completions_create R)
    | apply (engine_init R)
    | apply (engine_search_vectors R)
    | apply (preserves_ret (in_engine R) (in_engine_refl R))
    | apply (preserves_raise (in_engine R) (in_engine_refl R))
    | apply (preserves_out_of_fuel (in_engine R) (in_engine_refl R))
    | apply (preserves_bind (in_engine R) (in_engine_trans R)); [|intros ?]
    | apply (preserves_try (in_engine R) (in_engine_trans R)); [|intros ?] ].

Section Gentle.
Context (R : world -> world -> Prop) `{!Gentle R}.
Context (env : environment).

Lemma engine_new_vector_store fuel :
  preserves (in_engine R) (new_vector_store env fuel).
Proof. unfold new_vector_store. repeat assistant_step R. Qed.













End Gentle.

Section Properties.
Context (env : environment).

Lemma item0_keeps ids : keeps (item0 ids).
Proof. destruct ids; [apply keeps_raise|apply keeps_ret]. Qed.

Lemma store_once_keeps fuel text metadata : keeps (store_once env fuel text metadata).
Proof.
  unfold store_once.
  apply keeps_bind; [apply keeps_get_embedding|intros ?].
  apply keeps_bind; [apply keeps_on_store|intros ?]. apply item0_keeps.
Qed.



(** The conversation history and the model name change in
    [generate_response] only: whatever their outcome, the other methods
    leave them as they were. *)
Theorem history_changes_in_generate_response_only fuel :
  keeps (setup_vector_store env fuel) /\
  (forall text metadata, keeps (store_material env fuel text metadata)) /\
  (forall query top_k, keeps (search_materials env fuel query top_k)) /\
  (forall topic count, keeps (generate_flashcards env fuel topic count)) /\
  (forall topic num_questions, keeps (generate_quiz env fuel topic num_questions)) /\
  (forall text max_length, keeps (summarize_material env text max_length)) /\
  (forall concept, keeps (explain_concept env fuel concept)).
Proof.
  assert (Hparse : forall content, keeps (parse_reply env content)).
  { intros content. unfold parse_reply.
    destruct (strip_fence content); [|apply keeps_raise].
    destruct (json_loads env _); [apply keeps_ret|apply keeps_raise]. }
  split; [apply keeps_setup_vector_store|].
  split.
  { intros text metadata. apply keeps_try; [apply store_once_keeps|intros e].
    destruct (is_stale e); [|apply keeps_raise].
    apply keeps_bind; [apply keeps_setup_vector_store|intros _].
    apply store_once_keeps. }
  split; [intros; apply keeps_search_materials|].
  split.
  { intros topic count. apply keeps_try.
    - apply keeps_bind; [|apply Hparse].
      apply keeps_bind; [apply keeps_search_materials|intros ?].
      apply keeps_bind; [intros st r st' [= <- <-]; done|intros ?].
      apply keeps_in_world.
    - intros e. destruct (is_json_error e); apply keeps_ret. }
  split.
  { intros topic count. apply keeps_try.
    - apply keeps_bind; [|apply Hparse].
      apply keeps_bind; [apply keeps_search_materials|intros ?].
      apply keeps_bind; [intros st r st' [= <- <-]; done|intros ?].
      apply keeps_in_world.
    - intros e. destruct (is_json_error e); apply keeps_ret. }
  split.
  { intros text max_length. apply keeps_try; [|intros e; apply keeps_ret].
    apply keeps_bind; [intros st r st' [= <- <-]; done|intros ?].
    apply keeps_in_world. }
  intros concept. apply keeps_try; [|intros e; apply keeps_ret].
  apply keeps_bind; [apply keeps_search_materials|intros ?].
  apply keeps_bind; [intros st r st' [= <- <-]; done|intros ?].
  apply keeps_in_world.
Qed.


(** *** Storing one text *)

Lemma get_embedding_accepted text st :
  fault env (trace st.2) (embedding_request text) = None ->
  get_embedding env text st =
    (Ok (embedding env (trace st.2 ++ [embedding_request text]) text),
     (st.1, record_event (embedding_request text) st.2)).
Proof.
  destruct st as [a w]. simpl. intros Hf.
  unfold get_embedding, try_except, in_world, zoom, embeddings_create, call,
    embedding_request in *.
  run_monad. cbn [fst snd]. now rewrite Hf.
Qed.

Lemma on_store_run {A} (c : M VectorStore.state A) st s :
  vector_store st.1 = Some s ->
  on_store c st = ((c (s, st.2)).1,
                   (with_store (c (s, st.2)).2.1 st.1, (c (s, st.2)).2.2)).
Proof.
  intros Hs. unfold on_store. rewrite Hs. now destruct (c (s, st.2)).
Qed.

Lemma with_store_same a s : vector_store a = Some s -> with_store s a = a.
Proof. destruct a; simpl. now intros ->. Qed.

(** [store_material] when nothing fails. *)
Lemma store_material_accepted fuel st s c text metadata :
  vector_store st.1 = Some s ->
  serves (s, st.2) c ->
  quiet_from env (length (trace st.2)) ->
  let vector := embedding env (trace st.2 ++ [embedding_request text]) text in
  let meta := json_dumps env (meta_or_empty metadata) in
  let row := {| e_id := next_id st.2; e_text := text; e_metadata := meta;
                e_embedding := vector |} in
  exists st',
    store_material env fuel text metadata st = (Ok (next_id st.2), st') /\
    st'.1 = st.1 /\
    serves (s, st'.2) (add_entities [row] c) /\
    next_id st'.2 = next_id st.2 + 1 /\
    trace st'.2 =
      trace st.2 ++
        [embedding_request text;
         Insert (collection_name s) (connection_alias s) [text] [meta] [vector];
         Flush (collection_name s) (connection_alias s)].
Proof.
  intros Hs Hserves Hq vector meta row.
  unfold store_material, try_except, store_once.
  unfold mbind at 1, M_bind at 1, bind at 1.
  rewrite get_embedding_accepted by (apply Hq; lia). fold vector.
  set (st1 := (st.1, record_event (embedding_request text) st.2)).
  assert (Hserves1 : serves (s, st1.2) c).
  { destruct Hserves as (Hh & Hconn & Hcoll & Hloaded). unfold serves. done. }
  unfold mbind at 1, M_bind at 1, bind at 1.
  rewrite (on_store_run _ st1 s Hs), store_vectors_unfold.
  pose proof (store_attempt_serves env (s, st1.2) c [text] [vector]
                [meta_or_empty metadata] Hserves1 eq_refl eq_refl) as Hatt.
  cbn [default_metadata]. simpl in Hatt. simpl.
  rewrite Hatt;
    [|apply Hq; rewrite length_app; simpl; lia
     |apply Hq; rewrite !length_app; simpl; lia].
  simpl. change (Z.of_nat 0 + next_id st.2) with (next_id st.2).
  eexists. split; [reflexivity|]. simpl.
  split; [now apply with_store_same|].
  split.
  { destruct Hserves as (Hh & Hconn & Hcoll & Hloaded). unfold serves. simpl.
    rewrite lookup_insert_eq. done. }
  split; [reflexivity|]. now rewrite <- app_assoc.
Qed.

(** The happy path of [store_material]. On an assistant whose store
    serves a collection, when no call fails, [store_material] asks for one
    embedding, inserts one row made of the text, the serialised metadata
    ([{}] when none or an empty one is given) and the embedding, flushes,
    and returns the id the engine gave to the row. *)
Theorem store_material_adds_one_row fuel st s c text metadata :
  vector_store st.1 = Some s ->
  serves (s, st.2) c ->
  quiet_from env (length (trace st.2)) ->
  let vector := embedding env (trace st.2 ++ [embedding_request text]) text in
  let meta := json_dumps env (meta_or_empty metadata) in
  let row := {| e_id := next_id st.2; e_text := text; e_metadata := meta;
                e_embedding := vector |} in
  exists st',
    store_material env fuel text metadata st = (Ok (next_id st.2), st') /\
    st'.1 = st.1 /\
    serves (s, st'.2) (add_entities [row] c) /\
    next_id st'.2 = next_id st.2 + 1 /\
    trace st'.2 =
      trace st.2 ++
        [embedding_request text;
         Insert (collection_name s) (connection_alias s) [text] [meta] [vector];
         Flush (collection_name s) (connection_alias s)].
Proof. apply store_material_accepted. Qed.

(** *** Summaries and explanations *)

(** [summarize_material] and [explain_concept] let no exception out.
    [summarize_material] always returns: it makes a single chat request,
    changes nothing else, and needs no store.  Whatever makes the body of
    [explain_concept] fail, the stale-connection condition included, what
    is returned is ["Error: "] followed by the message: unlike
    [generate_response], [explain_concept] does not set up a new store and
    try again. *)
Theorem summaries_and_explanations_report_failures fuel :
  (forall text max_length st,
     let request := ChatCompletionsCreate (model st.1)
                      (summary_messages max_length text) temperature in
     exists reply,
       summarize_material env text max_length st
         = (Ok reply, (st.1, record_event request st.2)) /\
       match fault env (trace st.2) request with
       | Some e => reply = of_string "Error: " ++ Py.text e
       | None =>
           reply = completion env (trace st.2 ++ [request])
                     (summary_messages max_length text)
       end) /\
  (forall concept st r st',
     explain_concept env fuel concept st = (r, st') -> forall e, r <> Raise e) /\
  (forall concept st e st1,
     explanation_attempt env fuel concept st = (Raise e, st1) ->
     explain_concept env fuel concept st = (Ok (of_string "Error: " ++ Py.text e), st1) /\
     is_error_reply (of_string "Error: " ++ Py.text e) = true).
Proof.
  split; [|split].
  - intros text max_length [a w]. simpl.
    unfold summarize_material, try_except, in_world, zoom, chat_completions_create,
      call, self.
    run_monad. simpl. destruct (fault env _ _); eexists; split; reflexivity.
  - intros concept st r st'. unfold explain_concept, try_except.
    destruct (explanation_attempt env fuel concept st) as [[reply|e0|] st1];
      intros [= <- <-]; discriminate.
  - intros concept st e st1 Hbody. unfold explain_concept, try_except.
    rewrite Hbody. split; reflexivity.
Qed.

(** *** A new store *)

(** One run of the statements of [setup_vector_store]. *)
Lemma new_vector_store_cases fuel st r st' :
  new_vector_store env fuel st = (r, st') ->
  match r with
  | Ok _ =>
      exists s w0 u,
        conns w0 = conns st.2 /\ colls w0 = colls st.2 /\ next_id w0 = next_id st.2 /\
        session_scoped u = true /\
        VectorStore.init env fuel (of_string "study_materials") 1536 (Some u) None w0
          = (Ok s, st'.2) /\
        st'.1 = with_store s st.1
  | _ => st'.1 = st.1
  end.
Proof.
  destruct st as [a w].
  unfold new_vector_store, in_world, zoom, uuid4, time. run_monad. simpl.
  destruct (VectorStore.init env fuel _ _ _ _ _) as [[s|e|] w1] eqn:Hinit;
    intros [= <- <-]; simpl; try reflexivity.
  match type of Hinit with
  | VectorStore.init _ _ _ _ (Some ?u) _ ?w0 = _ => exists s, w0, u
  end.
  repeat split; [..|exact Hinit]; reflexivity.
Qed.

Lemma new_vector_store_serves fuel st st' :
  new_vector_store env fuel st = (Ok tt, st') ->
  exists s c,
    st'.1 = with_store s st.1 /\
    collection_name s = of_string "study_materials" /\ dimension s = 1536 /\
    token s = None /\ session_scoped (uri s) = true /\
    serves (s, st'.2) c /\
    c_entities c = rows_at st.2 (uri s, collection_name s).
Proof.
  intros Hrun. apply new_vector_store_cases in Hrun
    as (s & w0 & u & Hcn & Hcl & Hn & Hu & Hinit & Hs).
  pose proof (init_serves env _ _ _ _ _ _ _ _ Hinit)
    as (Hname & Hdim & Htoken & _ & Hserves & Hrows & _ & _ & _ & Hscope & _).
  exists s, (ensured 1536 (colls w0 !! (uri s, of_string "study_materials"))).
  split; [exact Hs|]. split; [exact Hname|]. split; [exact Hdim|].
  split; [exact Htoken|]. split; [congruence|]. split; [exact Hserves|].
  rewrite Hrows, Hname, Hcl. reflexivity.
Qed.

Lemma setup_vector_store_serves fuel st st' :
  setup_vector_store env fuel st = (Ok tt, st') ->
  exists s c,
    st'.1 = with_store s st.1 /\
    collection_name s = of_string "study_materials" /\ dimension s = 1536 /\
    token s = None /\ session_scoped (uri s) = true /\
    serves (s, st'.2) c /\
    c_entities c = rows_at st.2 (uri s, collection_name s).
Proof.
  unfold setup_vector_store, try_except.
  destruct (new_vector_store env fuel st) as [[[]|e|] st1] eqn:Hfirst.
  - intros [= <-]. exact (new_vector_store_serves fuel st st1 Hfirst).
  - intros Hsecond.
    pose proof (engine_new_vector_store same_rows env fuel _ _ _ Hfirst) as [_ Hsame].
    apply new_vector_store_cases in Hfirst. simpl in Hfirst.
    cbv beta in Hsecond.
    apply new_vector_store_serves in Hsecond
      as (s & c & Hs & Hname & Hdim & Htoken & Hscope & Hserves & Hrows).
    exists s, c. rewrite Hfirst in Hs. rewrite Hsame in Hrows.
    split; [exact Hs|]. split; [exact Hname|]. split; [exact Hdim|].
    split; [exact Htoken|]. split; [exact Hscope|]. split; [exact Hserves|exact Hrows].
  - discriminate.
Qed.


(** After [setup_vector_store], when no call fails, a search runs on the
    rows at the location of the new store: those that location held under
    the name before the set-up, and so none at all when the location is
    new.  What the assistant had stored at the location of its previous
    store is not searched. *)
Theorem search_after_setup_uses_new_store fuel st st' query top_k :
  setup_vector_store env fuel st = (Ok tt, st') ->
  quiet_from env (length (trace st'.2)) ->
  exists s results st'',
    vector_store st'.1 = Some s /\
    search_materials env fuel query top_k st' = (Ok results, st'') /\
    let vector := embedding env (trace st'.2 ++ [embedding_request query]) query in
    let request := Search (collection_name s) (connection_alias s) vector 10 top_k in
    results =
      map to_result
        (ann env (trace st'.2 ++ [embedding_request query; request])
           (rows_at st.2 (uri s, collection_name s)) vector top_k).
Proof.
  intros Hsetup Hq.
  apply setup_vector_store_serves in Hsetup
    as (s & c & Hs & _ & _ & _ & _ & Hserves & Hrows).
  assert (Hvs : vector_store st'.1 = Some s) by (now rewrite Hs).
  exists s.
  unfold search_materials, try_except.
  unfold mbind at 1, M_bind at 1, bind at 1.
  rewrite get_embedding_accepted by (apply Hq; lia).
  set (vector := embedding env (trace st'.2 ++ [embedding_request query]) query).
  set (st1 := (st'.1, record_event (embedding_request query) st'.2)).
  assert (Hserves1 : serves (s, st1.2) c).
  { destruct Hserves as (Hh & Hconn & Hcoll & Hloaded). unfold serves. done. }
  rewrite (on_store_run _ st1 s Hvs).
  rewrite (search_vectors_serves env fuel (s, st1.2) c vector top_k Hserves1)
    by (apply Hq; simpl; rewrite length_app; simpl; lia).
  simpl. eexists _, _. split; [exact Hvs|]. split; [reflexivity|].
  simpl. now rewrite Hrows, <- app_assoc.
Qed.

(** *** The constructor *)


(** *** What [generate_response] lets out, what the generators return *)

(** [generate_response] turns every failure of its body into a reply,
    but not the failures of its own reconnection clause: an exception
    that escapes from [generate_response] was raised by the construction
    of a new store in [setup_vector_store], after a first construction
    had failed as well. *)
Theorem generate_response_raises_from_setup_only fuel :
  forall query st e st',
    generate_response env fuel query st = (Raise e, st') ->
    exists fuel' st0 st1 e0,
      new_vector_store env fuel' st0 = (Raise e0, st1) /\
      new_vector_store env fuel' st1 = (Raise e, st').
Proof.
  induction fuel as [|fuel IH]; intros query st e st' Hrun;
    rewrite generate_response_unfold in Hrun;
    destruct (response_attempt env _ query st) as [[content|e1|] st1];
    try discriminate;
    destruct (is_stale e1); try discriminate.
  unfold mbind, M_bind, bind in Hrun.
  destruct (setup_vector_store env fuel st1) as [[[]|e2|] st2] eqn:Hsetup;
    try discriminate.
  - now apply IH in Hrun.
  - injection Hrun as <- <-.
    unfold setup_vector_store, try_except in Hsetup.
    destruct (new_vector_store env fuel st1) as [[[]|e0|] st1'] eqn:Hfirst;
      try discriminate.
    now exists fuel, st1, st1', e0.
Qed.

(** [generate_flashcards] and [generate_quiz] return what [json.loads]
    makes of the reply, whatever it is: neither the kind of JSON value,
    nor the number of items, nor their fields are checked against what
    was asked for. *)
Theorem generated_items_are_returned_unchecked fuel topic count :
  (forall st content st1 stripped v,
     flashcards_reply env fuel topic count st = (Ok content, st1) ->
     strip_fence content = Some stripped ->
     json_loads env stripped = Some v ->
     generate_flashcards env fuel topic count st = (Ok v, st1)) /\
  (forall st content st1 stripped v,
     quiz_reply env fuel topic count st = (Ok content, st1) ->
     strip_fence content = Some stripped ->
     json_loads env stripped = Some v ->
     generate_quiz env fuel topic count st = (Ok v, st1)).
Proof.
  split; intros st content st1 stripped v Hreply Hs Hl.
  - rewrite generate_flashcards_unfold.
    unfold flashcards_attempt, mbind, M_bind, bind. rewrite Hreply.
    unfold parse_reply. now rewrite Hs, Hl.
  - rewrite generate_quiz_unfold.
    unfold quiz_attempt, mbind, M_bind, bind. rewrite Hreply.
    unfold parse_reply. now rewrite Hs, Hl.
Qed.

End Properties.

(** *** Concrete runs *)

Lemma store_material_adds_one_row_witness :
  exists st',
    store_material calm 0 (of_string "Cells divide.") None fresh_assistant
      = (Ok 1, st') /\
    next_id st'.2 = 2.
Proof.
  destruct (store_material_adds_one_row calm 0 fresh_assistant (ready_state calm).1
              (ready_collection 1536) (of_string "Cells divide.") None)
    as (st' & Hrun & _ & _ & Hn & _).
  - reflexivity.
  - unfold serves. repeat split; vm_compute; reflexivity.
  - intros tr ev _. reflexivity.
  - exists st'. split; [exact Hrun|exact Hn].
Defined.


Lemma search_after_setup_uses_new_store_witness :
  let st' := (setup_vector_store calm 1 fresh_assistant).2 in
  exists results st'',
    search_materials calm 1 (of_string "cells") 5 st' = (Ok results, st'').
Proof.
  intros st'.
  destruct (search_after_setup_uses_new_store calm 1 fresh_assistant st'
              (of_string "cells") 5) as (s & results & st'' & _ & Hrun & _).
  - transitivity ((setup_vector_store calm 1 fresh_assistant).1, st');
      [apply surjective_pairing|].
    f_equal; vm_compute; reflexivity.
  - intros tr ev _. reflexivity.
  - exists results, st''. exact Hrun.
Defined.

Definition is_cleanup (ev : event) : bool :=
  match ev with CleanupOldDbs => true | _ => false end.

(** Every embedding request reports a stale connection, and the
    clean-up of old databases fails from its second run on. *)
Definition stale_embeddings : environment :=
  sample_env
    (fun tr ev =>
       match ev with
       | EmbeddingsCreate _ _ => Some stale
       | CleanupOldDbs =>
           if (1 <=? calls is_cleanup tr)%nat
           then Some (other_error "permission denied") else None
       | _ => None
       end)
    [] (fun _ => None).

Lemma generate_response_raises_from_setup_only_witness :
  let run := generate_response stale_embeddings 3 (of_string "What is a cell?")
               fresh_assistant in
  run.1 = Raise (other_error "permission denied") /\
  exists fuel' st0 st1 e0,
    new_vector_store stale_embeddings fuel' st0 = (Raise e0, st1) /\
    new_vector_store stale_embeddings fuel' st1
      = (Raise (other_error "permission denied"), run.2).
Proof.
  intros run.
  assert (Hrun : run.1 = Raise (other_error "permission denied"))
    by (vm_compute; reflexivity).
  split; [exact Hrun|].
  apply (generate_response_raises_from_setup_only stale_embeddings 3
           (of_string "What is a cell?") fresh_assistant).
  rewrite <- Hrun. apply surjective_pairing.
Defined.

Lemma generated_items_are_returned_unchecked_witness :
  (generate_flashcards (chatty "[]") 3 (of_string "cells") 5 fresh_assistant).1
  = Ok (JList []).
Proof.
  destruct (generated_items_are_returned_unchecked (chatty "[]") 3 (of_string "cells") 5)
    as [Hcards _].
  rewrite (Hcards fresh_assistant (of_string "[]")
             (flashcards_reply (chatty "[]") 3 (of_string "cells") 5 fresh_assistant).2
             (of_string "[]") (JList [])).
  - reflexivity.
  - vm_compute. reflexivity.
  - reflexivity.
  - reflexivity.
Defined.

End Assistant.

(** ** [app.py]: the session around the assistant *)

Module App.
Import PyStr Py Json Engine VectorStore StoreInvariants StoreLifecycle Agents Assistant.

(** What the page shows: [st.success], [st.error], [st.info],
    [st.warning], [st.spinner] and the value of the progress bar, as the
    fraction it is computed from. *)
Inductive message :=
| ShowSuccess (body : pystr)
| ShowError (body : pystr)
| ShowInfo (body : pystr)
| ShowWarning (body : pystr)
| ShowSpinner (body : pystr)
| ShowProgress (numerator denominator : Z).

(** An entry of [materials_processed]: [{"name": ..., "chunks": ...}]. *)
Record processed := { p_name : pystr; p_chunks : Z }.

(** What reading an uploaded file gives: the text of its pages, or the
    exception of the reader. *)
Inductive pdf :=
| Pages (texts : list pystr)
| Unreadable (e : exn).

Record uploaded := { file_name : pystr; file_size : Z; file_pages : pdf }.

(** [st.session_state], with what the page has shown. *)
Record session := {
  api_key : pystr;
  api_key_valid : bool;
  the_assistant : option StudyAssistant;
  materials_processed : gmap pystr processed;
  chat_history : list turn;
  shown : list message }.

Definition state : Type := session * world.

Definition set_api_key (k : pystr) (s : session) : session :=
  {| api_key := k; api_key_valid := api_key_valid s; the_assistant := the_assistant s;
     materials_processed := materials_processed s; chat_history := chat_history s;
     shown := shown s |}.

Definition set_api_key_valid (b : bool) (s : session) : session :=
  {| api_key := api_key s; api_key_valid := b; the_assistant := the_assistant s;
     materials_processed := materials_processed s; chat_history := chat_history s;
     shown := shown s |}.

Definition set_assistant (a : StudyAssistant) (s : session) : session :=
  {| api_key := api_key s; api_key_valid := api_key_valid s; the_assistant := Some a;
     materials_processed := materials_processed s; chat_history := chat_history s;
     shown := shown s |}.

Definition set_materials_processed (m : gmap pystr processed) (s : session) : session :=
  {| api_key := api_key s; api_key_valid := api_key_valid s;
     the_assistant := the_assistant s;
     materials_processed := m; chat_history := chat_history s; shown := shown s |}.

Definition set_chat_history (h : list turn) (s : session) : session :=
  {| api_key := api_key s; api_key_valid := api_key_valid s;
     the_assistant := the_assistant s;
     materials_processed := materials_processed s; chat_history := h;
     shown := shown s |}.

Definition add_shown (m : message) (s : session) : session :=
  {| api_key := api_key s; api_key_valid := api_key_valid s;
     the_assistant := the_assistant s;
     materials_processed := materials_processed s; chat_history := chat_history s;
     shown := shown s ++ [m] |}.

(** An update of the session state. *)
Definition update (f : session -> session) : M state unit :=
  modify (fun st => (f st.1, st.2)).

Definition show (m : message) : M state unit := update (add_shown m).

Definition session_state : M state session := fun st => (Ok st.1, st).

Definition in_world {A} (c : M world A) : M state A :=
  zoom snd (fun w st => (st.1, w)) c.

(** A method call on [assistant]; an [AttributeError] while it is
    [None]. *)
Definition on_assistant {A} (attribute : string) (c : M Agents.state A) : M state A :=
  fun st =>
    match the_assistant st.1 with
    | Some a =>
        let '(r, st') := c (a, st.2) in (r, (set_assistant st'.1 st.1, st'.2))
    | None =>
        (Raise (Exn OtherException
                  (of_string "'NoneType' object has no attribute '"
                     ++ of_string attribute ++ of_string "'")), st)
    end.

(** [f"{pdf_file.name}_{pdf_file.size}"] *)
Definition file_id (pdf_file : uploaded) : pystr :=
  file_name pdf_file ++ of_string "_" ++ str_of_int (file_size pdf_file).

(** The text of [extract_text_from_pdf]: every page followed by a blank
    line. *)
Definition text_of_pages (texts : list pystr) : pystr :=
  foldl (fun text page => text ++ page ++ nl ++ nl) [] texts.

(** The metadata of the chunk of index [i] among [total]. *)
Definition chunk_metadata (source : pystr) (i total : Z) : list (pystr * json) :=
  [ (of_string "source", JStr source);
    (of_string "chunk", JInt i);
    (of_string "total_chunks", JInt total) ].

(** [f"{name} ({chunks} chunks)"] *)
Definition chunks_line (name : pystr) (chunks : Z) : pystr :=
  name ++ of_string " (" ++ str_of_int chunks ++ of_string " chunks)".

(** [len(chunks)] *)
Definition count (chunks : list pystr) : Z := Z.of_nat (length chunks).

Definition turn_of (query reply : pystr) : turn :=
  {| user := query; Agents.assistant := reply |}.

Section Page.
Context (env : environment).

(** [validate_api_key] *)
Definition validate_api_key : M world bool :=
  try_except (models_list env;; mret true) (fun _ => mret false).

(** The body of [if submitted:] in [show_api_key_popup].  The process
    environment, in which the key is also put, is not part of the state;
    the final [st.rerun()] ends the run of the script. *)
Definition submit_api_key (fuel : nat) (key : pystr) : M state unit :=
  match key with
  | [] => show (ShowError (of_string "Please enter an API key."))
  | _ =>
      valid ← in_world validate_api_key;
      if (valid : bool) then
        update (set_api_key key);;
        update (set_api_key_valid true);;
        a ← in_world (Agents.init env fuel);
        update (set_assistant a);;
        show (ShowSuccess (of_string "API key validated. Loading..."));;
        in_world (sleep 1)
      else show (ShowError (of_string "Invalid API key. Please try again."))
  end.

(** [extract_text_from_pdf] *)
Definition extract_text_from_pdf (pdf_file : uploaded) : M state pystr :=
  match file_pages pdf_file with
  | Pages texts => mret (text_of_pages texts)
  | Unreadable e => raise e
  end.

(** [chunk_text(text)], with the default size and overlap. *)
Definition chunk (fuel : nat) (text : pystr) : M state (list pystr) :=
  match Chunker.chunk_text fuel text 1000 100 with
  | Some chunks => mret chunks
  | None => out_of_fuel
  end.

(** The [for i, chunk in enumerate(chunks)] loop of the upload, from
    index [i]. *)
Fixpoint store_chunks (fuel : nat) (source : pystr) (total i : Z)
    (chunks : list pystr) : M state unit :=
  match chunks with
  | [] => mret tt
  | c :: rest =>
      on_assistant "store_material"
        (store_material env fuel c (Some (chunk_metadata source i total)));;
      show (ShowProgress (i + 1) total);;
      store_chunks fuel source total (i + 1) rest
  end.

(** The body of the [try] of the upload. *)
Definition ingest (fuel : nat) (pdf_file : uploaded) : M state unit :=
  text ← extract_text_from_pdf pdf_file;
  chunks ← chunk fuel text;
  show (ShowProgress 0 1);;
  store_chunks fuel (file_name pdf_file) (count chunks) 0 chunks;;
  update (fun s =>
            set_materials_processed
              (<[file_id pdf_file :=
                   {| p_name := file_name pdf_file; p_chunks := count chunks |}]>
                 (materials_processed s)) s);;
  show (ShowSuccess (chunks_line (file_name pdf_file) (count chunks))).

(** One iteration of [for pdf_file in uploaded_files]. *)
Definition process_file (fuel : nat) (pdf_file : uploaded) : M state unit :=
  s ← session_state;
  match materials_processed s !! file_id pdf_file with
  | None =>
      show (ShowSpinner (of_string "Processing " ++ file_name pdf_file
                           ++ of_string "..."));;
      try_except (ingest fuel pdf_file)
        (fun e => show (ShowError (of_string "Error processing " ++ file_name pdf_file
                                     ++ of_string ": " ++ text e)))
  | Some entry => show (ShowInfo (chunks_line (p_name entry) (p_chunks entry)))
  end.

Fixpoint process_uploads (fuel : nat) (uploaded_files : list uploaded) : M state unit :=
  match uploaded_files with
  | [] => mret tt
  | pdf_file :: rest => process_file fuel pdf_file;; process_uploads fuel rest
  end.

(** [clear_chat] *)
Definition clear_chat : M state unit := update (set_chat_history []).


(** The body of [if submitted:] in [render_chat]; [st.rerun()] ends the
    run of the script. *)
Definition submit_chat (fuel : nat) (user_input : pystr) : M state unit :=
  match user_input with
  | [] => show (ShowWarning (of_string "Please enter a question."))
  | _ =>
      show (ShowSpinner (of_string "Thinking..."));;
      try_except
        (response ← on_assistant "generate_response"
                      (generate_response env fuel user_input);
         update (fun s => set_chat_history
                            (chat_history s ++ [turn_of user_input response]) s))
        (fun e => show (ShowError (of_string "Error: " ++ text e)))
  end.

End Page.

(** *** What a step of the page leaves *)

(** The engine, seen from the page. *)
Definition on_page (R : world -> world -> Prop) (st st' : state) : Prop :=
  R st.2 st'.2.

(** The session data other than the assistant and what is shown. *)
Definition same_data (st st' : state) : Prop :=
  api_key st'.1 = api_key st.1 /\ api_key_valid st'.1 = api_key_valid st.1 /\
  materials_processed st'.1 = materials_processed st.1 /\
  chat_history st'.1 = chat_history st.1.

Lemma same_data_refl st : same_data st st.
Proof. done. Qed.



Lemma data_in_world {A} (c : M world A) : preserves same_data (in_world c).
Proof.
  intros [s w] r st'. unfold in_world, zoom. simpl.
  destruct (c w) as [r1 w1]. intros [= <- <-]. done.
Qed.

Lemma data_on_assistant {A} attribute (c : M Agents.state A) :
  preserves same_data (on_assistant attribute c).
Proof.
  intros [s w] r st'. unfold on_assistant. simpl.
  destruct (the_assistant s) as [a|]; [|intros [= <- <-]; done].
  destruct (c (a, w)) as [r1 st1]. intros [= <- <-]. done.
Qed.

Section PageEngine.
Context (R : world -> world -> Prop) `{!Gentle R}.






Lemma page_in_world {A} (c : M world A) :
  preserves R c -> preserves (on_page R) (in_world c).
Proof.
  intros Hc [s w] r st'. unfold in_world, zoom. simpl.
  destruct (c w) as [r1 w1] eqn:Hrun. intros [= <- <-]. eapply Hc, Hrun.
Qed.


End PageEngine.

Section Uploads.
Context (env : environment).






(** *** An upload that goes through *)

(** The serialised metadata of the chunks, from index [i]. *)
Fixpoint metadata_from (source : pystr) (total i : Z) (chunks : list pystr)
    : list pystr :=
  match chunks with
  | [] => []
  | _ :: rest =>
      json_dumps env (JDict (chunk_metadata source i total))
        :: metadata_from source total (i + 1) rest
  end.

Lemma set_assistant_same s a : the_assistant s = Some a -> set_assistant a s = s.
Proof. destruct s; simpl. now intros ->. Qed.

Lemma add_entities_nil c : add_entities [] c = c.
Proof. destruct c. unfold add_entities. simpl. now rewrite app_nil_r. Qed.

Lemma add_entities_twice row rows c :
  add_entities rows (add_entities [row] c) = add_entities (row :: rows) c.
Proof. unfold add_entities. simpl. now rewrite <- app_assoc. Qed.

Lemma store_chunks_accepted fuel source total a s :
  forall chunks i st c,
    the_assistant st.1 = Some a ->
    vector_store a = Some s ->
    serves (s, st.2) c ->
    quiet_from env (length (trace st.2)) ->
    exists st' rows,
      store_chunks env fuel source total i chunks st = (Ok tt, st') /\
      the_assistant st'.1 = Some a /\ same_data st st' /\
      serves (s, st'.2) (add_entities rows c) /\
      map e_text rows = chunks /\
      map e_id rows = seqZ (next_id st.2) (count chunks) /\
      map e_metadata rows = metadata_from source total i chunks /\
      (length (trace st.2) <= length (trace st'.2))%nat.
Proof.
  induction chunks as [|chunk rest IH]; intros i st c Ha Hs Hserves Hq.
  - exists st, []. rewrite add_entities_nil.
    split; [reflexivity|]. split; [exact Ha|]. split; [apply same_data_refl|].
    split; [exact Hserves|]. repeat split. lia.
  - destruct (store_material_accepted env fuel (a, st.2) s c chunk
                (Some (chunk_metadata source i total)) Hs Hserves Hq)
      as (st1 & Hrun & Hself & Hserves1 & Hn1 & Ht1).
    simpl in Hrun, Hself, Hserves1, Hn1, Ht1.
    set (st2 := (add_shown (ShowProgress (i + 1) total) st.1, st1.2)).
    destruct (IH (i + 1) st2 _ Ha Hs Hserves1) as (st' & rows & Hrest & Ha' & Hd & Hsv & Htx & Hid & Hmd & Hlen).
    { intros tr ev Hl. apply Hq. simpl in Hl. rewrite Ht1, length_app in Hl. lia. }
    exists st'. eexists (_ :: rows).
    split.
    { simpl. unfold mbind at 1, M_bind at 1, bind at 1.
      unfold on_assistant at 1. rewrite Ha, Hrun, Hself.
      rewrite (set_assistant_same _ _ Ha).
      unfold mbind at 1, M_bind at 1, bind at 1.
      unfold show at 1, update at 1, modify at 1. exact Hrest. }
    split; [exact Ha'|].
    split; [exact Hd|].
    split; [rewrite <- add_entities_twice; exact Hsv|].
    split; [simpl; now rewrite Htx|].
    split.
    { simpl. rewrite Hid. simpl. rewrite Hn1. unfold count. simpl length.
      rewrite (seqZ_cons (next_id st.2)) by lia.
      f_equal. f_equal; lia. }
    split; [simpl; now rewrite Hmd|].
    simpl in Hlen. rewrite Ht1, length_app in Hlen. lia.
Qed.

(** An upload on which nothing fails.  With an assistant whose store
    serves a collection, a file that is not yet in [materials_processed]
    is cut into chunks and every chunk is stored as one row, in order:
    the upload returns, and the rows carry the chunks as texts,
    consecutive ids, and as metadata the file name, the index of the chunk
    and the number of chunks.  The
    file is then entered under its name and size, and a later upload of a
    file with the same name and size stores nothing: it only shows the
    entry. *)
Theorem upload_stores_chunks_in_order fuel pdf_file st a s c texts :
  the_assistant st.1 = Some a ->
  vector_store a = Some s ->
  serves (s, st.2) c ->
  quiet_from env (length (trace st.2)) ->
  materials_processed st.1 !! file_id pdf_file = None ->
  file_pages pdf_file = Pages texts ->
  (length (text_of_pages texts) <= fuel)%nat ->
  exists chunks st' rows,
    Chunker.chunk_text fuel (text_of_pages texts) 1000 100 = Some chunks /\
    process_file env fuel pdf_file st = (Ok tt, st') /\
    the_assistant st'.1 = Some a /\
    serves (s, st'.2) (add_entities rows c) /\
    map e_text rows = chunks /\
    map e_id rows = seqZ (next_id st.2) (count chunks) /\
    map e_metadata rows = metadata_from (file_name pdf_file) (count chunks) 0 chunks /\
    materials_processed st'.1 =
      <[file_id pdf_file :=
          {| p_name := file_name pdf_file; p_chunks := count chunks |}]>
        (materials_processed st.1) /\
    forall again,
      file_name again = file_name pdf_file ->
      file_size again = file_size pdf_file ->
      process_file env fuel again st' =
        (Ok tt,
         (add_shown (ShowInfo (chunks_line (file_name pdf_file) (count chunks))) st'.1,
          st'.2)).
Proof.
  intros Ha Hs Hserves Hq Hnew Hpages Hfuel.
  destruct (Chunker.chunk_text_run (text_of_pages texts) 1000 100 ltac:(lia))
    as (spans & _ & Hrun).
  destruct (Hrun fuel Hfuel) as [_ Hchunks].
  set (chunks := map (Chunker.slice_span (text_of_pages texts)) spans) in *.
  exists chunks.
  set (st0 := (add_shown (ShowProgress 0 1)
                 (add_shown (ShowSpinner (of_string "Processing " ++ file_name pdf_file
                                            ++ of_string "...")) st.1), st.2)).
  destruct (store_chunks_accepted fuel (file_name pdf_file) (count chunks) a s
              chunks 0 st0 c Ha Hs Hserves Hq)
    as (st1 & rows & Hstore & Ha1 & (_ & _ & Hm1 & _) & Hsv & Htx & Hid & Hmd & _).
  simpl in Hm1.
  eexists _, rows. split; [exact Hchunks|]. split.
  { unfold process_file, session_state.
    unfold mbind at 1, M_bind at 1, bind at 1. rewrite Hnew.
    unfold mbind at 1, M_bind at 1, bind at 1. unfold show at 1, update at 1, modify at 1.
    unfold try_except, ingest, extract_text_from_pdf, chunk. rewrite Hpages.
    unfold mbind at 1, M_bind at 1, bind at 1. unfold mret at 1, M_ret at 1, ret at 1.
    rewrite Hchunks.
    unfold mbind at 1, M_bind at 1, bind at 1. unfold mret at 1, M_ret at 1, ret at 1.
    unfold mbind at 1, M_bind at 1, bind at 1. unfold show at 1, update at 1, modify at 1.
    unfold mbind at 1, M_bind at 1, bind at 1.
    cbn [fst snd]. fold st0. rewrite Hstore.
    unfold show, update. run_monad. reflexivity. }
  cbn [fst snd]. split; [exact Ha1|]. split; [exact Hsv|].
  split; [exact Htx|]. split; [exact Hid|]. split; [exact Hmd|].
  split; [simpl; now rewrite Hm1|].
  intros again Hname Hsize.
  unfold process_file, session_state.
  unfold mbind at 1, M_bind at 1, bind at 1. cbn [fst snd].
  replace (file_id again) with (file_id pdf_file)
    by (unfold file_id; now rewrite Hname, Hsize).
  cbn [materials_processed add_shown set_materials_processed].
  rewrite lookup_insert_eq. reflexivity.
Qed.

(** A file without pages gives the empty text and no chunk: it is
    entered with 0 chunks and nothing is stored or called, with or
    without an assistant. *)
Theorem upload_without_pages_stores_nothing fuel pdf_file st :
  materials_processed st.1 !! file_id pdf_file = None ->
  file_pages pdf_file = Pages [] ->
  exists st',
    process_file env fuel pdf_file st = (Ok tt, st') /\
    st'.2 = st.2 /\ the_assistant st'.1 = the_assistant st.1 /\
    materials_processed st'.1 =
      <[file_id pdf_file := {| p_name := file_name pdf_file; p_chunks := 0 |}]>
        (materials_processed st.1) /\
    last (shown st'.1) = Some (ShowSuccess (chunks_line (file_name pdf_file) 0)).
Proof.
  destruct st as [s w]. simpl. intros Hnew Hpages.
  unfold process_file, session_state, ingest, extract_text_from_pdf, chunk,
    show, update.
  run_monad. cbn [fst snd]. rewrite Hnew. cbn [fst snd]. rewrite Hpages.
  simpl. eexists. split; [reflexivity|]. simpl. repeat split. apply last_snoc.
Qed.

End Uploads.

(** *** Clearing, chatting, entering the key *)

Section Controls.
Context (env : environment).

Lemma on_assistant_returns {A} attribute (c : M Agents.state A) st x st' :
  on_assistant attribute c st = (Ok x, st') ->
  exists a st1,
    the_assistant st.1 = Some a /\ c (a, st.2) = (Ok x, st1) /\
    st' = (set_assistant st1.1 st.1, st1.2).
Proof.
  unfold on_assistant. destruct (the_assistant st.1) as [a|]; [|discriminate].
  destruct (c (a, st.2)) as [r1 st1] eqn:Hrun. intros [= -> <-].
  now exists a, st1.
Qed.



(** [clear_chat] empties the chat of the page and nothing else: the
    assistant keeps its conversation history.  So the first question
    answered after the chat was cleared is still asked with the last five
    turns of the conversation held before. *)
Theorem clear_chat_keeps_conversation fuel user_input st a r st' reply :
  the_assistant st.1 = Some a ->
  (clear_chat;; submit_chat env fuel user_input) st = (r, st') ->
  chat_history st'.1 = [turn_of user_input reply] ->
  is_error_reply reply = false ->
  exists relevant pre,
    trace st'.2 =
      pre ++ [ChatCompletionsCreate (model a)
                (response_messages (context_of relevant)
                   (format_turns (last_n 5 (conversation_history a))) user_input)
                temperature].
Proof.
  intros Ha. unfold clear_chat.
  unfold mbind at 1, M_bind at 1, bind at 1. unfold update at 1, modify at 1.
  unfold submit_chat.
  destruct user_input as [|ch rest].
  { unfold show, update. run_monad. intros [= <- <-]. discriminate. }
  set (query := ch :: rest).
  unfold mbind at 1, M_bind at 1, bind at 1. unfold show at 1, update at 1, modify at 1.
  unfold try_except. unfold mbind at 1, M_bind at 1, bind at 1.
  match goal with |- context [on_assistant _ _ ?x] => set (st0 := x) end.
  destruct (on_assistant "generate_response" _ st0) as [r1 st1] eqn:Hcall.
  pose proof (data_on_assistant _ _ _ _ _ Hcall) as (_ & _ & _ & Hc1).
  simpl in Hc1.
  destruct r1 as [response|e1|].
  - apply on_assistant_returns in Hcall as (a0 & st1' & Ha0 & Hrun & ->).
    simpl in Ha0. rewrite Ha in Ha0. injection Ha0 as <-.
    apply generate_response_cases in Hrun as [_ Hcase].
    unfold update. run_monad. intros [= <- <-]. simpl.
    intros [= <-] Hreply.
    destruct Hcase as [(content & relevant & pre & [= <-] & _ & Ht)|[_ Herr]].
    + now exists relevant, pre.
    + rewrite (Herr response eq_refl) in Hreply. discriminate.
  - unfold show, update. run_monad. intros [= <- <-]. simpl. rewrite Hc1.
    discriminate.
  - intros [= <- <-]. rewrite Hc1. discriminate.
Qed.

(** The key is marked valid before the assistant is constructed.  When
    the check of the key fails, an error is shown and nothing else
    happens.  When it passes, the session holds the key and has it marked
    valid from then on; if the construction of the assistant then fails,
    the exception escapes from the form and the session is left with a
    valid key and no new assistant. *)
Theorem key_is_marked_valid_before_construction fuel key st :
  key <> [] ->
  match fault env (trace st.2) ModelsList with
  | Some _ =>
      submit_api_key env fuel key st =
        (Ok tt,
         (add_shown (ShowError (of_string "Invalid API key. Please try again.")) st.1,
          record_event ModelsList st.2))
  | None =>
      let marked := set_api_key_valid true (set_api_key key st.1) in
      match Agents.init env fuel (record_event ModelsList st.2) with
      | (Ok a, w) =>
          submit_api_key env fuel key st =
            (Ok tt,
             (add_shown (ShowSuccess (of_string "API key validated. Loading..."))
                (set_assistant a marked),
              record_event (Sleep 1) w))
      | (Raise e, w) => submit_api_key env fuel key st = (Raise e, (marked, w))
      | (OutOfFuel, w) => submit_api_key env fuel key st = (OutOfFuel, (marked, w))
      end
  end.
Proof.
  intros Hkey. destruct key as [|ch rest]; [done|]. destruct st as [s w].
  unfold submit_api_key, validate_api_key, in_world, zoom, models_list, call,
    show, update, sleep.
  run_monad. cbn [fst snd].
  destruct (fault env (trace w) ModelsList); [reflexivity|].
  cbn [fst snd].
  destruct (Agents.init env fuel (record_event ModelsList w)) as [[a|e|] w1];
    reflexivity.
Qed.

End Controls.

(** *** Checking the quiz *)

(** What the page reads of a question: [question["options"]] and
    [question["correct_index"]]. *)
Record question := { options : list pystr; correct_index : Z }.

(** [options.index(selected_option)]; [None] stands for its
    [ValueError]. *)
Definition index (options : list pystr) (selected_option : pystr) : option Z :=
  (fun found : nat * pystr => Z.of_nat found.1)
    <$> list_find (fun o => o = selected_option) options.

(** The score of [Check All]: the questions whose recorded answer is
    their [correct_index]. *)
Definition check_all (quiz : list question) (quiz_answers : gmap nat Z) : Z :=
  Z.of_nat
    (length
       (filter (fun iq : nat * question =>
                  quiz_answers !! iq.1 = Some (correct_index iq.2))
          (imap pair quiz))).

Lemma index_first_occurrence options_ pick o :
  options_ !! pick = Some o ->
  exists k,
    index options_ o = Some (Z.of_nat k) /\ (k <= pick)%nat /\
    options_ !! k = Some o /\
    forall j, (j < k)%nat -> options_ !! j <> Some o.
Proof.
  intros Hpick. unfold index.
  destruct (list_find (fun o' => o' = o) options_) as [[k x]|] eqn:Hfind.
  - apply list_find_Some in Hfind as (Hk & -> & Hmin).
    exists k. split; [reflexivity|]. split.
    + destruct (decide (k <= pick)%nat) as [|Hgt]; [done|].
      exfalso. apply (Hmin pick o Hpick); [lia|reflexivity].
    + split; [exact Hk|]. intros j Hj Hl. now apply (Hmin j o Hl Hj).
  - apply list_find_None in Hfind.
    apply list_elem_of_lookup_2 in Hpick.
    rewrite Forall_forall in Hfind. now destruct (Hfind o Hpick).
Qed.

(** The answer recorded for a question is the position of the first
    option that reads like the selected one.  It is the selected position
    only if no earlier option has the same text; so a question whose
    correct option repeats an earlier one is never counted as answered
    correctly, whichever option is selected.  The score is between 0 and
    the number of questions. *)
Theorem quiz_answer_is_first_occurrence :
  (forall options_ pick o,
     options_ !! pick = Some o ->
     exists k,
       index options_ o = Some (Z.of_nat k) /\ (k <= pick)%nat /\
       options_ !! k = Some o /\
       forall j, (j < k)%nat -> options_ !! j <> Some o) /\
  (forall q correct earlier pick o,
     correct_index q = Z.of_nat correct ->
     (earlier < correct)%nat ->
     is_Some (options q !! correct) ->
     options q !! earlier = options q !! correct ->
     options q !! pick = Some o ->
     index (options q) o <> Some (correct_index q)) /\
  (forall quiz quiz_answers, 0 <= check_all quiz quiz_answers <= Z.of_nat (length quiz)).
Proof.
  split; [exact index_first_occurrence|]. split.
  - intros q correct earlier pick o Hcorrect Hearlier [x Hx] Hsame Hpick Hindex.
    destruct (index_first_occurrence _ _ _ Hpick) as (k & Hk & _ & Hko & Hmin).
    rewrite Hk, Hcorrect in Hindex. injection Hindex as Heq.
    apply Nat2Z.inj in Heq. subst k.
    apply (Hmin earlier Hearlier). now rewrite Hsame.
  - intros quiz quiz_answers. unfold check_all. split; [lia|].
    apply Nat2Z.inj_le.
    etransitivity; [apply length_filter|]. now rewrite length_imap.
Qed.


(** *** Concrete runs of the page *)

(** A session with a valid key, the sample assistant and nothing else. *)
Definition sample_session : state :=
  ({| api_key := of_string "sk-sample"; api_key_valid := true;
      the_assistant := Some fresh_assistant.1;
      materials_processed := ∅; chat_history := []; shown := [] |},
   fresh_assistant.2).

(** A session before any key was entered. *)
Definition blank_session : state :=
  ({| api_key := []; api_key_valid := false; the_assistant := None;
      materials_processed := ∅; chat_history := []; shown := [] |},
   empty_world).

Definition short_pdf : uploaded :=
  {| file_name := of_string "cells.pdf"; file_size := 2048;
     file_pages := Pages [of_string "Cells divide."] |}.



(** The clean-up of old databases always fails. *)
Definition locked_tmp : environment :=
  sample_env
    (fun _ ev =>
       match ev with
       | CleanupOldDbs => Some (other_error "permission denied")
       | _ => None
       end)
    [] (fun _ => None).



(** The sample session after two questions were answered. *)
Definition talked_session : state :=
  let answered := (ask_all (chatty "A cell is the unit of life.") 3 two_queries
                     fresh_assistant).2 in
  ({| api_key := of_string "sk-sample"; api_key_valid := true;
      the_assistant := Some answered.1;
      materials_processed := ∅;
      chat_history := conversation_history answered.1; shown := [] |},
   answered.2).


Lemma upload_stores_chunks_in_order_witness :
  exists st' rows,
    process_file calm 50 short_pdf sample_session = (Ok tt, st') /\
    map e_text rows = [text_of_pages [of_string "Cells divide."]] /\
    map e_id rows = [1].
Proof.
  destruct (upload_stores_chunks_in_order calm 50 short_pdf sample_session
              fresh_assistant.1 (ready_state calm).1 (ready_collection 1536)
              [of_string "Cells divide."])
    as (chunks & st' & rows & Hchunks & Hrun & _ & _ & Htexts & Hids & _).
  - reflexivity.
  - reflexivity.
  - unfold serves. repeat split; vm_compute; reflexivity.
  - intros tr ev _. reflexivity.
  - reflexivity.
  - reflexivity.
  - vm_compute. lia.
  - assert (Hc : chunks = [text_of_pages [of_string "Cells divide."]]).
    { vm_compute in Hchunks. injection Hchunks as <-. reflexivity. }
    rewrite Hc in Htexts, Hids. exists st', rows.
    split; [exact Hrun|]. split; [exact Htexts|exact Hids].
Defined.



Lemma clear_chat_keeps_conversation_witness :
  let run := (clear_chat;; submit_chat (chatty "A nucleus holds the DNA.") 3
                             (of_string "And a ribosome?")) talked_session in
  length (chat_history talked_session.1) = 2%nat /\
  exists relevant pre a,
    the_assistant talked_session.1 = Some a /\
    length (conversation_history a) = 2%nat /\
    trace run.2.2 =
      pre ++ [ChatCompletionsCreate (model a)
                (response_messages (context_of relevant)
                   (format_turns (last_n 5 (conversation_history a)))
                   (of_string "And a ribosome?"))
                temperature].
Proof.
  intros run.
  set (a := (ask_all (chatty "A cell is the unit of life.") 3 two_queries
               fresh_assistant).2.1).
  destruct (clear_chat_keeps_conversation (chatty "A nucleus holds the DNA.") 3
              (of_string "And a ribosome?") talked_session a run.1 run.2
              (of_string "A nucleus holds the DNA."))
    as (relevant & pre & Htrace).
  - reflexivity.
  - apply surjective_pairing.
  - vm_compute. reflexivity.
  - reflexivity.
  - split; [vm_compute; reflexivity|].
    exists relevant, pre, a. split; [reflexivity|].
    split; [vm_compute; reflexivity|exact Htrace].
Defined.

Lemma key_is_marked_valid_before_construction_witness :
  let run := submit_api_key locked_tmp 3 (of_string "sk-sample") blank_session in
  exists e,
    run.1 = Raise e /\ api_key_valid run.2.1 = true /\ the_assistant run.2.1 = None.
Proof.
  intros run.
  pose proof (key_is_marked_valid_before_construction locked_tmp 3
                (of_string "sk-sample") blank_session) as Hrun.
  assert (Hkey : of_string "sk-sample" <> []) by discriminate.
  specialize (Hrun Hkey).
  assert (Hfault : fault locked_tmp (trace blank_session.2) ModelsList = None)
    by reflexivity.
  rewrite Hfault in Hrun. cbv zeta in Hrun.
  destruct (Agents.init locked_tmp 3 (record_event ModelsList blank_session.2))
    as [[a|e|] w] eqn:Hinit.
  - vm_compute in Hinit. discriminate.
  - exists e. unfold run. rewrite Hrun. repeat split.
  - vm_compute in Hinit. discriminate.
Defined.

Lemma upload_without_pages_stores_nothing_witness :
  let blank_pdf := {| file_name := of_string "blank.pdf"; file_size := 512;
                      file_pages := Pages [] |} in
  exists st',
    process_file calm 0 blank_pdf blank_session = (Ok tt, st') /\
    st'.2 = blank_session.2.
Proof.
  intros blank_pdf.
  destruct (upload_without_pages_stores_nothing calm 0 blank_pdf blank_session)
    as (st' & Hrun & Hworld & _).
  - reflexivity.
  - reflexivity.
  - exists st'. split; [exact Hrun|exact Hworld].
Defined.

End App.
